(** * The foreign array bridge of equistore ([data/array.py])

    A shallow embedding of [python/src/equistore/data/array.py]: the
    [ArrayWrapper] class, which exposes a numpy array or a torch tensor to the
    native core as an [eqs_array_t] (an opaque pointer and a table of
    callbacks), and the callbacks themselves.

    The file has three layers.
    - The host array libraries (numpy, torch) as far as [array.py] calls them:
      an array is a strided view of a shared buffer, so that views, copies and
      in-place writes alias exactly as they do in Python.
    - The Python heap: buffers, wrapper objects with their reference counts,
      the module globals, and a small state-and-exception monad.
    - The functions of [array.py], each one translated statement by
      statement, followed by the properties proved about them.

    What the array libraries do is taken from their documentation. Lengths,
    indices and counts are natural numbers without an upper bound, as
    Python integers are; the limits of an implementation (the largest
    number of dimensions, the largest length) are not modelled. Arrays are
    writable. Of torch's autograd only the [requires_grad] flag is
    modelled, which [array.py] mentions for [.numpy()].

    The functions of [operations/split.py] are embedded as well, in the
    module [Split]: they work on the classes of the package, which are not
    part of the sources and stay parameters. Their properties come at the
    end of the file. *)

From Stdlib Require Import ZArith Lia List Bool.
From stdpp Require Import base list strings numbers.
From stdpp Require pretty.

(** ** Host arrays *)

(** Element types ([array.dtype]). Only equality with [np.float64] is ever
    inspected by the bridge. *)
Inductive dtype :=
| float64
| float32
| int64
| int32
| other_dtype (name : string).

#[global] Instance dtype_eq_dec : EqDecision dtype.
Proof. solve_decision. Defined.

Definition dtype_name (d : dtype) : string :=
  match d with
  | float64 => "float64"
  | float32 => "float32"
  | int64 => "int64"
  | int32 => "int32"
  | other_dtype name => name
  end.

(** The two array classes the bridge knows: [np.ndarray] and
    [torch.Tensor]. *)
Inductive backend := Numpy | Torch.

#[global] Instance backend_eq_dec : EqDecision backend.
Proof. solve_decision. Defined.

(** An array object: a view of buffer [buf] starting at element [offset],
    with one (length, stride) pair per dimension, strides counted in
    elements. [device] is [array.device.type] (always ["cpu"] for numpy)
    and [requires_grad] is the tensor's gradient-tracking flag (always
    [false] for numpy). *)
Record ndarray := mk_ndarray {
  kind : backend;
  buf : nat;
  offset : Z;
  dims : list (nat * Z);
  dtype_of : dtype;
  device : string;
  requires_grad : bool;
}.

(** [array.shape] *)
Definition shape (a : ndarray) : list nat := (dims a).*1.

(** [array.ndim] *)
Definition ndim (a : ndarray) : nat := length (dims a).

(** Number of elements of an array of a given shape ([array.size]). *)
Definition size (sh : list nat) : nat := foldr Nat.mul 1 sh.

(** Dimensions of a freshly allocated row-major (C order) array. *)
Fixpoint c_dims (sh : list nat) : list (nat * Z) :=
  match sh with
  | [] => []
  | d :: sh' => (d, Z.of_nat (size sh')) :: c_dims sh'
  end.

(** Displacement of the element at multi-index [idx]. *)
Fixpoint dot (idx : list nat) (ds : list (nat * Z)) : Z :=
  match idx, ds with
  | i :: idx', (_, s) :: ds' => (Z.of_nat i * s + dot idx' ds')%Z
  | _, _ => 0%Z
  end.

Definition address (a : ndarray) (idx : list nat) : Z :=
  (offset a + dot idx (dims a))%Z.

(** [idx] is a valid multi-index for shape [sh]. *)
Definition in_bounds (idx sh : list nat) : Prop := Forall2 lt idx sh.

(** All multi-indices of a shape, in row-major order. *)
Fixpoint all_indices (sh : list nat) : list (list nat) :=
  match sh with
  | [] => [[]]
  | d :: sh' => i ← seq 0 d; (cons i) <$> all_indices sh'
  end.

(** Row-major position of a multi-index, and its inverse. *)
Fixpoint ravel (sh idx : list nat) : nat :=
  match sh, idx with
  | _ :: sh', i :: idx' => i * size sh' + ravel sh' idx'
  | _, _ => 0
  end.

Fixpoint unravel (sh : list nat) (k : nat) : list nat :=
  match sh with
  | [] => []
  | _ :: sh' => (k / size sh') :: unravel sh' (k mod size sh')
  end.

(** The C-contiguity flag, as numpy and the buffer protocol compute it: an
    array with an empty dimension is contiguous; otherwise, walking from the
    last dimension, every dimension longer than one must have the stride of a
    packed row-major array. *)
Fixpoint contiguous_from (ds : list (nat * Z)) : bool * Z :=
  match ds with
  | [] => (true, 1%Z)
  | (d, s) :: ds' =>
      let '(ok, sd) := contiguous_from ds' in
      (ok && ((d =? 1) || (s =? sd)%Z), (sd * Z.of_nat d)%Z)
  end.

Definition c_contiguous (a : ndarray) : bool :=
  existsb (fun d => d.1 =? 0) (dims a) || (contiguous_from (dims a)).1.

(** Exchange the entries at positions [i] and [j] of a list. *)
Definition swap_entries {A} (i j : nat) (l : list A) : list A :=
  match l !! i, l !! j with
  | Some x, Some y => <[i := y]> (<[j := x]> l)
  | _, _ => l
  end.

(** *** Reshaping without a copy

    numpy's [_attempt_nocopy_reshape]: dimensions of length one are dropped
    from the old shape; then old and new dimensions are consumed in groups of
    equal product. A group of old dimensions can be re-split only if it is
    itself packed; the new strides of the group are then rebuilt from its
    innermost old stride. *)
Fixpoint grow (fuel np op : nat) (gn : list nat) (go : list (nat * Z))
    (news : list nat) (olds : list (nat * Z))
    : option (list nat * list (nat * Z) * list nat * list (nat * Z)) :=
  if np =? op then Some (gn, go, news, olds)
  else match fuel with
       | 0 => None
       | S fuel' =>
           if np <? op then
             match news with
             | n :: news' => grow fuel' (np * n) op (gn ++ [n]) go news' olds
             | [] => None
             end
           else
             match olds with
             | o :: olds' => grow fuel' np (op * o.1) gn (go ++ [o]) news olds'
             | [] => None
             end
       end.

Fixpoint combinable (go : list (nat * Z)) : bool :=
  match go with
  | (_, s) :: (((d', s') :: _) as rest) =>
      (s =? Z.of_nat d' * s')%Z && combinable rest
  | _ => true
  end.

Fixpoint group_strides (gn : list nat) (innermost : Z) : list (nat * Z) * Z :=
  match gn with
  | [] => ([], innermost)
  | n :: gn' =>
      let '(r, s) := group_strides gn' innermost in
      ((n, s) :: r, (s * Z.of_nat n)%Z)
  end.

Fixpoint nocopy_groups (fuel : nat) (news : list nat) (olds : list (nat * Z))
    (last_stride : Z) : option (list (nat * Z)) :=
  match news, olds with
  | n :: news', o :: olds' =>
      match fuel with
      | 0 => None
      | S fuel' =>
          match grow (length news' + length olds') n o.1 [n] [o] news' olds' with
          | Some (gn, go, news'', olds'') =>
              if combinable go then
                let innermost := (List.last go o).2 in
                match nocopy_groups fuel' news'' olds'' innermost with
                | Some rest => Some ((group_strides gn innermost).1 ++ rest)
                | None => None
                end
              else None
          | None => None
          end
      end
  | _, _ => Some ((fun n => (n, last_stride)) <$> news)
  end.

Definition attempt_nocopy_reshape (a : ndarray) (newshape : list nat)
    : option (list (nat * Z)) :=
  nocopy_groups (S (length newshape)) newshape
    (filter (fun d => d.1 ≠ 1) (dims a)) 1%Z.

(** *** torch's memory-format test

    [clone()] keeps the strides of a tensor that is "non-overlapping and
    dense": sorted by stride, the dimensions longer than one are packed. *)
Fixpoint insert_by_stride (d : nat * Z) (l : list (nat * Z)) : list (nat * Z) :=
  match l with
  | [] => [d]
  | e :: l' => if (d.2 <=? e.2)%Z then d :: l else e :: insert_by_stride d l'
  end.

Fixpoint dense_from (sd : Z) (l : list (nat * Z)) : bool :=
  match l with
  | [] => true
  | (d, s) :: l' => (s =? sd)%Z && dense_from (sd * Z.of_nat d)%Z l'
  end.

Definition non_overlapping_and_dense (a : ndarray) : bool :=
  dense_from 1%Z
    (foldr insert_by_stride [] (filter (fun d => 2 ≤ d.1) (dims a))).

(** ** Python exceptions *)

(** The exception classes that can arise inside the bridge, with their
    messages where [array.py] writes them. [AxisError] is numpy's. *)
Inductive exception :=
| ValueError (msg : string)
| IndexError (msg : string)
| TypeError (msg : string)
| RuntimeError (msg : string)
| AttributeError (msg : string)
| UnboundLocalError (msg : string)
| AxisError (msg : string).

(** An arbitrary Python object handed to [ArrayWrapper]: an array of one of
    the two known classes, or an object of some other class, which may or may
    not have a [shape] attribute. *)
Inductive pyobject :=
| PyArray (a : ndarray)
| PyOther (type_name : string) (shape_attr : option (list nat)).

(** [eqs_sample_mapping_t]: two unsigned fields. *)
Record eqs_sample_mapping_t := mk_sample_mapping { input : nat; output : nat }.

(** Python callables stored in an [eqs_array_t]. [eqs_array_origin] is a
    closure over the [array_origin] computed in [__init__]; the others are
    the module-level functions. *)
Inductive callback :=
| fn_eqs_array_origin (array_origin : nat)
| fn_eqs_array_data
| fn_eqs_array_shape
| fn_eqs_array_reshape
| fn_eqs_array_swap_axes
| fn_eqs_array_create
| fn_eqs_array_copy
| fn_eqs_array_destroy
| fn_eqs_array_move_samples_from.

(** [eqs_array_t]: the opaque pointer and the nine function pointers. *)
Record eqs_array_t := mk_eqs_array {
  eqs_ptr : nat;
  eqs_origin : callback;
  eqs_data : callback;
  eqs_shape : callback;
  eqs_reshape : callback;
  eqs_swap_axes : callback;
  eqs_create : callback;
  eqs_copy : callback;
  eqs_destroy : callback;
  eqs_move_samples_from : callback;
}.

(** An [ArrayWrapper] instance. [ob_refcnt] counts the references held from
    outside the object's own ctypes structures (Python names and the native
    core); the reference cycle through [_eqs_array.ptr] is not counted, so
    the cyclic collector may free the wrapper exactly when the count is
    zero. [_eqs_array] is determined by the wrapper's address and
    [array_origin] and is rebuilt on demand. *)
Record ArrayWrapper := mk_wrapper {
  array : ndarray;
  _shape : list nat;
  array_origin : nat;
  ob_refcnt : nat;
}.

Definition _eqs_array (self : nat) (w : ArrayWrapper) : eqs_array_t :=
  {| eqs_ptr := self;
     eqs_origin := fn_eqs_array_origin (array_origin w);
     eqs_data := fn_eqs_array_data;
     eqs_shape := fn_eqs_array_shape;
     eqs_reshape := fn_eqs_array_reshape;
     eqs_swap_axes := fn_eqs_array_swap_axes;
     eqs_create := fn_eqs_array_create;
     eqs_copy := fn_eqs_array_copy;
     eqs_destroy := fn_eqs_array_destroy;
     eqs_move_samples_from := fn_eqs_array_move_samples_from |}.

Definition with_array (a : ndarray) (w : ArrayWrapper) : ArrayWrapper :=
  mk_wrapper a (_shape w) (array_origin w) (ob_refcnt w).

Definition with_shape (sh : list nat) (w : ArrayWrapper) : ArrayWrapper :=
  mk_wrapper (array w) sh (array_origin w) (ob_refcnt w).

Definition with_refcnt (n : nat) (w : ArrayWrapper) : ArrayWrapper :=
  mk_wrapper (array w) (_shape w) (array_origin w) n.

Definition with_dims (ds : list (nat * Z)) (a : ndarray) : ndarray :=
  mk_ndarray (kind a) (buf a) (offset a) ds (dtype_of a) (device a)
    (requires_grad a).

Definition with_requires_grad (g : bool) (a : ndarray) : ndarray :=
  mk_ndarray (kind a) (buf a) (offset a) (dims a) (dtype_of a) (device a) g.

(** ** Example arrays

    [np.zeros(shape)], as [create_array] of the tests makes it: a packed
    numpy array with a buffer of its own. *)
Definition full (b : nat) (sh : list nat) (dt : dtype) : ndarray :=
  mk_ndarray Numpy b 0 (c_dims sh) dt "cpu" false.

(** A wrapper around an array, with its shape cached. *)
Definition wrapped (a : ndarray) (refs : nat) : option ArrayWrapper :=
  Some (mk_wrapper a (shape a) 0 refs).

(** A tensor on the CPU, packed and of type float64, that tracks
    gradients; and an int32 array seen through swapped axes. *)
Definition tracked_tensor : ndarray :=
  mk_ndarray Torch 0 0 (c_dims [2; 3]) float64 "cpu" true.

Definition swapped_int32 : ndarray :=
  mk_ndarray Numpy 1 0 [(3, 1%Z); (2, 3%Z)] int32 "cpu" false.

(** A nonzero status for every caught exception, used in the examples, and
    the conversion between equal element types. *)
Definition python_error (e : exception) : Z := (-1)%Z.

Definition no_cast {A} (from to : dtype) (x : A) : A := x.

(** ** [operations/split.py] *)

Module Split.

(** A Python object as the functions of [split.py] inspect it: a string, a
    list, an instance of one of the three classes of the package, or an
    object of another class, which has no length and cannot be iterated
    (a number, [None]). *)
#[local] Unset Elimination Schemes.
Inductive value (Labels TensorBlock TensorMap : Type) :=
| Str (s : string)
| List (l : list (value Labels TensorBlock TensorMap))
| LabelsObj (l : Labels)
| BlockObj (b : TensorBlock)
| TensorObj (t : TensorMap)
| Other (type_name : string).
#[local] Set Elimination Schemes.
Arguments Str {_ _ _} s.
Arguments List {_ _ _} l.
Arguments LabelsObj {_ _ _} l.
Arguments BlockObj {_ _ _} b.
Arguments TensorObj {_ _ _} t.
Arguments Other {_ _ _} type_name.

(** What [split.py] imports and is not part of the sources: the classes
    [Labels], [TensorBlock] and [TensorMap] with the attributes and methods
    used here, and [_slice_block] of [operations/slice.py]. They are
    parameters; the exceptions they raise are of a type of their own. *)
Class Package := {
  Labels : Type;
  TensorBlock : Type;
  TensorMap : Type;
  LabelsEntry : Type;
  Error : Type;
  (** [labels.names] *)
  names : Labels → list string;
  (** the entries a [for] loop over a [Labels] goes through *)
  entries : Labels → list LabelsEntry;
  (** [block.samples] and [block.properties] *)
  samples : TensorBlock → Labels;
  properties : TensorBlock → Labels;
  (** [tensor.keys], [tensor.block(i)] and [tensor[key]] *)
  keys : TensorMap → Labels;
  block : TensorMap → nat → Error + TensorBlock;
  getitem : TensorMap → LabelsEntry → Error + TensorBlock;
  (** [TensorMap(keys=keys, blocks=blocks)] *)
  TensorMap_init : Labels → list TensorBlock → Error + TensorMap;
  (** [_slice_block(block, samples=samples, properties=properties)],
      [None] for an argument left out *)
  _slice_block :
    TensorBlock → option (value Labels TensorBlock TensorMap) →
    option (value Labels TensorBlock TensorMap) → Error + TensorBlock;
}.

Section Functions.

Context `{Package}.

Abbreviation pyvalue := (value Labels TensorBlock TensorMap).

(** What a function of [split.py] may raise: a built-in exception, the
    [KeyError] of a dictionary, or an error of the package. *)
Inductive raised :=
| Builtin (e : exception)
| KeyError (key : nat)
| Native (e : Error).

Inductive result (A : Type) :=
| Return (a : A)
| Raises (e : raised).
Arguments Return {A} a.
Arguments Raises {A} e.

Definition bind {A B} (m : result A) (k : A → result B) : result B :=
  match m with
  | Return a => k a
  | Raises e => Raises e
  end.

Notation "x <- m ;; k" := (bind m (fun x => k))
  (at level 100, m at next level, right associativity).
Notation "m ;;; k" := (bind m (fun _ => k))
  (at level 100, right associativity).

Definition native {A} (r : Error + A) : result A :=
  match r with
  | inl e => Raises (Native e)
  | inr a => Return a
  end.

(** [type(v).__name__] *)
Definition type_name_of (v : pyvalue) : string :=
  match v with
  | Str _ => "str"
  | List _ => "list"
  | LabelsObj _ => "Labels"
  | BlockObj _ => "TensorBlock"
  | TensorObj _ => "TensorMap"
  | Other n => n
  end.

Definition no_attribute {A} (v : pyvalue) (attr : string) : result A :=
  Raises (Builtin (AttributeError
    ("'" +:+ type_name_of v +:+ "' object has no attribute '" +:+ attr +:+ "'"))).

(** [v.names], [v.samples], [v.properties] *)
Definition getattr_names (v : pyvalue) : result (list string) :=
  match v with
  | LabelsObj l => Return (names l)
  | _ => no_attribute v "names"
  end.

Definition getattr_samples (v : pyvalue) : result Labels :=
  match v with
  | BlockObj b => Return (samples b)
  | _ => no_attribute v "samples"
  end.

Definition getattr_properties (v : pyvalue) : result Labels :=
  match v with
  | BlockObj b => Return (properties b)
  | _ => no_attribute v "properties"
  end.

(** [len(v)] and the elements a [for] loop over [v] goes through: a string
    yields its characters. *)
Definition py_len (v : pyvalue) : result nat :=
  match v with
  | Str s => Return (String.length s)
  | List l => Return (length l)
  | _ => Raises (Builtin (TypeError
           ("object of type '" +:+ type_name_of v +:+ "' has no len()")))
  end.

Definition py_iter (v : pyvalue) : result (list pyvalue) :=
  match v with
  | Str s => Return ((fun c => Str (String c EmptyString)) <$> String.list_ascii_of_string s)
  | List l => Return l
  | _ => Raises (Builtin (TypeError
           ("'" +:+ type_name_of v +:+ "' object is not iterable")))
  end.

(** [v == s] for a string literal [s] *)
Definition eq_str (v : pyvalue) (s : string) : bool :=
  match v with
  | Str a => String.eqb a s
  | _ => false
  end.

Definition isinstance_Labels (v : pyvalue) : bool :=
  match v with LabelsObj _ => true | _ => false end.

(** The loops of [_check_args]. *)
Fixpoint check_elements (grouped_idxs : list pyvalue) : result unit :=
  match grouped_idxs with
  | [] => Return tt
  | idxs :: rest =>
      if negb (isinstance_Labels idxs) then
        Raises (Builtin (TypeError
          ("each element in ``grouped_idxs`` must" +:+
           " be an equistore ``Labels`` object")))
      else check_elements rest
  end.

Fixpoint check_equivalent (ref_names : list string) (rest : list pyvalue)
    : result unit :=
  match rest with
  | [] => Return tt
  | idxs :: rest' =>
      idxs_names <- getattr_names idxs ;;
      if negb (bool_decide (idxs_names = ref_names)) then
        Raises (Builtin (ValueError
          ("the names of all ``Labels`` passed in ``grouped_idxs``" +:+
           " must be equivalent")))
      else check_equivalent ref_names rest'
  end.

Fixpoint check_contained (axis : string) (names : list string) (ref_i : nat)
    (ref_names : list string) : result unit :=
  match ref_names with
  | [] => Return tt
  | ref_name :: rest =>
      if negb (bool_decide (ref_name ∈ names)) then
        Raises (Builtin (ValueError
          ("the name ``" +:+ ref_name +:+
           "`` passed in a Labels object at position " +:+ pretty.pretty ref_i +:+
           " of ``grouped_idxs`` does not appear in the ``" +:+ axis +:+
           "`` names" +:+ " of the input tensor")))
      else check_contained axis names (S ref_i) rest
  end.

Definition _check_args (tensor axis grouped_idxs : pyvalue) : result unit :=
  match axis with
  | Str axis_str =>
      if negb (bool_decide (axis_str ∈ ["samples"; "properties"])) then
        Raises (Builtin (ValueError
          "must pass ``axis`` as either 'samples' or 'properties'"))
      else
        match grouped_idxs with
        | List l =>
            match l with
            | [] => Return tt
            | first :: rest =>
                check_elements l ;;;
                ref_names <- getattr_names first ;;
                check_equivalent ref_names rest ;;;
                block <- match tensor with
                         | TensorObj t => b <- native (block t 0) ;; Return (BlockObj b)
                         | _ => Return tensor
                         end ;;
                labels <- (if String.eqb axis_str "samples"
                           then getattr_samples block
                           else getattr_properties block) ;;
                check_contained axis_str (names labels) 0 ref_names
            end
        | _ =>
            Raises (Builtin (TypeError
              "``grouped_idxs`` should be passed as a ``list`` of equistore ``Labels``"))
        end
  | _ => Raises (Builtin (TypeError "``axis`` should be passed as a ``str``"))
  end.

(** [_split_block]: one slice per group, in order; the first slice that
    fails ends the loop. *)
Fixpoint split_loop (block : TensorBlock) (axis : pyvalue)
    (grouped_idxs : list pyvalue) (new_blocks : list TensorBlock)
    : result (list TensorBlock) :=
  match grouped_idxs with
  | [] => Return new_blocks
  | indices :: rest =>
      new_block <- (if eq_str axis "samples"
                    then native (_slice_block block (Some indices) None)
                    else native (_slice_block block None (Some indices))) ;;
      split_loop block axis rest (new_blocks ++ [new_block])
  end.

Definition _split_block (block : TensorBlock) (axis grouped_idxs : pyvalue)
    : result (list TensorBlock) :=
  l <- py_iter grouped_idxs ;;
  split_loop block axis l [].

Definition split_block (block axis grouped_idxs : pyvalue)
    : result (list TensorBlock) :=
  match block with
  | BlockObj b =>
      _check_args block axis grouped_idxs ;;;
      _split_block b axis grouped_idxs
  | _ =>
      Raises (Builtin (TypeError
        "``block`` should be an equistore ``TensorBlock``"))
  end.

(** The dictionary [all_new_blocks] of [split]: its keys are
    [range(len(grouped_idxs))], so it is kept as the list of its values. *)
Fixpoint append_blocks (group_i : nat) (new_blocks : list TensorBlock)
    (all_new_blocks : list (list TensorBlock))
    : result (list (list TensorBlock)) :=
  match new_blocks with
  | [] => Return all_new_blocks
  | new_block :: rest =>
      match all_new_blocks !! group_i with
      | Some blocks =>
          append_blocks (S group_i) rest
            (<[group_i := blocks ++ [new_block]]> all_new_blocks)
      | None => Raises (KeyError group_i)
      end
  end.

Fixpoint split_keys (tensor : TensorMap) (axis grouped_idxs : pyvalue)
    (ks : list LabelsEntry) (all_new_blocks : list (list TensorBlock))
    : result (list (list TensorBlock)) :=
  match ks with
  | [] => Return all_new_blocks
  | key :: rest =>
      b <- native (getitem tensor key) ;;
      new_blocks <- _split_block b axis grouped_idxs ;;
      all_new_blocks' <- append_blocks 0 new_blocks all_new_blocks ;;
      split_keys tensor axis grouped_idxs rest all_new_blocks'
  end.

Fixpoint build_tensors (ks : Labels) (range : list nat)
    (all_new_blocks : list (list TensorBlock)) : result (list TensorMap) :=
  match range with
  | [] => Return []
  | group_i :: rest =>
      match all_new_blocks !! group_i with
      | Some blocks =>
          t <- native (TensorMap_init ks blocks) ;;
          ts <- build_tensors ks rest all_new_blocks ;;
          Return (t :: ts)
      | None => Raises (KeyError group_i)
      end
  end.

Definition split (tensor axis grouped_idxs : pyvalue) : result (list TensorMap) :=
  match tensor with
  | TensorObj t =>
      _check_args tensor axis grouped_idxs ;;;
      n <- py_len grouped_idxs ;;
      all_new_blocks <-
        split_keys t axis grouped_idxs (entries (keys t)) (replicate n []) ;;
      n' <- py_len grouped_idxs ;;
      build_tensors (keys t) (seq 0 n') all_new_blocks
  | _ =>
      Raises (Builtin (TypeError
        "``tensor`` should be an equistore ``TensorMap``"))
  end.

(** ** Notions used in the statements about [split.py] *)

(** The block [_check_args] looks at: [tensor.block(0)] of a tensor map, or
    the block itself. *)
Definition first_block (tensor : pyvalue) : option TensorBlock :=
  match tensor with
  | TensorObj t =>
      match block t 0 with
      | inr b => Some b
      | inl _ => None
      end
  | BlockObj b => Some b
  | _ => None
  end.

(** The labels of a block along an axis, and the slice of a block along an
    axis by a group of indices. *)
Definition axis_labels (axis : string) (b : TensorBlock) : Labels :=
  if String.eqb axis "samples" then samples b else properties b.

Definition slice_along (axis : string) (b : TensorBlock) (g : Labels)
    : Error + TensorBlock :=
  if String.eqb axis "samples"
  then _slice_block b (Some (LabelsObj g)) None
  else _slice_block b None (Some (LabelsObj g)).

(** Arguments that [_check_args] lets through: an axis among the two, and
    groups of indices that all have the names of the first, each of which
    names a dimension of the block along that axis. *)
Definition well_formed (tensor : pyvalue) (axis : string)
    (groups : list Labels) : Prop :=
  (axis = "samples" ∨ axis = "properties") ∧
  match groups with
  | [] => True
  | first :: rest =>
      Forall (fun g => names g = names first) rest ∧
      ∃ b, first_block tensor = Some b ∧
        names first ⊆ names (axis_labels axis b)
  end.

(** The new block for key [key] and group [g]. *)
Definition sliced (t : TensorMap) (axis : string) (g : Labels)
    (key : LabelsEntry) (new_block : TensorBlock) : Prop :=
  ∃ b, getitem t key = inr b ∧ slice_along axis b g = inr new_block.

End Functions.

Arguments Return {_ A} a.
Arguments Raises {_ A} e.

End Split.

(** A package to run the functions of [split.py] on. Labels are reduced to
    their names and a block to the labels of its samples and properties, so
    that a slice of a block is the block; a tensor map is the list of its
    blocks, with their positions for keys. *)
Definition example_package : Split.Package := {|
  Split.Labels := list string;
  Split.TensorBlock := list string * list string;
  Split.TensorMap := list (list string * list string);
  Split.LabelsEntry := nat;
  Split.Error := string;
  Split.names := fun l => l;
  Split.entries := fun l => seq 0 (length l);
  Split.samples := fst;
  Split.properties := snd;
  Split.keys := fun t => replicate (length t) "key";
  Split.block := fun t i =>
    match t !! i with
    | Some b => inr b
    | None => inl "no such block"
    end;
  Split.getitem := fun t i =>
    match t !! i with
    | Some b => inr b
    | None => inl "no such block"
    end;
  Split.TensorMap_init := fun ks bs => inr bs;
  Split._slice_block := fun b s p =>
    match s, p with
    | Some (Split.LabelsObj g), None | None, Some (Split.LabelsObj g) => inr b
    | _, _ => inl "not a set of labels"
    end;
|}.

(** Two blocks with samples named "structure" and "center"; the second has
    one more name among its properties. *)
Definition example_tensor : list (list string * list string) :=
  [(["structure"; "center"], ["n"]); (["structure"; "center"], ["n"; "l"])].

Section Bridge.

(** The element values are never computed with, only moved: they stay
    abstract. [zero] is what [np.zeros] and [torch.zeros] fill with, [cast]
    is numpy's conversion when an assignment crosses element types. *)
Variable elt : Type.
Variable zero : elt.
Variable cast : dtype → dtype → elt → elt.

(** Whether [import torch] succeeded when the module was loaded. *)
Variable HAS_TORCH : bool.

(** ** The Python heap *)

Record state := mk_state {
  buffers : list (Z → elt);
  objects : list (option ArrayWrapper);
  LAST_EXCEPTION : option exception;
  _NUMPY_STORAGE_ORIGIN : option nat;
  _TORCH_STORAGE_ORIGIN : option nat;
  REGISTERED_DATA_ORIGIN : list string;
}.

Definition with_buffers (b : list (Z → elt)) (s : state) : state :=
  mk_state b (objects s) (LAST_EXCEPTION s) (_NUMPY_STORAGE_ORIGIN s)
    (_TORCH_STORAGE_ORIGIN s) (REGISTERED_DATA_ORIGIN s).

Definition with_objects (o : list (option ArrayWrapper)) (s : state) : state :=
  mk_state (buffers s) o (LAST_EXCEPTION s) (_NUMPY_STORAGE_ORIGIN s)
    (_TORCH_STORAGE_ORIGIN s) (REGISTERED_DATA_ORIGIN s).

(** A computation either returns, raises a Python exception, or leaves the
    language (a dangling pointer was dereferenced). *)
Inductive outcome (A : Type) :=
| Ok (s : state) (a : A)
| Raise (s : state) (e : exception)
| Fault.
Arguments Ok {A} s a.
Arguments Raise {A} s e.
Arguments Fault {A}.

Definition M (A : Type) : Type := state → outcome A.

Definition ret {A} (a : A) : M A := fun s => Ok s a.

Definition bind {A B} (m : M A) (k : A → M B) : M B :=
  fun s =>
    match m s with
    | Ok s' a => k a s'
    | Raise s' e => Raise s' e
    | Fault => Fault
    end.

Definition raise {A} (e : exception) : M A := fun s => Raise s e.

Notation "x <- m ;; k" := (bind m (fun x => k))
  (at level 100, m at next level, right associativity).
Notation "m ;;; k" := (bind m (fun _ => k))
  (at level 100, right associativity).

(** Element of array [a] at multi-index [idx]. *)
Definition read (s : state) (a : ndarray) (idx : list nat) : elt :=
  default (fun _ => zero) (buffers s !! buf a) (address a idx).

Definition write (f : Z → elt) (addr : Z) (v : elt) : Z → elt :=
  fun k => if (k =? addr)%Z then v else f k.

Definition new_buffer (f : Z → elt) : M nat :=
  fun s => Ok (with_buffers (buffers s ++ [f]) s) (length (buffers s)).

(** The elements of [a] laid out in row-major order. *)
Definition packed (s : state) (a : ndarray) : Z → elt :=
  fun k => read s a (unravel (shape a) (Z.to_nat k)).

(** ** numpy and torch operations used by the bridge *)

(** [np.zeros(shape, dtype=dtype)] *)
Definition np_zeros (sh : list nat) (dt : dtype) : M ndarray :=
  b <- new_buffer (fun _ => zero) ;;
  ret (mk_ndarray Numpy b 0 (c_dims sh) dt "cpu" false).

(** [torch.zeros(shape, dtype=dtype, device=device)] *)
Definition torch_zeros (sh : list nat) (dt : dtype) (dev : string) : M ndarray :=
  b <- new_buffer (fun _ => zero) ;;
  ret (mk_ndarray Torch b 0 (c_dims sh) dt dev false).

(** [array.copy()] of numpy: a new packed row-major array. *)
Definition ndarray_copy (a : ndarray) : M ndarray :=
  fun s =>
    (b <- new_buffer (packed s a) ;;
     ret (mk_ndarray Numpy b 0 (c_dims (shape a)) (dtype_of a) "cpu" false)) s.

(** [tensor.clone()] of torch: the strides are kept when the tensor is
    non-overlapping and dense, otherwise the clone is packed row-major. *)
Definition tensor_clone (a : ndarray) : M ndarray :=
  fun s =>
    (if non_overlapping_and_dense a then
       b <- new_buffer
              (fun k => default (fun _ => zero) (buffers s !! buf a)
                          (offset a + k)%Z) ;;
       ret (mk_ndarray Torch b 0 (dims a) (dtype_of a) (device a)
              (requires_grad a))
     else
       b <- new_buffer (packed s a) ;;
       ret (mk_ndarray Torch b 0 (c_dims (shape a)) (dtype_of a) (device a)
              (requires_grad a))) s.

(** [array.reshape(shape)]: fails unless the element count is kept; gives a
    view when the layout allows it, and otherwise a view of a packed copy. *)
Definition reshape_error (k : backend) : exception :=
  match k with
  | Numpy => ValueError "cannot reshape array into the requested shape"
  | Torch => RuntimeError "shape is invalid for input size"
  end.

Definition reshape (a : ndarray) (newshape : list nat) : M ndarray :=
  if negb (size newshape =? size (shape a)) then
    raise (reshape_error (kind a))
  else if bool_decide (newshape = shape a) then ret a
  else if c_contiguous a then ret (with_dims (c_dims newshape) a)
  else match attempt_nocopy_reshape a newshape with
       | Some ds => ret (with_dims ds a)
       | None =>
           fun s =>
             (b <- new_buffer (packed s a) ;;
              ret (mk_ndarray (kind a) b 0 (c_dims newshape) (dtype_of a)
                     (device a) (requires_grad a))) s
       end.

(** [array.swapaxes(axis_1, axis_2)]: a view with the two dimensions
    exchanged. A tensor without dimensions accepts axis 0. *)
Definition swapaxes (a : ndarray) (axis_1 axis_2 : nat) : M ndarray :=
  match kind a with
  | Numpy =>
      if (axis_1 <? ndim a) && (axis_2 <? ndim a)
      then ret (with_dims (swap_entries axis_1 axis_2 (dims a)) a)
      else raise (AxisError "axis is out of bounds for array")
  | Torch =>
      if (axis_1 <? max 1 (ndim a)) && (axis_2 <? max 1 (ndim a))
      then ret (with_dims (swap_entries axis_1 axis_2 (dims a)) a)
      else raise (IndexError "Dimension out of range")
  end.

(** [tensor.numpy()]: an ndarray sharing the tensor's storage. *)
Definition tensor_numpy (a : ndarray) : M ndarray :=
  if negb (String.eqb (device a) "cpu") then
    raise (TypeError "can't convert non-cpu tensor to numpy")
  else if requires_grad a then
    raise (RuntimeError "Can't call numpy() on Tensor that requires grad")
  else ret (mk_ndarray Numpy (buf a) (offset a) (dims a) (dtype_of a) "cpu" false).

(** *** Indexing with a list of rows

    [a[rows, ..., :]] builds a new array, modelled by value: its shape and
    its elements. It is read before any assignment takes place. *)
Record temporary := mk_temporary {
  t_kind : backend;
  t_dtype : dtype;
  t_device : string;
  t_requires_grad : bool;
  t_shape : list nat;
  t_item : list nat → elt;
}.

Definition getitem_rows (a : ndarray) (rows : list nat) : M temporary :=
  fun s =>
    match shape a with
    | n :: ((_ :: _) as rest) =>
        if forallb (fun i => i <? n) rows then
          Ok s (mk_temporary (kind a) (dtype_of a) (device a) (requires_grad a)
                  (length rows :: rest)
                  (fun idx =>
                     match idx with
                     | j :: t => read s a (nth j rows 0 :: t)
                     | [] => zero
                     end))
        else Raise s (IndexError "index is out of bounds for axis 0")
    | _ => Raise s (IndexError "too many indices for array")
    end.

(** [a[..., start:stop]]: the view selected by a slice of the last axis;
    both ends are clipped to the axis, as Python slices are. *)
Fixpoint slice_last (start stop : nat) (ds : list (nat * Z))
    : Z * list (nat * Z) :=
  match ds with
  | [] => (0%Z, [])
  | [(w, st)] =>
      ((Z.of_nat (min start w) * st)%Z, [(min stop w - min start w, st)])
  | d :: ds' =>
      let '(o, r) := slice_last start stop ds' in (o, d :: r)
  end.

Definition slice_view (start stop : nat) (a : ndarray) : ndarray :=
  let '(o, ds) := slice_last start stop (dims a) in
  mk_ndarray (kind a) (buf a) (offset a + o) ds (dtype_of a) (device a)
    (requires_grad a).

(** Broadcasting of an assigned value against the shape being assigned to:
    surplus leading dimensions of the value must have length one, and every
    other dimension must agree or have length one. *)
Fixpoint strip_leading_ones (extra : nat) (vsh : list nat) : option (list nat) :=
  match extra, vsh with
  | 0, _ => Some vsh
  | S e, 1 :: vsh' => strip_leading_ones e vsh'
  | _, _ => None
  end.

Definition broadcastable (vsh tsh : list nat) : bool :=
  match strip_leading_ones (length vsh - length tsh) vsh with
  | Some vsh' =>
      forallb (fun p => (p.1 =? p.2) || (p.1 =? 1))
        (zip vsh' (drop (length tsh - length vsh') tsh))
  | None => false
  end.

Definition broadcast_index (vsh tsh idx : list nat) : list nat :=
  replicate (length vsh - length tsh) 0 ++
  zip_with (fun v i => if v =? 1 then 0 else i)
    (drop (length vsh - length tsh) vsh)
    (drop (length tsh - length vsh) idx).

(** Whether a value may be stored into [out] at all. numpy converts between
    element types and accepts a CPU tensor outside the autograd graph; torch
    accepts only tensors of its own element type and device, and refuses to
    write in place into a tensor that requires gradients. *)
Definition assignment_error (out : ndarray) (v : temporary) : option exception :=
  match kind out, t_kind v with
  | Numpy, Numpy => None
  | Numpy, Torch =>
      if negb (String.eqb (t_device v) "cpu") then
        Some (TypeError "can't convert non-cpu tensor to numpy")
      else if t_requires_grad v then
        Some (RuntimeError "Can't call numpy() on Tensor that requires grad")
      else None
  | Torch, Numpy => Some (TypeError "can't assign a numpy.ndarray to a tensor")
  | Torch, Torch =>
      if negb (bool_decide (t_dtype v = dtype_of out)) then
        Some (RuntimeError "Index put requires the source and destination dtypes match")
      else if negb (String.eqb (t_device v) (device out)) then
        Some (RuntimeError "Expected all tensors to be on the same device")
      else if requires_grad out then
        Some (RuntimeError "a leaf Variable that requires grad is being used in an in-place operation")
      else None
  end.

Definition convert (from to : dtype) (x : elt) : elt :=
  if bool_decide (from = to) then x else cast from to x.

(** The element stores of [out[rows, ..., start:stop] = v], row after row.
    (When a row is named twice the libraries do not say which store comes
    last; nothing below depends on it.) *)
Definition assignments (sub : ndarray) (rows : list nat) (v : temporary)
    : list (Z * elt) :=
  let tsh := length rows :: tail (shape sub) in
  jr ← imap pair rows;
  t ← all_indices (tail (shape sub));
  [(address sub (jr.2 :: t),
    convert (t_dtype v) (dtype_of sub)
      (t_item v (broadcast_index (t_shape v) tsh (jr.1 :: t))))].

Definition store_all (l : list (Z * elt)) (f : Z → elt) : Z → elt :=
  foldl (fun f p => write f p.1 p.2) f l.

(** [out[rows, ..., start:stop] = v]. Nothing is written unless every check
    passes. Returns the state of the array object [out] afterwards (a tensor
    assigned a value that requires gradients requires them too). *)
Definition setitem_rows (out : ndarray) (rows : list nat) (start stop : nat)
    (v : temporary) : M ndarray :=
  fun s =>
    match shape out with
    | n :: _ :: _ =>
        let sub := slice_view start stop out in
        if negb (forallb (fun i => i <? n) rows) then
          Raise s (IndexError "index is out of bounds for axis 0")
        else match assignment_error out v with
             | Some e => Raise s e
             | None =>
                 if broadcastable (t_shape v) (length rows :: tail (shape sub))
                 then
                   Ok (with_buffers
                         (alter (store_all (assignments sub rows v)) (buf out)
                            (buffers s)) s)
                      (with_requires_grad
                         (requires_grad out || t_requires_grad v) out)
                 else Raise s (match kind out with
                               | Numpy => ValueError "shape mismatch: value array could not be broadcast to indexing result"
                               | Torch => RuntimeError "shape mismatch: value tensor cannot be broadcast to indexing result"
                               end)
             end
    | _ => Raise s (IndexError "too many indices for array")
    end.

(** ** [array.py] *)

(** Modelled from the spec: the native core's [eqs_register_data_origin]
    (reached through [_c_lib], which is not among the sources). "Origin
    registration call: register_origin(name) -> OriginTag, process-wide side
    effect"; registration is deduplicated "via a local cache per call site,
    not via the registry itself": every call enters the name and returns the
    next tag. *)
Definition eqs_register_data_origin (name : string) : M nat :=
  fun s =>
    Ok (mk_state (buffers s) (objects s) (LAST_EXCEPTION s)
          (_NUMPY_STORAGE_ORIGIN s) (_TORCH_STORAGE_ORIGIN s)
          (REGISTERED_DATA_ORIGIN s ++ [name]))
       (length (REGISTERED_DATA_ORIGIN s)).

Definition __name__ : string := "equistore.data.array".

Definition _register_origin (name : string) : M nat :=
  eqs_register_data_origin name.

Definition _is_numpy_array (a : ndarray) : bool :=
  bool_decide (kind a = Numpy).

Definition _is_torch_array (a : ndarray) : bool :=
  if negb HAS_TORCH then false else bool_decide (kind a = Torch).

Definition _origin_numpy : M nat :=
  fun s =>
    match _NUMPY_STORAGE_ORIGIN s with
    | None =>
        (o <- _register_origin (__name__ +:+ ".numpy") ;;
         fun s' =>
           Ok (mk_state (buffers s') (objects s') (LAST_EXCEPTION s') (Some o)
                 (_TORCH_STORAGE_ORIGIN s') (REGISTERED_DATA_ORIGIN s')) o) s
    | Some o => Ok s o
    end.

Definition _origin_pytorch : M nat :=
  fun s =>
    match _TORCH_STORAGE_ORIGIN s with
    | None =>
        (o <- _register_origin (__name__ +:+ ".torch") ;;
         fun s' =>
           Ok (mk_state (buffers s') (objects s') (LAST_EXCEPTION s')
                 (_NUMPY_STORAGE_ORIGIN s') (Some o)
                 (REGISTERED_DATA_ORIGIN s')) o) s
    | Some o => Ok s o
    end.

(** Allocation of a Python object; the reference returned to the caller is
    the first one. *)
Definition new_object (w : ArrayWrapper) : M nat :=
  fun s => Ok (with_objects (objects s ++ [Some w]) s) (length (objects s)).

Definition set_object (p : nat) (w : ArrayWrapper) : M unit :=
  fun s => Ok (with_objects (<[p := Some w]> (objects s)) s) tt.

(** [_object_from_ptr]: dereferences the pointer; outside the language when
    no wrapper lives there. *)
Definition _object_from_ptr (ptr : nat) : M ArrayWrapper :=
  fun s =>
    match objects s !! ptr with
    | Some (Some w) => Ok s w
    | _ => Fault
    end.

(** [ctypes.pythonapi.Py_IncRef] and [Py_DecRef] on a wrapper. *)
Definition Py_IncRef (p : nat) : M unit :=
  w <- _object_from_ptr p ;;
  set_object p (with_refcnt (S (ob_refcnt w)) w).

Definition Py_DecRef (p : nat) : M unit :=
  w <- _object_from_ptr p ;;
  match ob_refcnt w with
  | 0 => fun _ => Fault
  | S n => set_object p (with_refcnt n w)
  end.

(** The cyclic collector ([gc.collect()]): frees the wrappers no outside
    reference keeps alive. *)
Definition collectible (s : state) (p : nat) : Prop :=
  ∃ w, objects s !! p = Some (Some w) ∧ ob_refcnt w = 0.

Definition reachable (s : state) (p : nat) : Prop :=
  ∃ w, objects s !! p = Some (Some w) ∧ 0 < ob_refcnt w.

Definition gc_collect (s : state) : state :=
  with_objects
    ((fun o => match o with
               | Some w => if ob_refcnt w =? 0 then None else Some w
               | None => None
               end) <$> objects s) s.

(** [array.shape], read from an arbitrary object. *)
Definition getattr_shape (o : pyobject) : M (list nat) :=
  match o with
  | PyArray a => ret (shape a)
  | PyOther ty (Some sh) => ret sh
  | PyOther ty None =>
      raise (AttributeError ("'" +:+ ty +:+ "' object has no attribute 'shape'"))
  end.

(** [ArrayWrapper.__init__]: returns the address of the new wrapper. *)
Definition ArrayWrapper__init__ (obj : pyobject) : M nat :=
  sh <- getattr_shape obj ;;
  match obj with
  | PyArray a =>
      origin <- (if _is_numpy_array a then _origin_numpy
                 else if _is_torch_array a then _origin_pytorch
                 else raise (ValueError "unknown array type: <class 'torch.Tensor'>")) ;;
      new_object (mk_wrapper a sh origin 1)
  | PyOther ty _ =>
      raise (ValueError ("unknown array type: <class '" +:+ ty +:+ "'>"))
  end.

(** [ArrayWrapper.into_eqs_array] *)
Definition into_eqs_array (self : nat) : M eqs_array_t :=
  Py_IncRef self ;;;
  w <- _object_from_ptr self ;;
  ret (_eqs_array self w).

(** A Python name bound to a wrapper goes out of scope. *)
Definition del (p : nat) : M unit := Py_DecRef p.

(** [n] calls of the same function in a row, with their results. *)
Fixpoint calls {A} (n : nat) (m : M A) : M (list A) :=
  match n with
  | 0 => ret []
  | S n' => a <- m ;; l <- calls n' m ;; ret (a :: l)
  end.

(** *** The callbacks, before decoration *)

Definition body_eqs_array_origin (array_origin : nat) (this : nat) : M nat :=
  ret array_origin.

Definition body_eqs_array_data (this : nat) : M (nat * Z) :=
  storage <- _object_from_ptr this ;;
  a <- (if _is_numpy_array (array storage) then ret (array storage)
        else if _is_torch_array (array storage) then
          if negb (String.eqb (device (array storage)) "cpu") then
            raise (ValueError "can only get data pointer for tensors on CPU")
          else tensor_numpy (array storage)
        else raise (UnboundLocalError "local variable 'array' referenced before assignment")) ;;
  if negb (c_contiguous a) then
    raise (ValueError "can not get data pointer for non contiguous array")
  else if negb (bool_decide (dtype_of a = float64)) then
    raise (ValueError ("can not get data pointer for array type " +:+
                       dtype_name (dtype_of a)))
  else ret (buf a, offset a).

Definition body_eqs_array_shape (this : nat) : M (list nat * nat) :=
  wrapper <- _object_from_ptr this ;;
  ret (_shape wrapper, length (_shape wrapper)).

Definition body_eqs_array_reshape (this : nat) (shape_ptr : list nat) : M unit :=
  wrapper <- _object_from_ptr this ;;
  a <- reshape (array wrapper) shape_ptr ;;
  set_object this (with_shape shape_ptr (with_array a wrapper)).

Definition body_eqs_array_swap_axes (this axis_1 axis_2 : nat) : M unit :=
  wrapper <- _object_from_ptr this ;;
  a <- swapaxes (array wrapper) axis_1 axis_2 ;;
  set_object this (with_shape (shape a) (with_array a wrapper)).

Definition body_eqs_array_create (this : nat) (shape_ptr : list nat)
    : M eqs_array_t :=
  wrapper <- _object_from_ptr this ;;
  a <- (if _is_numpy_array (array wrapper) then
          np_zeros shape_ptr (dtype_of (array wrapper))
        else if _is_torch_array (array wrapper) then
          torch_zeros shape_ptr (dtype_of (array wrapper))
            (device (array wrapper))
        else raise (UnboundLocalError "local variable 'array' referenced before assignment")) ;;
  new_wrapper <- ArrayWrapper__init__ (PyArray a) ;;
  new_array <- into_eqs_array new_wrapper ;;
  del new_wrapper ;;;
  ret new_array.

Definition body_eqs_array_copy (this : nat) : M eqs_array_t :=
  wrapper <- _object_from_ptr this ;;
  a <- (if _is_numpy_array (array wrapper) then ndarray_copy (array wrapper)
        else if _is_torch_array (array wrapper) then
          tensor_clone (array wrapper)
        else raise (UnboundLocalError "local variable 'array' referenced before assignment")) ;;
  new_wrapper <- ArrayWrapper__init__ (PyArray a) ;;
  new_array <- into_eqs_array new_wrapper ;;
  del new_wrapper ;;;
  ret new_array.

Definition body_eqs_array_destroy (this : nat) : M unit :=
  _object_from_ptr this ;;;
  Py_DecRef this.

Definition body_eqs_array_move_samples_from (this input_ptr : nat)
    (samples_ptr : list eqs_sample_mapping_t)
    (property_start property_end : nat) : M unit :=
  wrapper <- _object_from_ptr this ;;
  other <- _object_from_ptr input_ptr ;;
  let input_samples := input <$> samples_ptr in
  let output_samples := output <$> samples_ptr in
  value <- getitem_rows (array other) input_samples ;;
  a <- setitem_rows (array wrapper) output_samples property_start property_end
         value ;;
  set_object this (with_array a wrapper).

(** *** The callback boundary *)

(** Modelled from the spec: [EQS_SUCCESS] of [_c_api], which is not among
    the sources. "Status codes: SUCCESS = 0; nonzero codes for ... internal
    exception caught at the boundary." The code reported for an exception
    is left open, except that it is not zero. *)
Definition EQS_SUCCESS : Z := 0.

Variable error_status : exception → Z.
Hypothesis error_status_nonzero : ∀ e, error_status e ≠ EQS_SUCCESS.

Definition _save_exception (e : exception) (s : state) : state :=
  mk_state (buffers s) (objects s) (Some e) (_NUMPY_STORAGE_ORIGIN s)
    (_TORCH_STORAGE_ORIGIN s) (REGISTERED_DATA_ORIGIN s).

(** Modelled from the spec: the decorator [utils.catch_exceptions], which is
    not among the sources. "Any failure arising while executing a callback
    must be caught at the callback boundary and translated into a status
    code plus retrievable message; it must never propagate through the
    foreign-call frame." The decorated function returns the status; what the
    callback stored through its output pointers is returned beside it. *)
Definition catch_exceptions {A} (function : M A) : M (Z * option A) :=
  fun s =>
    match function s with
    | Ok s' a => Ok s' (EQS_SUCCESS, Some a)
    | Raise s' e => Ok (_save_exception e s') (error_status e, None)
    | Fault => Fault
    end.

Definition eqs_array_origin (array_origin this : nat) :=
  catch_exceptions (body_eqs_array_origin array_origin this).

Definition _eqs_array_data (this : nat) :=
  catch_exceptions (body_eqs_array_data this).

Definition _eqs_array_shape (this : nat) :=
  catch_exceptions (body_eqs_array_shape this).

Definition _eqs_array_reshape (this : nat) (shape_ptr : list nat) :=
  catch_exceptions (body_eqs_array_reshape this shape_ptr).

Definition _eqs_array_swap_axes (this axis_1 axis_2 : nat) :=
  catch_exceptions (body_eqs_array_swap_axes this axis_1 axis_2).

Definition _eqs_array_create (this : nat) (shape_ptr : list nat) :=
  catch_exceptions (body_eqs_array_create this shape_ptr).

Definition _eqs_array_copy (this : nat) :=
  catch_exceptions (body_eqs_array_copy this).

Definition _eqs_array_destroy (this : nat) :=
  catch_exceptions (body_eqs_array_destroy this).

Definition _eqs_array_move_samples_from (this input_ptr : nat)
    (samples_ptr : list eqs_sample_mapping_t)
    (property_start property_end : nat) :=
  catch_exceptions
    (body_eqs_array_move_samples_from this input_ptr samples_ptr
       property_start property_end).

(** A call of one entry of the table by the native core, with its
    arguments, and what it stores through its output pointers. *)
Inductive invocation :=
| call_origin (array_origin this : nat)
| call_data (this : nat)
| call_shape (this : nat)
| call_reshape (this : nat) (shape_ptr : list nat)
| call_swap_axes (this axis_1 axis_2 : nat)
| call_create (this : nat) (shape_ptr : list nat)
| call_copy (this : nat)
| call_destroy (this : nat)
| call_move_samples_from (this input_ptr : nat)
    (samples_ptr : list eqs_sample_mapping_t)
    (property_start property_end : nat).

Inductive reply :=
| reply_origin (o : nat)
| reply_data (p : nat * Z)
| reply_shape (sh : list nat * nat)
| reply_array (a : eqs_array_t)
| reply_none.

Definition stores {A} (f : A → reply) (m : M (Z * option A))
    : M (Z * option reply) :=
  r <- m ;; ret (r.1, f <$> r.2).

Definition invoke (c : invocation) : M (Z * option reply) :=
  match c with
  | call_origin o this => stores reply_origin (eqs_array_origin o this)
  | call_data this => stores reply_data (_eqs_array_data this)
  | call_shape this => stores reply_shape (_eqs_array_shape this)
  | call_reshape this sh =>
      stores (fun _ => reply_none) (_eqs_array_reshape this sh)
  | call_swap_axes this a1 a2 =>
      stores (fun _ => reply_none) (_eqs_array_swap_axes this a1 a2)
  | call_create this sh => stores reply_array (_eqs_array_create this sh)
  | call_copy this => stores reply_array (_eqs_array_copy this)
  | call_destroy this => stores (fun _ => reply_none) (_eqs_array_destroy this)
  | call_move_samples_from this inp samples start stop =>
      stores (fun _ => reply_none)
        (_eqs_array_move_samples_from this inp samples start stop)
  end.

(** The function a call runs inside the decorator. *)
Definition undecorated (c : invocation) : M reply :=
  match c with
  | call_origin o this => r <- body_eqs_array_origin o this ;; ret (reply_origin r)
  | call_data this => r <- body_eqs_array_data this ;; ret (reply_data r)
  | call_shape this => r <- body_eqs_array_shape this ;; ret (reply_shape r)
  | call_reshape this sh => body_eqs_array_reshape this sh ;;; ret reply_none
  | call_swap_axes this a1 a2 =>
      body_eqs_array_swap_axes this a1 a2 ;;; ret reply_none
  | call_create this sh => r <- body_eqs_array_create this sh ;; ret (reply_array r)
  | call_copy this => r <- body_eqs_array_copy this ;; ret (reply_array r)
  | call_destroy this => body_eqs_array_destroy this ;;; ret reply_none
  | call_move_samples_from this inp samples start stop =>
      body_eqs_array_move_samples_from this inp samples start stop ;;;
      ret reply_none
  end.

(** Handles a call dereferences, and what makes them usable. *)
Definition live (s : state) (p : nat) : Prop :=
  ∃ w, objects s !! p = Some (Some w).

Definition handles_live (s : state) (c : invocation) : Prop :=
  match c with
  | call_origin _ _ => True
  | call_destroy this => reachable s this
  | call_move_samples_from this inp _ _ _ => live s this ∧ live s inp
  | call_data this | call_shape this | call_reshape this _
  | call_swap_axes this _ _ | call_create this _ | call_copy this =>
      live s this
  end.

(** No two valid multi-indices of [a] name the same element. *)
Definition no_overlap (a : ndarray) : bool :=
  bool_decide (NoDup (address a <$> all_indices (shape a))).

(** ** Predicates used in the statements *)

(** Two arrays of the same class, element type and device, outside any
    autograd graph: what one may be assigned from the other without
    conversion. *)
Definition compatible (d a : ndarray) : Prop :=
  kind a = kind d ∧ dtype_of a = dtype_of d ∧ device a = device d ∧
  requires_grad d = false ∧ requires_grad a = false.

(** [dest] has shape [nd :: mid ++ [W]] and [src] has shape
    [ns :: mid ++ [w]]: they agree on every dimension but the first
    (samples) and the last (properties); the range [start, stop) lies
    within the properties of [dest] and is as wide as [src]; every pair of
    the mapping names a row of [src] and a row of [dest]. *)
Record move_samples_pre (d a : ndarray) (samples : list eqs_sample_mapping_t)
    (start stop nd ns : nat) (mid : list nat) (W w : nat) : Prop := {
  pre_dest_shape : shape d = nd :: mid ++ [W];
  pre_src_shape : shape a = ns :: mid ++ [w];
  pre_width : stop - start = w;
  pre_range : stop ≤ W;
  pre_rows : ∀ m, m ∈ samples → input m < ns ∧ output m < nd;
  pre_compatible : compatible d a;
}.

(** The array classes [__init__] recognises. *)
Definition known_kind (a : ndarray) : bool :=
  _is_numpy_array a || _is_torch_array a.

(** Two states that differ at most in the origin registry and its caches. *)
Definition same_heap (s s' : state) : Prop :=
  buffers s' = buffers s ∧ objects s' = objects s ∧
  LAST_EXCEPTION s' = LAST_EXCEPTION s.

(** What a failing callback returns: the state with the exception saved,
    and the status of the exception. *)
Definition reports {A} (e : exception) (s : state) : outcome (Z * option A) :=
  Ok (_save_exception e s) (error_status e, None).

(** The handle a call is made on. *)
Definition target (c : invocation) : nat :=
  match c with
  | call_origin _ this | call_data this | call_shape this
  | call_reshape this _ | call_swap_axes this _ _ | call_create this _
  | call_copy this | call_destroy this
  | call_move_samples_from this _ _ _ _ => this
  end.

(** Arguments a call accepts, whatever the element type: a shape with the
    same number of elements for [reshape], two existing axes for
    [swap_axes], an outstanding reference for [destroy], and for
    [move_samples_from] a source and a mapping that satisfy its
    precondition. *)
Definition valid_arguments (s : state) (w : ArrayWrapper) (c : invocation)
    : Prop :=
  match c with
  | call_origin _ _ | call_data _ | call_shape _ | call_create _ _
  | call_copy _ => True
  | call_reshape _ shape_ptr => size shape_ptr = size (shape (array w))
  | call_swap_axes _ axis_1 axis_2 =>
      axis_1 < ndim (array w) ∧ axis_2 < ndim (array w)
  | call_destroy _ => 0 < ob_refcnt w
  | call_move_samples_from _ input_ptr samples start stop =>
      ∃ ws nd ns mid W w',
        objects s !! input_ptr = Some (Some ws) ∧
        move_samples_pre (array w) (array ws) samples start stop nd ns mid W w'
  end.

(** A sequence of calls by the native core; [None] when one of them leaves
    the language. *)
Fixpoint run (cs : list invocation) (s : state) : option state :=
  match cs with
  | [] => Some s
  | c :: cs' =>
      match invoke c s with
      | Ok s' _ => run cs' s'
      | _ => None
      end
  end.

(** The footprint of a call on handle [t]: no buffer changes but the one of
    the array of [t]; no wrapper changes but [t]; and the array of a
    wrapper that is new or changed lives in the buffer of [t] or in a new
    buffer. *)
Definition footprint (t : nat) (s s' : state) : Prop :=
  (∀ b f, buffers s !! b = Some f →
     (∀ w, objects s !! t = Some (Some w) → buf (array w) ≠ b) →
     buffers s' !! b = Some f) ∧
  (∀ p, p ≠ t → p < length (objects s) → objects s' !! p = objects s !! p) ∧
  (∀ p w', objects s' !! p = Some (Some w') →
     objects s !! p = Some (Some w') ∨
     (∃ w, objects s !! t = Some (Some w) ∧ buf (array w') = buf (array w)) ∨
     length (buffers s) ≤ buf (array w')).

(** Every wrapper's array lives in an allocated buffer. *)
Definition heap_ok (s : state) : Prop :=
  ∀ p w, objects s !! p = Some (Some w) → buf (array w) < length (buffers s).

(** The wrapper at [q] and the contents [f] of its buffer are out of reach
    of the calls on the handles in [T]: none of them is [q], and none of
    their arrays lives in the buffer of [q]. *)
Definition protected (T : nat → Prop) (q : nat) (wq : ArrayWrapper)
    (f : Z → elt) (s : state) : Prop :=
  ¬ T q ∧
  objects s !! q = Some (Some wq) ∧
  buffers s !! buf (array wq) = Some f ∧
  ∀ p wp, T p → objects s !! p = Some (Some wp) →
    buf (array wp) ≠ buf (array wq).

(** The module's cache of the origin of an array class. *)
Definition cached_origin (s : state) (k : backend) : option nat :=
  match k with
  | Numpy => _NUMPY_STORAGE_ORIGIN s
  | Torch => _TORCH_STORAGE_ORIGIN s
  end.

(** Every wrapper caches the shape its array has. *)
Definition shapes_cached (s : state) : Prop :=
  ∀ p w, objects s !! p = Some (Some w) → _shape w = shape (array w).

(** Every wrapper holds an array of a known class and carries the origin
    that the module has cached for that class. *)
Definition origins_cached (s : state) : Prop :=
  ∀ p w, objects s !! p = Some (Some w) →
    known_kind (array w) = true ∧
    cached_origin s (kind (array w)) = Some (array_origin w).

(** The calls that only ask: [origin], [shape] and [data]. *)
Definition is_query (c : invocation) : bool :=
  match c with
  | call_origin _ _ | call_shape _ | call_data _ => true
  | _ => false
  end.

(** A [move_samples_from] whose destination is a tensor. *)
Definition moves_into_tensor (s : state) (c : invocation) : bool :=
  match c with
  | call_move_samples_from this _ _ _ _ =>
      match objects s !! this with
      | Some (Some w) => bool_decide (kind (array w) = Torch)
      | _ => false
      end
  | _ => false
  end.

(** The number of [destroy] calls on handle [p] in a sequence of calls. *)
Fixpoint destroys (p : nat) (cs : list invocation) : nat :=
  match cs with
  | [] => 0
  | call_destroy this :: cs' =>
      (if this =? p then 1 else 0) + destroys p cs'
  | _ :: cs' => destroys p cs'
  end.

(** The axes [swapaxes] accepts are those below this number. *)
Definition axis_limit (a : ndarray) : nat :=
  match kind a with
  | Numpy => ndim a
  | Torch => max 1 (ndim a)
  end.

(** The error of an assignment whose value does not fit the selection. *)
Definition broadcast_error (k : backend) : exception :=
  match k with
  | Numpy => ValueError "shape mismatch: value array could not be broadcast to indexing result"
  | Torch => RuntimeError "shape mismatch: value tensor cannot be broadcast to indexing result"
  end.

Definition swapaxes_error (k : backend) : exception :=
  match k with
  | Numpy => AxisError "axis is out of bounds for array"
  | Torch => IndexError "Dimension out of range"
  end.

(** How a call on handle [t] may leave the wrappers: the origin caches only
    fill up, and a wrapper found afterwards is one that was there, or a
    wrapper that was there with its array replaced by one of the same class
    (its origin kept, its shape cache kept in step), or a new wrapper made
    from the array of [t]. *)
Definition wrappers_step (t : nat) (s s' : state) : Prop :=
  (∀ k o, cached_origin s k = Some o → cached_origin s' k = Some o) ∧
  ∀ p w', objects s' !! p = Some (Some w') →
    objects s !! p = Some (Some w') ∨
    (∃ w, objects s !! p = Some (Some w) ∧
       kind (array w') = kind (array w) ∧
       array_origin w' = array_origin w ∧
       (_shape w = shape (array w) → _shape w' = shape (array w'))) ∨
    (∃ w, objects s !! t = Some (Some w) ∧
       known_kind (array w) = true ∧
       kind (array w') = kind (array w) ∧
       _shape w' = shape (array w') ∧
       cached_origin s' (kind (array w')) = Some (array_origin w')).

(** ** States of the test suite *)

(** [test_move_samples_from]: an array of shape (2, 3, 8) filled with [x]
    and an array of shape (1, 3, 4) filled with [y], each wrapped and handed
    out once. *)
Definition test_arrays (x y : elt) : state :=
  mk_state [fun _ => x; fun _ => y]
    [wrapped (full 0 [2; 3; 8] float64) 1; wrapped (full 1 [1; 3; 4] float64) 1]
    None (Some 0) None ["equistore.data.array.numpy"].

(** [test_swap_axes]: an array of shape (2, 3, 18, 23). *)
Definition test_swap_array : state :=
  mk_state [fun _ => zero] [wrapped (full 0 [2; 3; 18; 23] float64) 1]
    None (Some 0) None ["equistore.data.array.numpy"].

(** [test_create], after [del array] and [del wrapper]: an array of shape
    (2, 3) in a wrapper that no Python name refers to. *)
Definition test_create_array : state :=
  mk_state [fun _ => zero] [wrapped (full 0 [2; 3] float64) 0]
    None (Some 0) None ["equistore.data.array.numpy"].

(** The tensor that tracks gradients and the int32 view, wrapped. *)
Definition other_arrays : state :=
  mk_state [fun _ => zero; fun _ => zero]
    [wrapped tracked_tensor 1; wrapped swapped_int32 1]
    None (Some 0) (Some 1)
    ["equistore.data.array.numpy"; "equistore.data.array.torch"].

(** ** Index arithmetic *)

Lemma shape_c_dims (sh : list nat) : (c_dims sh).*1 = sh.
Proof. induction sh as [|d sh IH]; [done|]. cbn. f_equal. exact IH. Qed.

Lemma in_bounds_length (idx sh : list nat) :
  in_bounds idx sh → length idx = length sh.
Proof. apply Forall2_length. Qed.

Lemma elem_of_all_indices (sh idx : list nat) :
  idx ∈ all_indices sh ↔ in_bounds idx sh.
Proof.
  revert idx. induction sh as [|d sh IH]; intros idx; simpl.
  - rewrite list_elem_of_singleton. split.
    + intros ->. constructor.
    + intros H. by inversion H.
  - rewrite list_elem_of_bind. split.
    + intros (i & Hin & Hi). apply list_elem_of_fmap in Hin as (t & -> & Ht).
      apply elem_of_seq in Hi. constructor; [lia|by apply IH].
    + intros H. inversion H as [|i ? t ? Hi Ht]; subst.
      exists i. split; [|apply elem_of_seq; lia].
      apply list_elem_of_fmap. exists t. split; [done|by apply IH].
Qed.

Lemma ravel_lt (sh idx : list nat) :
  in_bounds idx sh → ravel sh idx < size sh.
Proof.
  intros H. induction H as [|i d idx sh Hi _ IH]; simpl; [lia|].
  fold (size sh). nia.
Qed.

Lemma unravel_ravel (sh idx : list nat) :
  in_bounds idx sh → unravel sh (ravel sh idx) = idx.
Proof.
  intros H. induction H as [|i d idx sh Hi Hb IH]; simpl; [done|].
  pose proof (ravel_lt _ _ Hb) as Hlt.
  rewrite Nat.div_add_l by lia.
  rewrite (Nat.div_small (ravel sh idx)) by done.
  rewrite Nat.add_0_r.
  rewrite Nat.add_comm, Nat.Div0.mod_add, Nat.mod_small by done.
  by rewrite IH.
Qed.

Lemma dot_c_dims (sh idx : list nat) :
  in_bounds idx sh → dot idx (c_dims sh) = Z.of_nat (ravel sh idx).
Proof.
  intros H. induction H as [|i d idx sh Hi Hb IH]; simpl; [done|].
  rewrite IH. lia.
Qed.

(** A packed row-major layout never maps two indices to one element. *)
Lemma c_dims_injective (sh i j : list nat) :
  in_bounds i sh → in_bounds j sh →
  dot i (c_dims sh) = dot j (c_dims sh) → i = j.
Proof.
  intros Hi Hj Heq.
  rewrite !dot_c_dims in Heq by done.
  apply Nat2Z.inj in Heq.
  rewrite <- (unravel_ravel sh i), <- (unravel_ravel sh j) by done.
  by rewrite Heq.
Qed.

Lemma NoDup_all_indices (sh : list nat) : NoDup (all_indices sh).
Proof.
  induction sh as [|d sh IH]; simpl.
  - apply NoDup_singleton.
  - apply NoDup_bind.
    + intros i1 i2 idx _ _ H1 H2.
      apply list_elem_of_fmap in H1 as (t1 & -> & _).
      apply list_elem_of_fmap in H2 as (t2 & [= -> _] & _). done.
    + intros i _. apply NoDup_fmap_2; [|done]. by intros t1 t2 [= ->].
    + apply NoDup_seq.
Qed.

(** The arrays [np.zeros], [torch.zeros] and [copy] make are packed, and so
    free of overlap. *)
Lemma no_overlap_packed (k : backend) (b : nat) (sh : list nat) (dt : dtype)
    (dev : string) (g : bool) :
  no_overlap (mk_ndarray k b 0 (c_dims sh) dt dev g) = true.
Proof.
  unfold no_overlap. apply bool_decide_eq_true.
  apply NoDup_fmap_2_strong; [|apply NoDup_all_indices].
  unfold shape, address. simpl. rewrite shape_c_dims.
  intros i j Hi Hj Heq. apply elem_of_all_indices in Hi, Hj.
  apply (c_dims_injective sh); [done|done|lia].
Qed.

(** ** Exchanging two entries *)

Lemma swap_entries_length {A} (i j : nat) (l : list A) :
  length (swap_entries i j l) = length l.
Proof.
  unfold swap_entries. destruct (l !! i), (l !! j); try done.
  by rewrite !length_insert.
Qed.

Lemma swap_entries_lookup {A} (i j k : nat) (l : list A) :
  i < length l → j < length l →
  swap_entries i j l !! k =
    if decide (k = i) then l !! j else if decide (k = j) then l !! i else l !! k.
Proof.
  intros Hi Hj. unfold swap_entries.
  destruct (lookup_lt_is_Some_2 l i Hi) as [x Hx].
  destruct (lookup_lt_is_Some_2 l j Hj) as [y Hy].
  rewrite Hx, Hy.
  destruct (decide (k = i)) as [->|Hki].
  - rewrite list_lookup_insert_eq by (rewrite length_insert; lia). done.
  - rewrite list_lookup_insert_ne by done.
    destruct (decide (k = j)) as [->|Hkj].
    + by rewrite list_lookup_insert_eq by lia.
    + by rewrite list_lookup_insert_ne by done.
Qed.

Lemma swap_entries_id {A} (i j : nat) (l : list A) :
  ¬ (i < length l ∧ j < length l) → swap_entries i j l = l.
Proof.
  intros Hn. unfold swap_entries.
  destruct (l !! i) eqn:Hx; [|done].
  destruct (l !! j) eqn:Hy; [|done].
  apply lookup_lt_Some in Hx. apply lookup_lt_Some in Hy. tauto.
Qed.

Lemma swap_entries_involutive {A} (i j : nat) (l : list A) :
  swap_entries i j (swap_entries i j l) = l.
Proof.
  destruct (decide (i < length l ∧ j < length l)) as [[Hi Hj]|Hn].
  - apply list_eq. intros k.
    rewrite swap_entries_lookup by (rewrite swap_entries_length; lia).
    rewrite !swap_entries_lookup by done.
    repeat destruct (decide _); subst; congruence.
  - rewrite (swap_entries_id i j l) by done. by apply swap_entries_id.
Qed.

Lemma swap_entries_fmap {A B} (f : A → B) (i j : nat) (l : list A) :
  f <$> swap_entries i j l = swap_entries i j (f <$> l).
Proof.
  unfold swap_entries. rewrite !list_lookup_fmap.
  destruct (l !! i), (l !! j); simpl; try done.
  by rewrite !list_fmap_insert.
Qed.

Lemma swap_entries_Permutation {A} (i j : nat) (l : list A) :
  swap_entries i j l ≡ₚ l.
Proof.
  destruct (decide (i < length l ∧ j < length l)) as [[Hi Hj]|Hn];
    [|by rewrite swap_entries_id].
  apply Permutation_inj. split; [apply swap_entries_length|].
  exists (fun k => if decide (k = i) then j else if decide (k = j) then i else k).
  split.
  - intros a b. repeat destruct (decide _); subst; congruence.
  - intros k. rewrite swap_entries_lookup by done.
    repeat destruct (decide _); subst; congruence.
Qed.

Lemma size_Permutation (l1 l2 : list nat) : l1 ≡ₚ l2 → size l1 = size l2.
Proof.
  intros H. unfold size. induction H; simpl; try lia.
Qed.

Lemma size_swap_entries (i j : nat) (sh : list nat) :
  size (swap_entries i j sh) = size sh.
Proof. apply size_Permutation, swap_entries_Permutation. Qed.

(** Swapping the same two positions of an index and of the dimensions
    leaves the element it names in place. *)
Lemma dot_Forall2_swap (i j : nat) (idx : list nat) (ds : list (nat * Z)) :
  length idx = length ds →
  dot (swap_entries i j idx) (swap_entries i j ds) = dot idx ds.
Proof.
  intros Hlen.
  destruct (decide (i < length ds ∧ j < length ds)) as [[Hi Hj]|Hn];
    [|rewrite !swap_entries_id by (rewrite ?Hlen; done); done].
  assert (∀ (idx : list nat) (ds : list (nat * Z)),
            length idx = length ds →
            dot idx ds =
            foldr Z.add 0%Z
              (zip_with (fun i d => (Z.of_nat i * d.2)%Z) idx ds)) as Hsum.
  { clear. induction idx as [|a idx IH]; intros [|[d s] ds] Hl; simpl in *;
      try done. rewrite IH by lia. done. }
  rewrite !Hsum by (rewrite ?swap_entries_length; done).
  assert (∀ l1 l2 : list Z,
            l1 ≡ₚ l2 → foldr Z.add 0%Z l1 = foldr Z.add 0%Z l2) as Hperm.
  { clear. intros l1 l2 H. induction H; simpl; lia. }
  apply Hperm.
  - apply Permutation_inj. split.
    + rewrite !length_zip_with, !swap_entries_length. done.
    + exists (fun k => if decide (k = i) then j
                       else if decide (k = j) then i else k).
      split.
      * intros a b. repeat destruct (decide _); subst; congruence.
      * intros k. rewrite !lookup_zip_with.
        rewrite !swap_entries_lookup by (rewrite ?Hlen; done).
        repeat destruct (decide _); subst; congruence.
Qed.

Lemma in_bounds_swap (i j : nat) (idx sh : list nat) :
  in_bounds idx sh → in_bounds (swap_entries i j idx) (swap_entries i j sh).
Proof.
  intros H. pose proof (in_bounds_length _ _ H) as Hlen.
  destruct (decide (i < length sh ∧ j < length sh)) as [[Hi Hj]|Hn];
    [|rewrite !swap_entries_id by (rewrite ?Hlen; done); done].
  apply Forall2_same_length_lookup_2.
  { by rewrite !swap_entries_length. }
  intros k x y. rewrite !swap_entries_lookup by (rewrite ?Hlen; done).
  intros Hx Hy.
  repeat case_decide; subst;
    eapply (Forall2_lookup_lr _ _ _ _ _ _ H); eauto.
Qed.

(** ** Stores, slices and broadcasting *)

Lemma store_all_snoc (l : list (Z * elt)) (p : Z * elt) (f : Z → elt) :
  store_all (l ++ [p]) f = write (store_all l f) p.1 p.2.
Proof. unfold store_all. by rewrite foldl_snoc. Qed.

(** An address no store names keeps its element. *)
Lemma store_all_other (l : list (Z * elt)) (f : Z → elt) (k : Z) :
  (∀ p, p ∈ l → p.1 ≠ k) → store_all l f k = f k.
Proof.
  induction l as [|p l IH] using rev_ind; intros H; [done|].
  rewrite store_all_snoc. unfold write.
  destruct (Z.eqb_spec k p.1) as [->|_].
  - exfalso. apply (H p); [|done]. apply elem_of_app. right. by left.
  - apply IH. intros q Hq. apply H. apply elem_of_app. by left.
Qed.

(** An address that is stored to, always with the same value, holds it. *)
Lemma store_all_unique (l : list (Z * elt)) (f : Z → elt) (k : Z) (x : elt) :
  (k, x) ∈ l → (∀ p, p ∈ l → p.1 = k → p.2 = x) → store_all l f k = x.
Proof.
  induction l as [|p l IH] using rev_ind; intros Hin H.
  { by apply elem_of_nil in Hin. }
  rewrite store_all_snoc. unfold write.
  destruct (Z.eqb_spec k p.1) as [Hk|Hk].
  - apply H; [|done]. apply elem_of_app. right. by left.
  - apply IH.
    + apply elem_of_app in Hin as [Hin|Hin]; [done|].
      apply list_elem_of_singleton in Hin. subst p. done.
    + intros q Hq. apply H. apply elem_of_app. by left.
Qed.

Lemma dot_app (i1 i2 : list nat) (d1 d2 : list (nat * Z)) :
  length i1 = length d1 →
  dot (i1 ++ i2) (d1 ++ d2) = (dot i1 d1 + dot i2 d2)%Z.
Proof.
  revert d1. induction i1 as [|i i1 IH]; intros [|[d s] d1] Hl; simpl in *;
    try done.
  rewrite IH by lia. lia.
Qed.

Lemma slice_last_snoc (pre : list (nat * Z)) (w : nat) (st : Z)
    (start stop : nat) :
  slice_last start stop (pre ++ [(w, st)]) =
  ((Z.of_nat (min start w) * st)%Z, pre ++ [(min stop w - min start w, st)]).
Proof.
  induction pre as [|d pre IH]; [done|].
  change ((d :: pre) ++ [(w, st)]) with (d :: (pre ++ [(w, st)])).
  simpl. rewrite IH. destruct d. by destruct pre.
Qed.

Lemma broadcastable_refl (sh : list nat) : broadcastable sh sh = true.
Proof.
  unfold broadcastable. rewrite Nat.sub_diag.
  assert (strip_leading_ones 0 sh = Some sh) as -> by (by destruct sh).
  rewrite Nat.sub_diag, drop_0.
  induction sh as [|d sh IH]; simpl; [done|].
  by rewrite Nat.eqb_refl, IH.
Qed.

Lemma broadcast_index_refl (sh idx : list nat) :
  in_bounds idx sh → broadcast_index sh sh idx = idx.
Proof.
  intros H. unfold broadcast_index. rewrite Nat.sub_diag, !drop_0. simpl.
  induction H as [|i d idx sh Hi _ IH]; simpl; [done|].
  rewrite IH. destruct (Nat.eqb_spec d 1); [|done]. f_equal. lia.
Qed.

Lemma elem_of_assignments (sub : ndarray) (rows : list nat) (v : temporary)
    (p : Z * elt) :
  p ∈ assignments sub rows v ↔
  ∃ j r t, rows !! j = Some r ∧ in_bounds t (tail (shape sub)) ∧
    p = (address sub (r :: t),
         convert (t_dtype v) (dtype_of sub)
           (t_item v (broadcast_index (t_shape v)
                        (length rows :: tail (shape sub)) (j :: t)))).
Proof.
  unfold assignments. rewrite list_elem_of_bind. split.
  - intros ([j r] & Hp & Hjr).
    apply elem_of_lookup_imap in Hjr as (j' & r' & Heq & Hr).
    inversion Heq; subst j' r'.
    apply list_elem_of_bind in Hp as (t & Hp & Ht).
    apply list_elem_of_singleton in Hp. apply elem_of_all_indices in Ht.
    by exists j, r, t.
  - intros (j & r & t & Hr & Ht & ->).
    exists (j, r). split.
    + apply list_elem_of_bind. exists t. split.
      * by apply list_elem_of_singleton.
      * by apply elem_of_all_indices.
    + apply elem_of_lookup_imap. by exists j, r.
Qed.

Lemma no_overlap_injective (a : ndarray) (i j : list nat) :
  no_overlap a = true →
  in_bounds i (shape a) → in_bounds j (shape a) →
  address a i = address a j → i = j.
Proof.
  intros Hno Hi Hj Heq. unfold no_overlap in Hno.
  apply bool_decide_eq_true in Hno.
  apply elem_of_all_indices, list_elem_of_lookup in Hi as [p Hp].
  apply elem_of_all_indices, list_elem_of_lookup in Hj as [q Hq].
  assert (p = q) as ->.
  { eapply NoDup_lookup; [exact Hno| |].
    - rewrite list_lookup_fmap, Hp. done.
    - rewrite list_lookup_fmap, Hq. simpl. by rewrite Heq. }
  congruence.
Qed.

Lemma forallb_lt_rows {A} (f : A → nat) (l : list A) (n : nat) :
  (∀ x, x ∈ l → f x < n) → forallb (fun i => i <? n) (f <$> l) = true.
Proof.
  intros H. apply forallb_forall. intros i Hi.
  apply list_elem_of_In, list_elem_of_fmap in Hi as (x & -> & Hx).
  apply Nat.ltb_lt. by apply H.
Qed.

(** ** [move_samples_from] *)

Lemma getitem_rows_ok (a : ndarray) (rows : list nat) (s : state)
    (n : nat) (rest : list nat) :
  shape a = n :: rest → rest ≠ [] → (∀ i, i ∈ rows → i < n) →
  getitem_rows a rows s =
  Ok s (mk_temporary (kind a) (dtype_of a) (device a) (requires_grad a)
          (length rows :: rest)
          (fun idx => match idx with
                      | j :: t => read s a (nth j rows 0 :: t)
                      | [] => zero
                      end)).
Proof.
  intros Hsh Hrest Hrows. unfold getitem_rows. rewrite Hsh.
  destruct rest as [|r rest]; [done|].
  rewrite <- (list_fmap_id rows) at 1.
  rewrite (forallb_lt_rows id rows n) by done. done.
Qed.

Lemma setitem_rows_ok (out : ndarray) (rows : list nat) (start stop : nat)
    (v : temporary) (s : state) (n : nat) (rest : list nat) :
  shape out = n :: rest → rest ≠ [] → (∀ i, i ∈ rows → i < n) →
  assignment_error out v = None →
  t_shape v = length rows :: tail (shape (slice_view start stop out)) →
  setitem_rows out rows start stop v s =
  Ok (with_buffers
        (alter (store_all (assignments (slice_view start stop out) rows v))
           (buf out) (buffers s)) s)
     (with_requires_grad (requires_grad out || t_requires_grad v) out).
Proof.
  intros Hsh Hrest Hrows Herr Hv. unfold setitem_rows. rewrite Hsh.
  destruct rest as [|r rest]; [done|].
  rewrite <- (list_fmap_id rows) at 1.
  rewrite (forallb_lt_rows id rows n) by done. simpl.
  rewrite Herr, Hv, broadcastable_refl. done.
Qed.

Lemma shape_dims_inv (a : ndarray) (n : nat) (mid : list nat) (W : nat) :
  shape a = n :: mid ++ [W] →
  ∃ s0 pre st, dims a = (n, s0) :: pre ++ [(W, st)] ∧ pre.*1 = mid.
Proof.
  unfold shape. intros H.
  apply fmap_cons_inv in H as ([n' s0] & rest & Hn & Hrest & ->).
  simpl in Hn. subst n'.
  symmetry in Hrest. apply fmap_app_inv in Hrest as (pre & lst & Hpre & Hlst & ->).
  symmetry in Hlst.
  apply fmap_cons_inv in Hlst as ([W' st] & nil' & HW & Hnil & ->).
  simpl in HW. subst W'. symmetry in Hnil. apply fmap_nil_inv in Hnil as ->.
  exists s0, pre, st. by rewrite Hpre.
Qed.

Lemma slice_view_shape (a : ndarray) (start stop n : nat) (mid : list nat)
    (W : nat) :
  shape a = n :: mid ++ [W] →
  shape (slice_view start stop a) = n :: mid ++ [min stop W - min start W].
Proof.
  intros H. apply shape_dims_inv in H as (s0 & pre & st & Hd & Hpre).
  unfold slice_view, shape. rewrite Hd.
  change ((n, s0) :: pre ++ [(W, st)]) with (((n, s0) :: pre) ++ [(W, st)]).
  rewrite slice_last_snoc. simpl. rewrite fmap_app, Hpre. done.
Qed.

Lemma slice_view_address (a : ndarray) (start stop n : nat) (mid : list nat)
    (W r c : nat) (t : list nat) :
  shape a = n :: mid ++ [W] → length t = length mid → start ≤ W →
  address (slice_view start stop a) (r :: t ++ [c]) =
  address a (r :: t ++ [start + c]).
Proof.
  intros H Ht Hs. apply shape_dims_inv in H as (s0 & pre & st & Hd & Hpre).
  assert (length t = length pre) as Hl by (by rewrite Ht, <- Hpre, length_fmap).
  unfold slice_view, address. rewrite Hd.
  change ((n, s0) :: pre ++ [(W, st)]) with (((n, s0) :: pre) ++ [(W, st)]).
  rewrite slice_last_snoc. simpl.
  rewrite !dot_app by done. simpl.
  rewrite Nat.min_l by done. rewrite Nat2Z.inj_add. ring.
Qed.

Lemma with_requires_grad_id (a : ndarray) :
  with_requires_grad (requires_grad a) a = a.
Proof. by destruct a. Qed.

Lemma with_array_id (w : ArrayWrapper) : with_array (array w) w = w.
Proof. by destruct w. Qed.

Lemma with_objects_id (s : state) : with_objects (objects s) s = s.
Proof. by destruct s. Qed.

Lemma set_object_id (s : state) (p : nat) (w : ArrayWrapper) :
  objects s !! p = Some (Some w) → set_object p w s = Ok s tt.
Proof.
  intros H. unfold set_object. rewrite list_insert_id by done.
  by rewrite with_objects_id.
Qed.

Lemma assignment_error_compatible (d a : ndarray) (sh : list nat)
    (f : list nat → elt) :
  compatible d a →
  assignment_error d
    (mk_temporary (kind a) (dtype_of a) (device a) (requires_grad a) sh f)
  = None.
Proof.
  intros (Hk & Hd & Hdev & Hg & Hga). unfold assignment_error. simpl.
  rewrite Hk, Hd, Hdev, Hg.
  destruct (kind d); [done|].
  rewrite bool_decide_eq_true_2 by done. by rewrite String.eqb_refl.
Qed.

(** The state [move_samples_from] leaves behind: only the buffer of the
    destination changes, by the stores of the assignment. *)
Lemma move_samples_from_body (s : state) (this input_ptr : nat)
    (wd ws : ArrayWrapper) (samples : list eqs_sample_mapping_t)
    (start stop nd ns : nat) (mid : list nat) (W w : nat) :
  objects s !! this = Some (Some wd) →
  objects s !! input_ptr = Some (Some ws) →
  move_samples_pre (array wd) (array ws) samples start stop nd ns mid W w →
  body_eqs_array_move_samples_from this input_ptr samples start stop s =
  Ok (with_buffers
        (alter
           (store_all
              (assignments (slice_view start stop (array wd))
                 (output <$> samples)
                 (mk_temporary (kind (array ws)) (dtype_of (array ws))
                    (device (array ws)) (requires_grad (array ws))
                    (length (input <$> samples) :: mid ++ [w])
                    (fun idx => match idx with
                                | j :: t =>
                                    read s (array ws)
                                      (nth j (input <$> samples) 0 :: t)
                                | [] => zero
                                end))))
           (buf (array wd)) (buffers s)) s) tt.
Proof.
  intros Hd Hs [Hshd Hshs Hw Hr Hrows Hc].
  unfold body_eqs_array_move_samples_from, bind, _object_from_ptr.
  rewrite Hd, Hs.
  rewrite (getitem_rows_ok _ _ _ ns (mid ++ [w])); try done.
  2: { by destruct mid. }
  2: { intros i Hi. apply list_elem_of_fmap in Hi as (m & -> & Hm).
       by apply Hrows. }
  rewrite (setitem_rows_ok _ _ _ _ _ _ nd (mid ++ [W])); try done.
  - destruct Hc as (_ & _ & _ & Hg & Hga). rewrite Hg, Hga. simpl.
    rewrite <- Hg at 1. rewrite with_requires_grad_id, with_array_id.
    apply set_object_id. done.
  - by destruct mid.
  - intros i Hi. apply list_elem_of_fmap in Hi as (m & -> & Hm).
    by apply Hrows.
  - by apply assignment_error_compatible.
  - simpl. rewrite (slice_view_shape _ _ _ nd mid W) by done. simpl.
    rewrite !length_fmap. do 3 f_equal. lia.
Qed.

Lemma read_with_buffers_alter (s : state) (a : ndarray) (g : (Z → elt) → Z → elt)
    (b : nat) (idx : list nat) :
  b < length (buffers s) →
  read (with_buffers (alter g b (buffers s)) s) a idx =
  if decide (buf a = b)
  then g (default (fun _ => zero) (buffers s !! b)) (address a idx)
  else read s a idx.
Proof.
  intros Hb. unfold read. simpl. rewrite list_lookup_alter.
  destruct (decide (b = buf a)) as [<-|Hne].
  - rewrite decide_True by done.
    destruct (lookup_lt_is_Some_2 _ _ Hb) as [f ->]. done.
  - rewrite decide_False by done. done.
Qed.

Lemma in_bounds_snoc (t mid : list nat) (c w : nat) :
  in_bounds t mid → c < w → in_bounds (t ++ [c]) (mid ++ [w]).
Proof. intros Ht Hc. apply Forall2_app; [done|]. by repeat constructor. Qed.

Lemma in_bounds_snoc_inv (t' mid : list nat) (w : nat) :
  in_bounds t' (mid ++ [w]) →
  ∃ t c, t' = t ++ [c] ∧ in_bounds t mid ∧ c < w.
Proof.
  intros H. apply Forall2_app_inv_r in H as (t & l2 & Ht & Hl2 & ->).
  inversion Hl2 as [|c ? l3 ? Hc Hnil]; subst. inversion Hnil; subst.
  by exists t, c.
Qed.

(** What the stores of the assignment are, under the precondition: one per
    pair of the mapping, middle index and column of the source. *)
Lemma assignments_move (s : state) (d a : ndarray)
    (samples : list eqs_sample_mapping_t)
    (start stop nd ns : nat) (mid : list nat) (W w : nat) (p : Z * elt) :
  move_samples_pre d a samples start stop nd ns mid W w →
  p ∈ assignments (slice_view start stop d) (output <$> samples)
        (mk_temporary (kind a) (dtype_of a) (device a) (requires_grad a)
           (length (input <$> samples) :: mid ++ [w])
           (fun idx => match idx with
                       | j :: t => read s a (nth j (input <$> samples) 0 :: t)
                       | [] => zero
                       end)) ↔
  ∃ m t c, m ∈ samples ∧ in_bounds t mid ∧ c < w ∧
    p = (address d (output m :: t ++ [start + c]),
         read s a (input m :: t ++ [c])).
Proof.
  intros [Hshd Hshs Hw Hr Hrows Hc].
  rewrite elem_of_assignments.
  rewrite (slice_view_shape _ _ _ nd mid W) by done. simpl.
  assert (min stop W - min start W = w) as Hlen by lia.
  rewrite Hlen.
  assert (∀ j m t c, samples !! j = Some m → in_bounds t mid → c < w →
            (address (slice_view start stop d) (output m :: t ++ [c]),
             convert (dtype_of a) (dtype_of (slice_view start stop d))
               (match
                  broadcast_index (length (input <$> samples) :: mid ++ [w])
                    (length (output <$> samples) :: mid ++ [w])
                    (j :: t ++ [c])
                with
                | j' :: t' => read s a (nth j' (input <$> samples) 0 :: t')
                | [] => zero
                end)) =
            (address d (output m :: t ++ [start + c]),
             read s a (input m :: t ++ [c]))) as Hval.
  { intros j m t c Hj Ht Hcw. f_equal.
    - apply (slice_view_address _ _ _ nd mid W); [done| |lia].
      by apply in_bounds_length.
    - rewrite !length_fmap, broadcast_index_refl.
      2: { constructor; [by eapply lookup_lt_Some|by apply in_bounds_snoc]. }
      unfold convert.
      assert (dtype_of (slice_view start stop d) = dtype_of d) as ->.
      { unfold slice_view. by destruct (slice_last _ _ _). }
      destruct Hc as (_ & -> & _). rewrite bool_decide_eq_true_2 by done.
      erewrite nth_lookup_Some; [done|].
      by rewrite list_lookup_fmap, Hj. }
  split.
  - intros (j & r & t' & Hj & Ht' & ->).
    rewrite list_lookup_fmap in Hj.
    destruct (samples !! j) as [m|] eqn:Hm; [|done].
    simpl in Hj. injection Hj as <-.
    apply in_bounds_snoc_inv in Ht' as (t & c & -> & Ht & Hcw).
    exists m, t, c. repeat split; try done.
    + by eapply list_elem_of_lookup_2.
    + by eapply Hval.
  - intros (m & t & c & Hm & Ht & Hcw & ->).
    apply list_elem_of_lookup in Hm as [j Hj].
    exists j, (output m), (t ++ [c]). repeat split.
    + by rewrite list_lookup_fmap, Hj.
    + by apply in_bounds_snoc.
    + symmetry. by eapply Hval.
Qed.


(** ** [swap_axes] *)

Lemma with_dims_id (a : ndarray) : with_dims (dims a) a = a.
Proof. by destruct a. Qed.

Lemma swapaxes_ok (a : ndarray) (axis_1 axis_2 : nat) (s : state) :
  axis_1 < ndim a → axis_2 < ndim a →
  swapaxes a axis_1 axis_2 s =
  Ok s (with_dims (swap_entries axis_1 axis_2 (dims a)) a).
Proof.
  intros H1 H2. unfold swapaxes.
  destruct (kind a).
  - apply Nat.ltb_lt in H1, H2. by rewrite H1, H2.
  - assert ((axis_1 <? max 1 (ndim a)) = true) as -> by (apply Nat.ltb_lt; lia).
    assert ((axis_2 <? max 1 (ndim a)) = true) as -> by (apply Nat.ltb_lt; lia).
    done.
Qed.

(** C8. For a wrapped array and two valid axes, [swap_axes] succeeds,
    reports the shape with the two lengths exchanged, keeps the element
    count and every buffer, and the element at an index is found afterwards
    at the index with the two positions exchanged. Applied a second time
    with the same axes it gives back the very state it started from: the
    same array object (shape, strides, storage) and the same cached
    shape. *)
Theorem swap_axes_involution (s : state) (this : nat) (w : ArrayWrapper)
    (axis_1 axis_2 : nat) :
  objects s !! this = Some (Some w) →
  _shape w = shape (array w) →
  axis_1 < ndim (array w) → axis_2 < ndim (array w) →
  ∃ s1 w1,
    _eqs_array_swap_axes this axis_1 axis_2 s = Ok s1 (EQS_SUCCESS, Some tt) ∧
    objects s1 !! this = Some (Some w1) ∧
    _shape w1 = swap_entries axis_1 axis_2 (_shape w) ∧
    shape (array w1) = _shape w1 ∧
    size (_shape w1) = size (_shape w) ∧
    buffers s1 = buffers s ∧
    (∀ idx, in_bounds idx (shape (array w)) →
       in_bounds (swap_entries axis_1 axis_2 idx) (shape (array w1)) ∧
       read s1 (array w1) (swap_entries axis_1 axis_2 idx) =
       read s (array w) idx) ∧
    _eqs_array_swap_axes this axis_1 axis_2 s1 = Ok s (EQS_SUCCESS, Some tt).
Proof.
  intros Hw Hsh H1 H2.
  set (a1 := with_dims (swap_entries axis_1 axis_2 (dims (array w))) (array w)).
  set (w1 := with_shape (shape a1) (with_array a1 w)).
  exists (with_objects (<[this := Some w1]> (objects s)) s), w1.
  assert (shape a1 = swap_entries axis_1 axis_2 (shape (array w))) as Hsh1.
  { unfold a1, shape. simpl. apply swap_entries_fmap. }
  split; [|split; [|split; [|split; [|split; [|split; [|split]]]]]].
  - unfold _eqs_array_swap_axes, catch_exceptions, body_eqs_array_swap_axes,
      bind, _object_from_ptr.
    rewrite Hw, swapaxes_ok by done. done.
  - simpl. apply list_lookup_insert_eq. by eapply lookup_lt_Some.
  - change (shape a1 = swap_entries axis_1 axis_2 (_shape w)).
    by rewrite Hsh1, Hsh.
  - done.
  - change (size (shape a1) = size (_shape w)).
    rewrite Hsh1, Hsh. apply size_swap_entries.
  - done.
  - intros idx Hidx. change (array w1) with a1. split.
    + rewrite Hsh1. by apply in_bounds_swap.
    + unfold read, address. simpl.
      rewrite dot_Forall2_swap; [done|].
      apply in_bounds_length in Hidx. unfold shape in Hidx.
      by rewrite length_fmap in Hidx.
  - unfold _eqs_array_swap_axes, catch_exceptions, body_eqs_array_swap_axes,
      bind, _object_from_ptr. simpl.
    rewrite list_lookup_insert_eq by (by eapply lookup_lt_Some).
    rewrite swapaxes_ok
      by (unfold ndim; simpl; by rewrite swap_entries_length).
    simpl. rewrite swap_entries_involutive.
    unfold set_object. simpl. rewrite list_insert_insert_eq.
    assert (with_dims (dims (array w)) a1 = array w) as ->.
    { unfold a1. by destruct (array w). }
    assert (with_shape (shape (array w)) (with_array (array w) w1) = w) as ->.
    { unfold w1. rewrite <- Hsh. by destruct w. }
    rewrite list_insert_id by done. by destruct s.
Qed.

(** ** [reshape] *)

Lemma grow_spec (fuel np op : nat) (gn : list nat) (go : list (nat * Z))
    (news : list nat) (olds : list (nat * Z)) gn' go' news' olds' :
  grow fuel np op gn go news olds = Some (gn', go', news', olds') →
  gn ++ news = gn' ++ news' ∧ go ++ olds = go' ++ olds'.
Proof.
  revert np op gn go news olds.
  induction fuel as [|fuel IH]; intros np op gn go news olds; simpl.
  - destruct (np =? op); [|done]. by intros [= <- <- <- <-].
  - destruct (np =? op); [by intros [= <- <- <- <-]|].
    destruct (np <? op).
    + destruct news as [|n news]; [done|]. intros H. apply IH in H as [H1 H2].
      by rewrite <- H1, <- H2, <- app_assoc.
    + destruct olds as [|o olds]; [done|]. intros H. apply IH in H as [H1 H2].
      by rewrite <- H1, <- H2, <- app_assoc.
Qed.

Lemma group_strides_fst (gn : list nat) (innermost : Z) :
  (group_strides gn innermost).1.*1 = gn.
Proof.
  induction gn as [|n gn IH]; [done|]. cbn [group_strides].
  destruct (group_strides gn innermost) as [r st]. cbn in *. by f_equal.
Qed.

(** A reshape without a copy yields the requested lengths. *)
Lemma nocopy_groups_fst (fuel : nat) (news : list nat) (olds : list (nat * Z))
    (last_stride : Z) (ds : list (nat * Z)) :
  nocopy_groups fuel news olds last_stride = Some ds → ds.*1 = news.
Proof.
  revert news olds last_stride ds.
  assert (∀ (news : list nat) (x : Z),
            ((fun n => (n, x)) <$> news).*1 = news) as Htrail.
  { intros news x. rewrite <- list_fmap_compose. apply list_fmap_id. }
  induction fuel as [|fuel IH]; intros news olds ls ds.
  - destruct news as [|n news], olds as [|o olds]; cbn [nocopy_groups];
      try done; intros [= <-]; first [apply (Htrail _ ls)|done|cbn; f_equal; apply (Htrail _ ls)].
  - destruct news as [|n news], olds as [|o olds]; cbn [nocopy_groups];
      try (intros [= <-]; first [apply (Htrail _ ls)|done|cbn; f_equal; apply (Htrail _ ls)]).
    destruct (grow _ _ _ _ _ _ _) as [[[[gn go] news''] olds'']|] eqn:Hg;
      [|done].
    destruct (combinable go); [|done].
    destruct (nocopy_groups fuel news'' olds'' _) as [rest|] eqn:Hr; [|done].
    intros [= <-]. apply IH in Hr. apply grow_spec in Hg as [Hg _].
    rewrite fmap_app, group_strides_fst, Hr. done.
Qed.

(** [reshape] fails exactly when the element counts differ, and otherwise
    returns an array of the requested shape without touching the wrappers
    or any existing buffer. *)
Lemma reshape_spec (a : ndarray) (newshape : list nat) (s : state) :
  if decide (size newshape = size (shape a)) then
    ∃ s' a', reshape a newshape s = Ok s' a' ∧ shape a' = newshape ∧
      objects s' = objects s ∧ LAST_EXCEPTION s' = LAST_EXCEPTION s ∧
      (∃ l, buffers s' = buffers s ++ l) ∧
      (buf a < length (buffers s) → buf a' < length (buffers s')) ∧
      kind a' = kind a ∧ dtype_of a' = dtype_of a
  else reshape a newshape s = Raise s (reshape_error (kind a)).
Proof.
  unfold reshape. case_decide as Hsz.
  - rewrite (proj2 (Nat.eqb_eq _ _) Hsz). simpl.
    case_bool_decide as Hsame.
    { exists s, a. repeat split; try done. exists []. by rewrite app_nil_r. }
    destruct (c_contiguous a).
    { exists s, (with_dims (c_dims newshape) a). repeat split; try done.
      - apply shape_c_dims.
      - exists []. by rewrite app_nil_r. }
    destruct (attempt_nocopy_reshape a newshape) as [ds|] eqn:Hnc.
    { exists s, (with_dims ds a). repeat split; try done.
      - by eapply nocopy_groups_fst.
      - exists []. by rewrite app_nil_r. }
    eexists _, _. split; [reflexivity|]. simpl. repeat split; try done.
    + apply shape_c_dims.
    + by eexists.
    + intros _. rewrite length_app. simpl. lia.
  - rewrite (proj2 (Nat.eqb_neq _ _) Hsz). done.
Qed.


(** ** Construction and reference counting *)

Lemma _origin_numpy_ok (s : state) :
  ∃ s' o, _origin_numpy s = Ok s' o ∧ same_heap s s'.
Proof.
  unfold _origin_numpy, _register_origin, eqs_register_data_origin, bind.
  destruct (_NUMPY_STORAGE_ORIGIN s); [by eexists _, _|].
  by eexists _, _.
Qed.

Lemma _origin_pytorch_ok (s : state) :
  ∃ s' o, _origin_pytorch s = Ok s' o ∧ same_heap s s'.
Proof.
  unfold _origin_pytorch, _register_origin, eqs_register_data_origin, bind.
  destruct (_TORCH_STORAGE_ORIGIN s); [by eexists _, _|].
  by eexists _, _.
Qed.

Lemma ArrayWrapper__init___ok (a : ndarray) (s : state) :
  known_kind a = true →
  ∃ s0 o,
    same_heap s s0 ∧
    ArrayWrapper__init__ (PyArray a) s =
    Ok (with_objects (objects s ++ [Some (mk_wrapper a (shape a) o 1)]) s0)
       (length (objects s)).
Proof.
  intros Hk. unfold ArrayWrapper__init__, known_kind in *. simpl.
  unfold bind at 1. unfold ret at 1. unfold bind.
  destruct (_is_numpy_array a).
  - destruct (_origin_numpy_ok s) as (s0 & o & -> & Hs0).
    exists s0, o. split; [done|]. unfold new_object.
    destruct Hs0 as (_ & -> & _). done.
  - simpl in Hk. rewrite Hk.
    destruct (_origin_pytorch_ok s) as (s0 & o & -> & Hs0).
    exists s0, o. split; [done|]. unfold new_object.
    destruct Hs0 as (_ & -> & _). done.
Qed.


Lemma Py_IncRef_ok (s : state) (p : nat) (w : ArrayWrapper) :
  objects s !! p = Some (Some w) →
  Py_IncRef p s =
  Ok (with_objects (<[p := Some (with_refcnt (S (ob_refcnt w)) w)]> (objects s)) s)
     tt.
Proof.
  intros H. unfold Py_IncRef, bind, _object_from_ptr. by rewrite H.
Qed.

Lemma Py_DecRef_ok (s : state) (p : nat) (w : ArrayWrapper) (n : nat) :
  objects s !! p = Some (Some w) → ob_refcnt w = S n →
  Py_DecRef p s =
  Ok (with_objects (<[p := Some (with_refcnt n w)]> (objects s)) s) tt.
Proof.
  intros H Hn. unfold Py_DecRef, bind, _object_from_ptr. by rewrite H, Hn.
Qed.

Lemma into_eqs_array_ok (s : state) (self : nat) (w : ArrayWrapper) :
  objects s !! self = Some (Some w) →
  into_eqs_array self s =
  Ok (with_objects
        (<[self := Some (with_refcnt (S (ob_refcnt w)) w)]> (objects s)) s)
     (_eqs_array self w).
Proof.
  intros H. unfold into_eqs_array, bind.
  rewrite (Py_IncRef_ok _ _ _ H). unfold _object_from_ptr. simpl.
  rewrite list_lookup_insert_eq by (by eapply lookup_lt_Some). done.
Qed.

(** What [create] and [copy] do with a new array: wrap it, hand it out, and
    let go of the local name. The handle is new and is the only reference
    to the wrapper; no existing wrapper or buffer is touched. *)
Lemma fresh_handle (a : ndarray) (s : state) :
  known_kind a = true →
  ∃ s0 o,
    same_heap s s0 ∧
    (new_wrapper <- ArrayWrapper__init__ (PyArray a) ;;
     new_array <- into_eqs_array new_wrapper ;;
     del new_wrapper ;;; ret new_array) s =
    Ok (with_objects (objects s ++ [Some (mk_wrapper a (shape a) o 1)]) s0)
       (_eqs_array (length (objects s)) (mk_wrapper a (shape a) o 1)).
Proof.
  intros Hk.
  destruct (ArrayWrapper__init___ok a s Hk) as (s0 & o & Hs0 & Hinit).
  exists s0, o. split; [done|].
  unfold bind at 1. rewrite Hinit.
  unfold bind at 1.
  erewrite into_eqs_array_ok.
  2: { simpl. apply list_lookup_middle. done. }
  unfold bind, del. simpl.
  erewrite Py_DecRef_ok.
  2: { simpl. apply list_lookup_insert_eq. rewrite length_app. simpl. lia. }
  2: { done. }
  unfold ret. simpl. rewrite list_insert_insert_eq.
  rewrite insert_app_r_alt, Nat.sub_diag by done. done.
Qed.

Lemma ndarray_copy_ok (a : ndarray) (s : state) :
  ndarray_copy a s =
  Ok (with_buffers (buffers s ++ [packed s a]) s)
     (mk_ndarray Numpy (length (buffers s)) 0 (c_dims (shape a)) (dtype_of a)
        "cpu" false).
Proof. done. Qed.

Lemma tensor_clone_ok (a : ndarray) (s : state) :
  ∃ f ds,
    tensor_clone a s =
    Ok (with_buffers (buffers s ++ [f]) s)
       (mk_ndarray Torch (length (buffers s)) 0 ds (dtype_of a) (device a)
          (requires_grad a)) ∧
    ds.*1 = shape a ∧
    ∀ idx, in_bounds idx (shape a) →
      f (0 + dot idx ds)%Z = read s a idx.
Proof.
  unfold tensor_clone. destruct (non_overlapping_and_dense a).
  - eexists _, _. split; [reflexivity|]. split; [done|].
    intros idx _. unfold read, address. f_equal; lia.
  - eexists _, _. split; [reflexivity|]. split; [apply shape_c_dims|].
    intros idx Hidx. unfold packed.
    rewrite dot_c_dims by done. rewrite Z.add_0_l, Nat2Z.id.
    by rewrite unravel_ravel.
Qed.

Lemma read_new_buffer (s0 : state) (bs : list (Z → elt)) (f : Z → elt)
    (os : list (option ArrayWrapper)) (a : ndarray) (idx : list nat) :
  buf a = length bs →
  read (with_objects os (with_buffers (bs ++ [f]) s0)) a idx =
  f (address a idx).
Proof.
  intros Hb. unfold read. simpl. rewrite Hb, list_lookup_middle by done. done.
Qed.

Lemma read_old_buffer (s s0 : state) (l : list (Z → elt))
    (os : list (option ArrayWrapper)) (a : ndarray) (idx : list nat) :
  buf a < length (buffers s) →
  read (with_objects os (with_buffers (buffers s ++ l) s0)) a idx =
  read s a idx.
Proof.
  intros Hb. unfold read. simpl. by rewrite lookup_app_l by done.
Qed.

(** The outcome of [copy] on a wrapper of a known class. *)
Lemma copy_ok (s : state) (this : nat) (w : ArrayWrapper) :
  objects s !! this = Some (Some w) → known_kind (array w) = true →
  ∃ s0 o f ds k dev g,
    let a' := mk_ndarray k (length (buffers s)) 0 ds (dtype_of (array w)) dev g in
    let w' := mk_wrapper a' (shape a') o 1 in
    body_eqs_array_copy this s =
      Ok (with_objects (objects s ++ [Some w'])
            (with_buffers (buffers s ++ [f]) s0))
         (_eqs_array (length (objects s)) w') ∧
    k = kind (array w) ∧
    ds.*1 = shape (array w) ∧
    (∀ idx, in_bounds idx (shape (array w)) →
       f (0 + dot idx ds)%Z = read s (array w) idx).
Proof.
  intros Hw Hk. unfold body_eqs_array_copy.
  unfold bind at 1. unfold _object_from_ptr at 1. rewrite Hw.
  unfold bind at 1.
  destruct (_is_numpy_array (array w)) eqn:Hn.
  - rewrite ndarray_copy_ok.
    match goal with |- context [bind (ArrayWrapper__init__ (PyArray ?a)) _ ?s1] =>
      destruct (fresh_handle a s1) as (s0 & o & Hs0 & Hfresh) end.
    { done. }
    rewrite Hfresh. destruct Hs0 as (Hb & Ho & He). simpl in *.
    exists (with_buffers (buffers s) s0), o, (packed s (array w)),
      (c_dims (shape (array w))), Numpy, "cpu", false.
    simpl. split.
    + f_equal. destruct s0. simpl in *. by rewrite Hb.
    + split.
      * unfold _is_numpy_array in Hn. by apply bool_decide_eq_true in Hn.
      * split; [apply shape_c_dims|].
        intros idx Hidx. unfold packed.
        rewrite dot_c_dims by done. rewrite Z.add_0_l, Nat2Z.id.
        by rewrite unravel_ravel.
  - unfold known_kind in Hk. rewrite Hn in Hk. simpl in Hk. rewrite Hk.
    destruct (tensor_clone_ok (array w) s) as (f & ds & -> & Hds & Hf).
    match goal with |- context [bind (ArrayWrapper__init__ (PyArray ?a)) _ ?s1] =>
      destruct (fresh_handle a s1) as (s0 & o & Hs0 & Hfresh) end.
    { unfold known_kind, _is_torch_array in *.
      by destruct HAS_TORCH. }
    rewrite Hfresh. destruct Hs0 as (Hb & Ho & He). simpl in *.
    exists (with_buffers (buffers s) s0), o, f, ds, Torch,
      (device (array w)), (requires_grad (array w)).
    simpl. split.
    + f_equal. destruct s0. simpl in *. by rewrite Hb.
    + split; [|by split].
      unfold _is_torch_array in Hk. destruct HAS_TORCH; [|done].
      simpl in Hk. apply bool_decide_eq_true in Hk. done.
Qed.

Lemma destroy_ok (s : state) (this : nat) (w : ArrayWrapper) (n : nat) :
  objects s !! this = Some (Some w) → ob_refcnt w = S n →
  _eqs_array_destroy this s =
  Ok (with_objects (<[this := Some (with_refcnt n w)]> (objects s)) s)
     (EQS_SUCCESS, Some tt).
Proof.
  intros Hw Hn.
  unfold _eqs_array_destroy, catch_exceptions, body_eqs_array_destroy, bind.
  unfold _object_from_ptr at 1. rewrite Hw.
  by rewrite (Py_DecRef_ok _ _ _ _ Hw Hn).
Qed.

(** C6, as amended. [into_eqs_array] adds exactly one to the reference count
    of the wrapper and returns its [eqs_array_t]: the pointer to the wrapper
    and the nine callbacks. Called again on the same wrapper it returns the
    same [eqs_array_t] and adds one more to the same count. The handle that
    is independent is the one [copy] returns (where [into_eqs_array] runs on
    the new wrapper): it points to another wrapper, whose count is one, and
    neither obtaining it nor destroying it changes the count of the
    first. *)
Theorem into_eqs_array_counts (s : state) (self : nat) (w : ArrayWrapper) :
  objects s !! self = Some (Some w) →
  known_kind (array w) = true →
  ∃ s1 w1,
    into_eqs_array self s =
      Ok s1 (mk_eqs_array self (fn_eqs_array_origin (array_origin w))
               fn_eqs_array_data fn_eqs_array_shape fn_eqs_array_reshape
               fn_eqs_array_swap_axes fn_eqs_array_create fn_eqs_array_copy
               fn_eqs_array_destroy fn_eqs_array_move_samples_from) ∧
    objects s1 = <[self := Some w1]> (objects s) ∧
    buffers s1 = buffers s ∧
    ob_refcnt w1 = S (ob_refcnt w) ∧
    array w1 = array w ∧ _shape w1 = _shape w ∧
    (∃ s1' w1',
       into_eqs_array self s1 = Ok s1' (_eqs_array self w) ∧
       objects s1' = <[self := Some w1']> (objects s) ∧
       ob_refcnt w1' = S (S (ob_refcnt w))) ∧
    ∃ s2 h2 w2 s3,
      _eqs_array_copy self s1 = Ok s2 (EQS_SUCCESS, Some h2) ∧
      eqs_ptr h2 ≠ self ∧
      objects s2 !! eqs_ptr h2 = Some (Some w2) ∧ ob_refcnt w2 = 1 ∧
      objects s2 !! self = Some (Some w1) ∧
      _eqs_array_destroy (eqs_ptr h2) s2 = Ok s3 (EQS_SUCCESS, Some tt) ∧
      collectible s3 (eqs_ptr h2) ∧
      objects s3 !! self = Some (Some w1).
Proof.
  intros Hw Hk.
  pose proof (lookup_lt_Some _ _ _ Hw) as Hlt.
  eexists _, (with_refcnt (S (ob_refcnt w)) w).
  split; [by apply into_eqs_array_ok|].
  split; [done|]. split; [done|]. split; [done|]. split; [done|].
  split; [done|].
  set (s1 := with_objects _ s).
  assert (objects s1 !! self = Some (Some (with_refcnt (S (ob_refcnt w)) w)))
    as Hw1 by (by apply list_lookup_insert_eq).
  split.
  { eexists _, _. split; [exact (into_eqs_array_ok _ _ _ Hw1)|].
    split; [apply list_insert_insert_eq|done]. }
  destruct (copy_ok s1 self _ Hw1 Hk)
    as (s0 & o & f & ds & k & dev & g & Hcopy & _).
  simpl in Hcopy.
  assert (length (objects s1) = length (objects s)) as Hlen
    by apply length_insert.
  eexists _, _, _, _. split.
  { unfold _eqs_array_copy, catch_exceptions. rewrite Hcopy. reflexivity. }
  simpl. split; [rewrite length_insert; lia|].
  split; [by apply list_lookup_middle|].
  split; [done|].
  split; [by rewrite lookup_app_l by (rewrite length_insert; lia)|].
  split.
  { eapply destroy_ok; [simpl; by apply list_lookup_middle|done]. }
  split.
  - eexists. split; [simpl|].
    + apply list_lookup_insert_eq. rewrite length_app, length_insert.
      simpl. lia.
    + done.
  - simpl. rewrite list_lookup_insert_ne by (rewrite length_insert; lia).
    by rewrite lookup_app_l by (rewrite length_insert; lia).
Qed.

Lemma with_refcnt_id (w : ArrayWrapper) : with_refcnt (ob_refcnt w) w = w.
Proof. by destruct w. Qed.

Lemma calls_into_eqs_array (n : nat) (s : state) (self : nat)
    (w : ArrayWrapper) :
  objects s !! self = Some (Some w) →
  calls n (into_eqs_array self) s =
  Ok (with_objects
        (<[self := Some (with_refcnt (n + ob_refcnt w) w)]> (objects s)) s)
     (replicate n (_eqs_array self w)).
Proof.
  revert s w. induction n as [|n IH]; intros s w Hw.
  - simpl. rewrite with_refcnt_id, list_insert_id, with_objects_id by done.
    done.
  - simpl. unfold bind at 1. rewrite (into_eqs_array_ok _ _ _ Hw).
    unfold bind at 1. erewrite IH.
    2: { simpl. apply list_lookup_insert_eq. by eapply lookup_lt_Some. }
    simpl. rewrite list_insert_insert_eq. unfold ret.
    replace (with_refcnt (n + S (ob_refcnt w)) (with_refcnt (S (ob_refcnt w)) w))
      with (with_refcnt (S (n + ob_refcnt w)) w)
      by (unfold with_refcnt; simpl; f_equal; lia).
    done.
Qed.

Lemma calls_destroy (k : nat) (s : state) (self : nat) (w : ArrayWrapper) :
  objects s !! self = Some (Some w) → k ≤ ob_refcnt w →
  calls k (_eqs_array_destroy self) s =
  Ok (with_objects
        (<[self := Some (with_refcnt (ob_refcnt w - k) w)]> (objects s)) s)
     (replicate k (EQS_SUCCESS, Some tt)).
Proof.
  revert s w. induction k as [|k IH]; intros s w Hw Hk.
  - simpl. rewrite Nat.sub_0_r.
    rewrite with_refcnt_id, list_insert_id, with_objects_id by done. done.
  - simpl. unfold bind at 1.
    destruct (ob_refcnt w) as [|c] eqn:Hc; [lia|].
    rewrite (destroy_ok _ _ _ c Hw Hc).
    unfold bind at 1. erewrite IH.
    2: { simpl. apply list_lookup_insert_eq. by eapply lookup_lt_Some. }
    2: { simpl. lia. }
    simpl. rewrite list_insert_insert_eq. done.
Qed.

(** C7. Reference counting is balanced. After [n] calls of
    [into_eqs_array] on a wrapper and [k <= n] calls of its [destroy], every
    call having succeeded, the count of the wrapper is its initial count
    (the references Python names hold) plus [n - k]. So before the last
    matching [destroy] the count is positive, and the wrapper, with the
    array it holds, survives a collection; after the [n]-th [destroy] the
    count is the initial one again, and when no Python name refers to the
    wrapper it is collectible and the collector frees it. *)
Theorem destroy_is_refcount_balanced (s : state) (self : nat)
    (w : ArrayWrapper) (n k : nat) :
  objects s !! self = Some (Some w) → 1 ≤ n → k ≤ n →
  ∃ s1 s2,
    calls n (into_eqs_array self) s = Ok s1 (replicate n (_eqs_array self w)) ∧
    calls k (_eqs_array_destroy self) s1 =
      Ok s2 (replicate k (EQS_SUCCESS, Some tt)) ∧
    objects s2 !! self = Some (Some (with_refcnt (ob_refcnt w + n - k) w)) ∧
    (k < n →
     reachable s2 self ∧
     objects (gc_collect s2) !! self = objects s2 !! self) ∧
    (k = n → ob_refcnt w = 0 →
     collectible s2 self ∧ objects (gc_collect s2) !! self = Some None).
Proof.
  intros Hw Hn Hk.
  pose proof (lookup_lt_Some _ _ _ Hw) as Hlt.
  eexists _, _. split; [by apply calls_into_eqs_array|].
  split.
  { apply calls_destroy.
    - simpl. by apply list_lookup_insert_eq.
    - simpl. lia. }
  simpl. rewrite list_insert_insert_eq.
  replace (with_refcnt (n + ob_refcnt w - k) (with_refcnt (n + ob_refcnt w) w))
    with (with_refcnt (ob_refcnt w + n - k) w)
    by (unfold with_refcnt; simpl; f_equal; lia).
  assert (<[self := Some (with_refcnt (ob_refcnt w + n - k) w)]> (objects s)
            !! self = Some (Some (with_refcnt (ob_refcnt w + n - k) w)))
    as Hfin by (by apply list_lookup_insert_eq).
  split; [done|]. split.
  - intros Hlt'. split.
    + eexists. split; [exact Hfin|]. simpl. lia.
    + unfold gc_collect. simpl. rewrite list_lookup_fmap, Hfin. simpl.
      destruct (Nat.eqb_spec (ob_refcnt w + n - k) 0); [lia|done].
  - intros -> H0. split.
    + eexists. split; [exact Hfin|]. simpl. lia.
    + unfold gc_collect. simpl. rewrite list_lookup_fmap, Hfin. simpl.
      destruct (Nat.eqb_spec (ob_refcnt w + n - n) 0); [done|lia].
Qed.

(** ** [data] *)


(** ** [create] *)

Lemma known_kind_cases (a : ndarray) :
  known_kind a = true →
  (_is_numpy_array a = true ∧ kind a = Numpy) ∨
  (_is_numpy_array a = false ∧ _is_torch_array a = true ∧ kind a = Torch ∧
   HAS_TORCH = true).
Proof.
  unfold known_kind, _is_numpy_array, _is_torch_array.
  destruct (kind a), HAS_TORCH; simpl; intros H; try done; auto.
Qed.

(** The outcome of [create] on a wrapper of a known class. *)
Lemma create_ok (s : state) (this : nat) (w : ArrayWrapper)
    (shape_ptr : list nat) :
  objects s !! this = Some (Some w) → known_kind (array w) = true →
  ∃ s0 o dev,
    let a' := mk_ndarray (kind (array w)) (length (buffers s)) 0
                (c_dims shape_ptr) (dtype_of (array w)) dev false in
    let w' := mk_wrapper a' (shape a') o 1 in
    body_eqs_array_create this shape_ptr s =
      Ok (with_objects (objects s ++ [Some w'])
            (with_buffers (buffers s ++ [fun _ => zero]) s0))
         (_eqs_array (length (objects s)) w').
Proof.
  intros Hw Hk. unfold body_eqs_array_create.
  unfold bind at 1. unfold _object_from_ptr at 1. rewrite Hw.
  unfold bind at 1.
  destruct (known_kind_cases _ Hk) as [[Hn Hkind]|(Hn & Ht & Hkind & Hhas)];
    rewrite Hn, ?Ht, Hkind.
  - unfold np_zeros, bind at 1, new_buffer, ret at 1.
    match goal with |- context [bind (ArrayWrapper__init__ (PyArray ?a)) _ ?s1] =>
      destruct (fresh_handle a s1) as (s0 & o & Hs0 & Hfresh) end.
    { done. }
    rewrite Hfresh. destruct Hs0 as (Hb & Ho & He). simpl in *.
    exists (with_buffers (buffers s) s0), o, "cpu". simpl.
    f_equal. destruct s0. simpl in *. by rewrite Hb.
  - unfold torch_zeros, bind at 1, new_buffer, ret at 1.
    match goal with |- context [bind (ArrayWrapper__init__ (PyArray ?a)) _ ?s1] =>
      destruct (fresh_handle a s1) as (s0 & o & Hs0 & Hfresh) end.
    { unfold known_kind, _is_torch_array. by rewrite Hhas. }
    rewrite Hfresh. destruct Hs0 as (Hb & Ho & He). simpl in *.
    exists (with_buffers (buffers s) s0), o, (device (array w)). simpl.
    f_equal. destruct s0. simpl in *. by rewrite Hb.
Qed.

(** ** The callback boundary *)

Lemma stores_catch_exceptions {A} (f : A → reply) (m : M A) (s : state) :
  stores f (catch_exceptions m) s =
  match m s with
  | Ok s' a => Ok s' (EQS_SUCCESS, Some (f a))
  | Raise s' e => Ok (_save_exception e s') (error_status e, None)
  | Fault => Fault
  end.
Proof. unfold stores, catch_exceptions, bind. by destruct (m s). Qed.

Lemma invoke_undecorated (c : invocation) (s : state) :
  match undecorated c s with
  | Ok s' r => invoke c s = Ok s' (EQS_SUCCESS, Some r)
  | Raise s' e => invoke c s = Ok (_save_exception e s') (error_status e, None)
  | Fault => invoke c s = Fault
  end.
Proof.
  destruct c; simpl;
    unfold eqs_array_origin, _eqs_array_data, _eqs_array_shape,
      _eqs_array_reshape, _eqs_array_swap_axes, _eqs_array_create,
      _eqs_array_copy, _eqs_array_destroy, _eqs_array_move_samples_from;
    rewrite stores_catch_exceptions; unfold bind, ret; [done|..];
    match goal with
    | |- context [?f s] =>
        match type of (f s) with outcome _ => destruct (f s) end
    end; done.
Qed.

Lemma known_or_unbound (a : ndarray) :
  known_kind a = true ∨
  (_is_numpy_array a = false ∧ _is_torch_array a = false).
Proof.
  unfold known_kind.
  destruct (_is_numpy_array a), (_is_torch_array a); auto.
Qed.

(** With the handles it is given alive, no callback leaves the language. *)
Lemma undecorated_no_fault (c : invocation) (s : state) :
  handles_live s c → undecorated c s ≠ Fault.
Proof.
  destruct c; simpl.
  - done.
  - intros [w Hw].
    unfold bind at 1, body_eqs_array_data, bind at 1, _object_from_ptr.
    rewrite Hw. unfold bind, tensor_numpy, raise, ret.
    repeat case_match; done.
  - intros [w Hw].
    unfold bind, body_eqs_array_shape, bind, _object_from_ptr.
    by rewrite Hw.
  - intros [w Hw].
    unfold bind at 1, body_eqs_array_reshape, bind at 1, _object_from_ptr.
    rewrite Hw. unfold bind at 1.
    pose proof (reshape_spec (array w) shape_ptr s) as Hr.
    case_decide.
    + destruct Hr as (s' & a' & -> & _). done.
    + by rewrite Hr.
  - intros [w Hw].
    unfold bind at 1, body_eqs_array_swap_axes, bind at 1, _object_from_ptr.
    rewrite Hw. unfold bind, swapaxes, raise, ret.
    repeat case_match; done.
  - intros [w Hw]. unfold bind at 1.
    destruct (known_or_unbound (array w)) as [Hk|[Hn Ht]].
    + destruct (create_ok s this w shape_ptr Hw Hk) as (s0 & o & dev & Hc).
      simpl in Hc. by rewrite Hc.
    + unfold body_eqs_array_create, bind at 1, _object_from_ptr.
      rewrite Hw. unfold bind at 1. by rewrite Hn, Ht.
  - intros [w Hw]. unfold bind at 1.
    destruct (known_or_unbound (array w)) as [Hk|[Hn Ht]].
    + destruct (copy_ok s this w Hw Hk)
        as (s0 & o & f & ds & k & dev & g & Hc & _).
      simpl in Hc. by rewrite Hc.
    + unfold body_eqs_array_copy, bind at 1, _object_from_ptr.
      rewrite Hw. unfold bind at 1. by rewrite Hn, Ht.
  - intros (w & Hw & Hpos).
    unfold bind at 1, body_eqs_array_destroy, bind at 1, _object_from_ptr at 1.
    rewrite Hw.
    destruct (ob_refcnt w) as [|n] eqn:Hn; [lia|].
    by rewrite (Py_DecRef_ok _ _ _ _ Hw Hn).
  - intros [[w Hw] [w' Hw']].
    unfold body_eqs_array_move_samples_from, bind, _object_from_ptr.
    rewrite Hw. cbv beta iota. rewrite Hw'. cbv beta iota.
    unfold getitem_rows, setitem_rows, set_object, ret.
    repeat case_match; done.
Qed.

(** C3. Every entry of the table is a decorated function: whatever
    exception its body raises is caught at the boundary, kept for retrieval
    and turned into a nonzero status; a body that returns gives
    [EQS_SUCCESS] and the values it stored. No call ends by raising, and
    with its handles alive every call returns a status. *)
Theorem callbacks_never_raise (c : invocation) (s : state) :
  (∀ s' e, invoke c s ≠ Raise s' e) ∧
  match undecorated c s with
  | Ok s' r => invoke c s = Ok s' (EQS_SUCCESS, Some r)
  | Raise s' e =>
      invoke c s = Ok (_save_exception e s') (error_status e, None) ∧
      error_status e ≠ EQS_SUCCESS ∧
      LAST_EXCEPTION (_save_exception e s') = Some e
  | Fault => invoke c s = Fault
  end ∧
  (handles_live s c → ∃ s' status r, invoke c s = Ok s' (status, r)).
Proof.
  pose proof (invoke_undecorated c s) as H.
  pose proof (undecorated_no_fault c s) as Hnf.
  destruct (undecorated c s) as [s' r|s' e|]; rewrite H.
  - split; [done|]. split; [done|]. eauto.
  - split; [done|]. split; [|eauto].
    split; [done|]. split; [apply error_status_nonzero|done].
  - split; [done|]. split; [done|]. intros Hl. by destruct (Hnf Hl).
Qed.

(** ** Element types *)

Lemma data_fails_unless_float64 (s : state) (this : nat) (w : ArrayWrapper) :
  objects s !! this = Some (Some w) →
  dtype_of (array w) ≠ float64 →
  ∃ e, _eqs_array_data this s = Ok (_save_exception e s) (error_status e, None).
Proof.
  intros Hw Hd.
  unfold _eqs_array_data, catch_exceptions, body_eqs_array_data, bind,
    _object_from_ptr.
  rewrite Hw. unfold tensor_numpy, raise, ret.
  repeat case_match; simplify_eq; try (by eexists).
  all: exfalso; simpl in *;
    repeat match goal with
           | H : negb (bool_decide _) = false |- _ =>
               apply negb_false_iff, bool_decide_eq_true in H
           end; done.
Qed.


(** ** What a call can touch *)

Lemma footprint_same (t : nat) (s s' : state) :
  buffers s' = buffers s → objects s' = objects s → footprint t s s'.
Proof.
  intros Hb Ho. unfold footprint. rewrite Hb, Ho. repeat split; auto.
Qed.

Lemma footprint_target (t : nat) (s s' : state) (w w' : ArrayWrapper) :
  objects s !! t = Some (Some w) →
  (∀ b f, buffers s !! b = Some f → b ≠ buf (array w) →
     buffers s' !! b = Some f) →
  objects s' = <[t := Some w']> (objects s) →
  buf (array w') = buf (array w) ∨ length (buffers s) ≤ buf (array w') →
  footprint t s s'.
Proof.
  intros Hw Hb Ho Hbuf. repeat split.
  - intros b f Hf Hne. apply Hb; [done|]. intros ->. by eapply Hne.
  - intros p Hp _. rewrite Ho. by apply list_lookup_insert_ne.
  - intros p wp. rewrite Ho. intros Hp.
    destruct (decide (p = t)) as [->|Hne].
    + rewrite list_lookup_insert_eq in Hp by (by eapply lookup_lt_Some).
      injection Hp as <-. destruct Hbuf as [Hbuf|Hbuf]; [|by auto].
      right. left. by exists w.
    + rewrite list_lookup_insert_ne in Hp by done. by left.
Qed.

Lemma footprint_new (t : nat) (s s' : state) (wn : ArrayWrapper)
    (l : list (Z → elt)) :
  buffers s' = buffers s ++ l →
  objects s' = objects s ++ [Some wn] →
  length (buffers s) ≤ buf (array wn) →
  footprint t s s'.
Proof.
  intros Hb Ho Hn. repeat split.
  - intros b f Hf _. rewrite Hb. by apply lookup_app_l_Some.
  - intros p _ Hp. rewrite Ho. by apply lookup_app_l.
  - intros p wp. rewrite Ho. intros Hp.
    apply lookup_app_Some in Hp as [Hp|[_ Hp]]; [by left|].
    apply list_lookup_singleton_Some in Hp as [_ [= <-]]. by auto.
Qed.

Lemma reshape_buf (a : ndarray) (newshape : list nat) (s s' : state)
    (a' : ndarray) :
  reshape a newshape s = Ok s' a' →
  buf a' = buf a ∨ buf a' = length (buffers s).
Proof.
  unfold reshape, raise, ret, bind, new_buffer.
  repeat case_match; intros ?; simplify_eq; simpl; auto.
Qed.

Lemma undecorated_footprint (c : invocation) (s : state) :
  match undecorated c s with
  | Ok s' _ | Raise s' _ => footprint (target c) s s'
  | Fault => True
  end.
Proof.
  destruct c; simpl.
  - by apply footprint_same.
  - unfold bind at 1, body_eqs_array_data, bind, _object_from_ptr,
      tensor_numpy, raise, ret.
    repeat case_match; simplify_eq; try done; by apply footprint_same.
  - unfold bind, body_eqs_array_shape, bind, _object_from_ptr, ret.
    repeat case_match; simplify_eq; try done; by apply footprint_same.
  - unfold bind at 1, body_eqs_array_reshape, bind at 1, _object_from_ptr.
    destruct (objects s !! this) as [[w|]|] eqn:Hw; try done.
    unfold bind at 1.
    pose proof (reshape_spec (array w) shape_ptr s) as Hr.
    case_decide.
    + destruct Hr as (s' & a' & Hr & _ & Ho & _ & [l Hb] & _).
      rewrite Hr. simpl.
      eapply (footprint_target _ _ _ w _ Hw); simpl.
      * intros b f Hf _. rewrite Hb. by apply lookup_app_l_Some.
      * by rewrite Ho.
      * apply reshape_buf in Hr.
        destruct Hr as [Hr|Hr]; [by left|right; simpl; lia].
    + rewrite Hr. by apply footprint_same.
  - unfold bind at 1, body_eqs_array_swap_axes, bind at 1, _object_from_ptr.
    destruct (objects s !! this) as [[w|]|] eqn:Hw; try done.
    unfold bind, swapaxes, raise, ret, set_object.
    repeat case_match; simplify_eq; try (by apply footprint_same);
      (eapply (footprint_target _ _ _ w); simpl; try done; auto).
  - unfold bind at 1.
    destruct (objects s !! this) as [[w|]|] eqn:Hw.
    2,3: unfold body_eqs_array_create, bind, _object_from_ptr;
      by rewrite Hw.
    destruct (known_or_unbound (array w)) as [Hk|[Hn Ht]].
    + destruct (create_ok s this w shape_ptr Hw Hk) as (s0 & o & dev & Hc).
      simpl in Hc. rewrite Hc. simpl.
      eapply footprint_new; simpl; try done.
    + unfold body_eqs_array_create, bind at 1, _object_from_ptr.
      rewrite Hw. unfold bind at 1. rewrite Hn, Ht.
      by apply footprint_same.
  - unfold bind at 1.
    destruct (objects s !! this) as [[w|]|] eqn:Hw.
    2,3: unfold body_eqs_array_copy, bind, _object_from_ptr;
      by rewrite Hw.
    destruct (known_or_unbound (array w)) as [Hk|[Hn Ht]].
    + destruct (copy_ok s this w Hw Hk)
        as (s0 & o & f & ds & k & dev & g & Hc & _).
      simpl in Hc. rewrite Hc. simpl.
      eapply footprint_new; simpl; try done.
    + unfold body_eqs_array_copy, bind at 1, _object_from_ptr.
      rewrite Hw. unfold bind at 1. rewrite Hn, Ht.
      by apply footprint_same.
  - unfold bind at 1, body_eqs_array_destroy, bind at 1,
      _object_from_ptr at 1.
    destruct (objects s !! this) as [[w|]|] eqn:Hw; try done.
    destruct (ob_refcnt w) as [|n] eqn:Hn.
    + unfold Py_DecRef, bind, _object_from_ptr. by rewrite Hw, Hn.
    + rewrite (Py_DecRef_ok _ _ _ _ Hw Hn). simpl.
      eapply (footprint_target _ _ _ w); simpl; try done. auto.
  - unfold body_eqs_array_move_samples_from, bind, _object_from_ptr.
    destruct (objects s !! this) as [[w|]|] eqn:Hw; try done.
    destruct (objects s !! input_ptr) as [[w'|]|] eqn:Hw'; try done.
    unfold getitem_rows, setitem_rows, set_object, ret.
    repeat case_match; simplify_eq; try (by apply footprint_same).
    eapply (footprint_target _ _ _ w); simpl; try done; [|auto].
    intros b f Hf Hne. by rewrite list_lookup_alter_ne.
Qed.

Lemma invoke_footprint (c : invocation) (s s' : state) r :
  invoke c s = Ok s' r → footprint (target c) s s'.
Proof.
  pose proof (invoke_undecorated c s) as Hi.
  pose proof (undecorated_footprint c s) as Hf.
  destruct (undecorated c s) as [s1 r1|s1 e|]; rewrite Hi; intros H;
    simplify_eq; [done|].
  destruct Hf as (H1 & H2 & H3). repeat split; auto.
Qed.

(** ** [copy] *)

Lemma protected_step (T : nat → Prop) (q : nat) (wq : ArrayWrapper)
    (f : Z → elt) (c : invocation) (s s1 : state) r :
  T (target c) → invoke c s = Ok s1 r →
  protected T q wq f s → protected T q wq f s1.
Proof.
  intros Ht Hc (Hq & Hwq & Hf & Hother).
  apply invoke_footprint in Hc as (H1 & H2 & H3).
  split; [done|]. split; [|split].
  - rewrite H2; [done| |by eapply lookup_lt_Some]. by intros ->.
  - apply H1; [done|]. intros w Hw. exact (Hother _ _ Ht Hw).
  - intros p wp Hp Hwp.
    destruct (H3 _ _ Hwp) as [Hold|[(w & Hw & ->)|Hnew]].
    + exact (Hother _ _ Hp Hold).
    + exact (Hother _ _ Ht Hw).
    + apply lookup_lt_Some in Hf. lia.
Qed.

Lemma protected_run (T : nat → Prop) (q : nat) (wq : ArrayWrapper)
    (f : Z → elt) (cs : list invocation) (s s' : state) :
  Forall (fun c => T (target c)) cs → run cs s = Some s' →
  protected T q wq f s → protected T q wq f s'.
Proof.
  intros Hcs. revert s. induction Hcs as [|c cs Hc _ IH]; intros s; simpl.
  - by intros [= <-].
  - destruct (invoke c s) as [s1 r| |] eqn:Hi; try done.
    intros Hrun Hp. eapply IH; [done|]. by eapply protected_step.
Qed.

Lemma protected_read (T : nat → Prop) (q : nat) (wq : ArrayWrapper)
    (f : Z → elt) (s : state) (idx : list nat) :
  protected T q wq f s → read s (array wq) idx = f (address (array wq) idx).
Proof. intros (_ & _ & Hf & _). unfold read. by rewrite Hf. Qed.

(** C9. [copy] returns a new handle, the only reference to a new wrapper,
    whose array has the shape and, index by index, the elements of the
    source at the time of the copy, in a buffer allocated for it. The two
    are independent from then on: no sequence of calls on other handles
    (the source among them) changes an element of the copy, and no
    sequence of calls on the copy changes an element of the source. *)
Theorem copy_is_independent (s : state) (this : nat) (w : ArrayWrapper) :
  objects s !! this = Some (Some w) →
  _shape w = shape (array w) →
  heap_ok s →
  known_kind (array w) = true →
  ∃ s' h w',
    _eqs_array_copy this s = Ok s' (EQS_SUCCESS, Some h) ∧
    eqs_ptr h = length (objects s) ∧
    objects s' !! eqs_ptr h = Some (Some w') ∧
    objects s' !! this = Some (Some w) ∧
    ob_refcnt w' = 1 ∧
    _shape w' = _shape w ∧ shape (array w') = shape (array w) ∧
    kind (array w') = kind (array w) ∧
    dtype_of (array w') = dtype_of (array w) ∧
    buf (array w') = length (buffers s) ∧
    (∀ idx, in_bounds idx (shape (array w)) →
       read s' (array w') idx = read s (array w) idx) ∧
    (∀ idx, read s' (array w) idx = read s (array w) idx) ∧
    (∀ cs s'', Forall (fun c => target c ≠ eqs_ptr h) cs →
       run cs s' = Some s'' →
       objects s'' !! eqs_ptr h = Some (Some w') ∧
       ∀ idx, read s'' (array w') idx = read s' (array w') idx) ∧
    (∀ cs s'', Forall (fun c => target c = eqs_ptr h) cs →
       run cs s' = Some s'' →
       objects s'' !! this = Some (Some w) ∧
       ∀ idx, read s'' (array w) idx = read s' (array w) idx).
Proof.
  intros Hw Hsh Hheap Hk.
  pose proof (lookup_lt_Some _ _ _ Hw) as Hlt.
  pose proof (Hheap _ _ Hw) as Hbuf.
  destruct (copy_ok s this w Hw Hk)
    as (s0 & o & f & ds & k & dev & g & Hc & Hkind & Hds & Hf).
  simpl in Hc.
  set (a' := mk_ndarray k (length (buffers s)) 0 ds (dtype_of (array w)) dev g)
    in *.
  set (w' := mk_wrapper a' (shape a') o 1) in *.
  set (s' := with_objects (objects s ++ [Some w'])
               (with_buffers (buffers s ++ [f]) s0)) in *.
  assert (objects s' !! length (objects s) = Some (Some w')) as Hq
    by (by apply list_lookup_middle).
  assert (objects s' !! this = Some (Some w)) as Hthis
    by (simpl; by rewrite lookup_app_l).
  assert (buffers s' !! length (buffers s) = Some f) as Hbq
    by (by apply list_lookup_middle).
  exists s', (_eqs_array (length (objects s)) w'), w'.
  split. { unfold _eqs_array_copy, catch_exceptions. by rewrite Hc. }
  do 4 (split; [done|]).
  split; [by rewrite Hsh|]. split; [done|]. split; [done|].
  split; [done|]. split; [done|].
  split. { intros idx Hidx. unfold s'. rewrite read_new_buffer by done.
           by apply Hf. }
  split. { intros idx. unfold s'. by rewrite read_old_buffer. }
  split.
  - intros cs s'' Hcs Hrun.
    assert (protected (fun p => p ≠ length (objects s)) (length (objects s))
              w' f s') as Hp.
    { split; [by intros ?|]. split; [done|]. split; [done|].
      intros p wp Hne Hwp. simpl in Hwp.
      apply lookup_app_Some in Hwp as [Hwp|[Hge Hwp]].
      - apply Hheap in Hwp. simpl. lia.
      - apply list_lookup_singleton_Some in Hwp as [Hp0 _]. lia. }
    eapply protected_run in Hp; [|exact Hcs|exact Hrun].
    split; [apply Hp|]. intros idx.
    rewrite (protected_read _ _ _ _ _ _ Hp).
    unfold read. change (buf (array w')) with (length (buffers s)).
    by rewrite Hbq.
  - intros cs s'' Hcs Hrun.
    destruct (lookup_lt_is_Some_2 _ _ Hbuf) as [fw Hfw].
    assert (protected (fun p => p = length (objects s)) this w fw s') as Hp.
    { split; [lia|]. split; [done|]. split.
      - simpl. by apply lookup_app_l_Some.
      - intros p wp -> Hwp. rewrite Hq in Hwp. injection Hwp as <-.
        simpl. lia. }
    eapply protected_run in Hp; [|exact Hcs|exact Hrun].
    split; [apply Hp|]. intros idx.
    rewrite (protected_read _ _ _ _ _ _ Hp).
    unfold read. simpl. by rewrite (lookup_app_l_Some _ _ _ _ Hfw).
Qed.

(** ** The tests of the repository *)

(** [test_move_samples_from], computed: after the call the first sample is
    untouched and the second holds the source in columns 3 to 6. *)
Example test_move_samples_from (x y : elt) :
  ∃ s',
    _eqs_array_move_samples_from 0 1 [mk_sample_mapping 0 1] 3 7
      (test_arrays x y) = Ok s' (EQS_SUCCESS, Some tt) ∧
    read s' (full 0 [2; 3; 8] float64) <$> all_indices [2; 3; 8] =
    [x; x; x; x; x; x; x; x;  x; x; x; x; x; x; x; x;  x; x; x; x; x; x; x; x;
     x; x; x; y; y; y; y; x;  x; x; x; y; y; y; y; x;  x; x; x; y; y; y; y; x].
Proof. eexists. split; [reflexivity|]. vm_compute. reflexivity. Qed.

(** [test_shape] and [test_swap_axes], computed. *)
Example test_swap_axes :
  ∃ s',
    _eqs_array_swap_axes 0 1 3 test_swap_array = Ok s' (EQS_SUCCESS, Some tt) ∧
    _eqs_array_shape 0 s' = Ok s' (EQS_SUCCESS, Some ([2; 23; 18; 3], 4)).
Proof. eexists. split; reflexivity. Qed.


(** ** The origin caches *)

Lemma _origin_numpy_cached (s : state) :
  ∃ s' o, _origin_numpy s = Ok s' o ∧ same_heap s s' ∧
    _NUMPY_STORAGE_ORIGIN s' = Some o ∧
    _TORCH_STORAGE_ORIGIN s' = _TORCH_STORAGE_ORIGIN s ∧
    match _NUMPY_STORAGE_ORIGIN s with
    | Some _ => s' = s
    | None =>
        REGISTERED_DATA_ORIGIN s' =
        REGISTERED_DATA_ORIGIN s ++ [__name__ +:+ ".numpy"]
    end.
Proof.
  unfold _origin_numpy, _register_origin, eqs_register_data_origin, bind.
  destruct (_NUMPY_STORAGE_ORIGIN s) eqn:Hc.
  - by exists s, n.
  - by eexists _, _.
Qed.

Lemma _origin_pytorch_cached (s : state) :
  ∃ s' o, _origin_pytorch s = Ok s' o ∧ same_heap s s' ∧
    _TORCH_STORAGE_ORIGIN s' = Some o ∧
    _NUMPY_STORAGE_ORIGIN s' = _NUMPY_STORAGE_ORIGIN s ∧
    match _TORCH_STORAGE_ORIGIN s with
    | Some _ => s' = s
    | None =>
        REGISTERED_DATA_ORIGIN s' =
        REGISTERED_DATA_ORIGIN s ++ [__name__ +:+ ".torch"]
    end.
Proof.
  unfold _origin_pytorch, _register_origin, eqs_register_data_origin, bind.
  destruct (_TORCH_STORAGE_ORIGIN s) eqn:Hc.
  - by exists s, n.
  - by eexists _, _.
Qed.

(** X1. Each origin is registered at most once. However many times
    [_origin_numpy] is called, every call returns the same tag, which the
    module then holds in its cache; the name is entered in the registry by
    the first call if the cache was empty, and never again. The same holds
    for [_origin_pytorch]; neither touches the cache of the other. *)
Theorem origin_registered_once (n : nat) (s : state) :
  (∃ s1 o,
     calls (S n) _origin_numpy s = Ok s1 (replicate (S n) o) ∧
     _NUMPY_STORAGE_ORIGIN s1 = Some o ∧
     _TORCH_STORAGE_ORIGIN s1 = _TORCH_STORAGE_ORIGIN s ∧
     match _NUMPY_STORAGE_ORIGIN s with
     | Some o' => s1 = s ∧ o = o'
     | None =>
         REGISTERED_DATA_ORIGIN s1 =
         REGISTERED_DATA_ORIGIN s ++ ["equistore.data.array.numpy"]
     end) ∧
  (∃ s1 o,
     calls (S n) _origin_pytorch s = Ok s1 (replicate (S n) o) ∧
     _TORCH_STORAGE_ORIGIN s1 = Some o ∧
     _NUMPY_STORAGE_ORIGIN s1 = _NUMPY_STORAGE_ORIGIN s ∧
     match _TORCH_STORAGE_ORIGIN s with
     | Some o' => s1 = s ∧ o = o'
     | None =>
         REGISTERED_DATA_ORIGIN s1 =
         REGISTERED_DATA_ORIGIN s ++ ["equistore.data.array.torch"]
     end).
Proof.
  assert (∀ m s1 o, _NUMPY_STORAGE_ORIGIN s1 = Some o →
            calls m _origin_numpy s1 = Ok s1 (replicate m o)) as Hn.
  { induction m as [|m IH]; intros s1 o Hc; [done|].
    simpl. unfold bind at 1. unfold _origin_numpy at 1. rewrite Hc.
    unfold bind at 1. by rewrite (IH _ _ Hc). }
  assert (∀ m s1 o, _TORCH_STORAGE_ORIGIN s1 = Some o →
            calls m _origin_pytorch s1 = Ok s1 (replicate m o)) as Ht.
  { induction m as [|m IH]; intros s1 o Hc; [done|].
    simpl. unfold bind at 1. unfold _origin_pytorch at 1. rewrite Hc.
    unfold bind at 1. by rewrite (IH _ _ Hc). }
  split.
  - destruct (_origin_numpy_cached s) as (s1 & o & Hcall & _ & Hc & Hother & Hreg).
    exists s1, o. split.
    { cbn [calls]. unfold bind at 1. rewrite Hcall. unfold bind at 1.
      by rewrite (Hn _ _ _ Hc). }
    split; [done|]. split; [done|].
    destruct (_NUMPY_STORAGE_ORIGIN s) eqn:Hs; [|done].
    subst s1. split; [done|]. congruence.
  - destruct (_origin_pytorch_cached s) as (s1 & o & Hcall & _ & Hc & Hother & Hreg).
    exists s1, o. split.
    { cbn [calls]. unfold bind at 1. rewrite Hcall. unfold bind at 1.
      by rewrite (Ht _ _ _ Hc). }
    split; [done|]. split; [done|].
    destruct (_TORCH_STORAGE_ORIGIN s) eqn:Hs; [|done].
    subst s1. split; [done|]. congruence.
Qed.


(** ** What the constructor and the callbacks do to the wrappers *)

Lemma ArrayWrapper__init___cached (a : ndarray) (s : state) :
  known_kind a = true →
  ∃ s0 o,
    same_heap s s0 ∧
    cached_origin s0 (kind a) = Some o ∧
    (∀ k o', cached_origin s k = Some o' → cached_origin s0 k = Some o') ∧
    ArrayWrapper__init__ (PyArray a) s =
    Ok (with_objects (objects s ++ [Some (mk_wrapper a (shape a) o 1)]) s0)
       (length (objects s)).
Proof.
  intros Hk. destruct (known_kind_cases _ Hk) as [[Hn Hkind]|(Hn & Ht & Hkind & _)].
  - unfold ArrayWrapper__init__. simpl.
    unfold bind at 1. unfold ret at 1. unfold bind. rewrite Hn.
    destruct (_origin_numpy_cached s) as (s0 & o & -> & Hs0 & Hc & Hother & Hreg).
    exists s0, o. split; [done|]. rewrite Hkind. split; [done|]. split.
    + intros [] o' Ho'; simpl in *; [|congruence].
      rewrite Ho' in Hreg. by subst s0.
    + unfold new_object. destruct Hs0 as (_ & -> & _). done.
  - unfold ArrayWrapper__init__. simpl.
    unfold bind at 1. unfold ret at 1. unfold bind. rewrite Hn, Ht.
    destruct (_origin_pytorch_cached s) as (s0 & o & -> & Hs0 & Hc & Hother & Hreg).
    exists s0, o. split; [done|]. rewrite Hkind. split; [done|]. split.
    + intros [] o' Ho'; simpl in *; [congruence|].
      rewrite Ho' in Hreg. by subst s0.
    + unfold new_object. destruct Hs0 as (_ & -> & _). done.
Qed.

Lemma fresh_handle_cached (a : ndarray) (s : state) :
  known_kind a = true →
  ∃ s' o,
    (new_wrapper <- ArrayWrapper__init__ (PyArray a) ;;
     new_array <- into_eqs_array new_wrapper ;;
     del new_wrapper ;;; ret new_array) s =
    Ok s' (_eqs_array (length (objects s)) (mk_wrapper a (shape a) o 1)) ∧
    objects s' = objects s ++ [Some (mk_wrapper a (shape a) o 1)] ∧
    buffers s' = buffers s ∧
    LAST_EXCEPTION s' = LAST_EXCEPTION s ∧
    cached_origin s' (kind a) = Some o ∧
    (∀ k o', cached_origin s k = Some o' → cached_origin s' k = Some o').
Proof.
  intros Hk.
  destruct (ArrayWrapper__init___cached a s Hk)
    as (s0 & o & (Hb & Ho & He) & Hc & Hmono & Hinit).
  eexists _, o. split.
  { unfold bind at 1. rewrite Hinit.
    unfold bind at 1.
    erewrite into_eqs_array_ok.
    2: { simpl. apply list_lookup_middle. done. }
    unfold bind, del. simpl.
    erewrite Py_DecRef_ok.
    2: { simpl. apply list_lookup_insert_eq. rewrite length_app. simpl. lia. }
    2: { done. }
    unfold ret. simpl. reflexivity. }
  simpl. rewrite list_insert_insert_eq.
  rewrite insert_app_r_alt, Nat.sub_diag by done.
  split; [done|]. split; [done|]. split; [done|].
  split; [by destruct (kind a)|].
  intros k o' Ho'. specialize (Hmono k o' Ho'). by destruct k.
Qed.

(** The outcome of [create] and of [copy], with the origin of the new
    wrapper. *)
Lemma create_spec (s : state) (this : nat) (w : ArrayWrapper)
    (shape_ptr : list nat) :
  objects s !! this = Some (Some w) → known_kind (array w) = true →
  ∃ s' o dev,
    let a' := mk_ndarray (kind (array w)) (length (buffers s)) 0
                (c_dims shape_ptr) (dtype_of (array w)) dev false in
    let w' := mk_wrapper a' (shape a') o 1 in
    body_eqs_array_create this shape_ptr s =
      Ok s' (_eqs_array (length (objects s)) w') ∧
    objects s' = objects s ++ [Some w'] ∧
    buffers s' = buffers s ++ [fun _ => zero] ∧
    LAST_EXCEPTION s' = LAST_EXCEPTION s ∧
    dev = (if _is_numpy_array (array w) then "cpu" else device (array w)) ∧
    cached_origin s' (kind (array w)) = Some o ∧
    (∀ k o', cached_origin s k = Some o' → cached_origin s' k = Some o').
Proof.
  intros Hw Hk. unfold body_eqs_array_create.
  unfold bind at 1. unfold _object_from_ptr at 1. rewrite Hw.
  unfold bind at 1.
  destruct (known_kind_cases _ Hk) as [[Hn Hkind]|(Hn & Ht & Hkind & Hhas)];
    rewrite Hn, ?Ht, Hkind.
  - unfold np_zeros, bind at 1, new_buffer, ret at 1.
    match goal with |- context [bind (ArrayWrapper__init__ (PyArray ?a)) _ ?s1] =>
      destruct (fresh_handle_cached a s1)
        as (s' & o & Hfresh & Ho & Hb & He & Hc & Hmono) end.
    { done. }
    exists s', o, "cpu". simpl in *. rewrite Hfresh.
    repeat split; try done.
  - unfold torch_zeros, bind at 1, new_buffer, ret at 1.
    match goal with |- context [bind (ArrayWrapper__init__ (PyArray ?a)) _ ?s1] =>
      destruct (fresh_handle_cached a s1)
        as (s' & o & Hfresh & Ho & Hb & He & Hc & Hmono) end.
    { unfold known_kind, _is_torch_array. by rewrite Hhas. }
    exists s', o, (device (array w)). simpl in *. rewrite Hfresh.
    repeat split; try done.
Qed.

Lemma copy_spec (s : state) (this : nat) (w : ArrayWrapper) :
  objects s !! this = Some (Some w) → known_kind (array w) = true →
  ∃ s' o f ds dev g,
    let a' := mk_ndarray (kind (array w)) (length (buffers s)) 0 ds
                (dtype_of (array w)) dev g in
    let w' := mk_wrapper a' (shape a') o 1 in
    body_eqs_array_copy this s = Ok s' (_eqs_array (length (objects s)) w') ∧
    objects s' = objects s ++ [Some w'] ∧
    buffers s' = buffers s ++ [f] ∧
    LAST_EXCEPTION s' = LAST_EXCEPTION s ∧
    ds.*1 = shape (array w) ∧
    cached_origin s' (kind (array w)) = Some o ∧
    (∀ k o', cached_origin s k = Some o' → cached_origin s' k = Some o').
Proof.
  intros Hw Hk. unfold body_eqs_array_copy.
  unfold bind at 1. unfold _object_from_ptr at 1. rewrite Hw.
  unfold bind at 1.
  destruct (known_kind_cases _ Hk) as [[Hn Hkind]|(Hn & Ht & Hkind & Hhas)];
    rewrite Hn, ?Ht, Hkind.
  - rewrite ndarray_copy_ok.
    match goal with |- context [bind (ArrayWrapper__init__ (PyArray ?a)) _ ?s1] =>
      destruct (fresh_handle_cached a s1)
        as (s' & o & Hfresh & Ho & Hb & He & Hc & Hmono) end.
    { done. }
    exists s', o, (packed s (array w)), (c_dims (shape (array w))), "cpu", false.
    simpl in *. rewrite Hfresh.
    repeat split; try done. apply shape_c_dims.
  - destruct (tensor_clone_ok (array w) s) as (f & ds & -> & Hds & Hf).
    match goal with |- context [bind (ArrayWrapper__init__ (PyArray ?a)) _ ?s1] =>
      destruct (fresh_handle_cached a s1)
        as (s' & o & Hfresh & Ho & Hb & He & Hc & Hmono) end.
    { unfold known_kind, _is_torch_array. by rewrite Hhas. }
    exists s', o, f, ds, (device (array w)), (requires_grad (array w)).
    simpl in *. rewrite Hfresh.
    repeat split; try done.
Qed.


Lemma wrappers_step_same (t : nat) (s s' : state) :
  objects s' = objects s →
  _NUMPY_STORAGE_ORIGIN s' = _NUMPY_STORAGE_ORIGIN s →
  _TORCH_STORAGE_ORIGIN s' = _TORCH_STORAGE_ORIGIN s →
  wrappers_step t s s'.
Proof.
  intros Ho Hn Ht. split.
  - intros [] o; simpl; congruence.
  - intros p w' Hp. left. by rewrite <- Ho.
Qed.

Lemma wrappers_step_target (t : nat) (s s' : state) (w w' : ArrayWrapper) :
  objects s !! t = Some (Some w) →
  objects s' = <[t := Some w']> (objects s) →
  _NUMPY_STORAGE_ORIGIN s' = _NUMPY_STORAGE_ORIGIN s →
  _TORCH_STORAGE_ORIGIN s' = _TORCH_STORAGE_ORIGIN s →
  kind (array w') = kind (array w) →
  array_origin w' = array_origin w →
  (_shape w = shape (array w) → _shape w' = shape (array w')) →
  wrappers_step t s s'.
Proof.
  intros Hw Ho Hn Ht Hk Hor Hsh. split.
  - intros [] o; simpl; congruence.
  - intros p wp. rewrite Ho. intros Hp.
    destruct (decide (p = t)) as [->|Hne].
    + rewrite list_lookup_insert_eq in Hp by (by eapply lookup_lt_Some).
      injection Hp as <-. right. left. by exists w.
    + rewrite list_lookup_insert_ne in Hp by done. by left.
Qed.

Lemma wrappers_step_new (t : nat) (s s' : state) (w wn : ArrayWrapper) :
  objects s !! t = Some (Some w) →
  known_kind (array w) = true →
  objects s' = objects s ++ [Some wn] →
  (∀ k o, cached_origin s k = Some o → cached_origin s' k = Some o) →
  kind (array wn) = kind (array w) →
  _shape wn = shape (array wn) →
  cached_origin s' (kind (array w)) = Some (array_origin wn) →
  wrappers_step t s s'.
Proof.
  intros Hw Hk Ho Hmono Hkind Hsh Hc. split; [done|].
  intros p wp. rewrite Ho. intros Hp.
  apply lookup_app_Some in Hp as [Hp|[_ Hp]]; [by left|].
  apply list_lookup_singleton_Some in Hp as [_ [= <-]].
  right. right. exists w. by rewrite Hkind.
Qed.

Lemma undecorated_wrappers (c : invocation) (s : state) :
  match undecorated c s with
  | Ok s' _ | Raise s' _ => wrappers_step (target c) s s'
  | Fault => True
  end.
Proof.
  destruct c; simpl.
  - by apply wrappers_step_same.
  - unfold bind at 1, body_eqs_array_data, bind, _object_from_ptr,
      tensor_numpy, raise, ret.
    repeat case_match; simplify_eq; try done; by apply wrappers_step_same.
  - unfold bind, body_eqs_array_shape, bind, _object_from_ptr, ret.
    repeat case_match; simplify_eq; try done; by apply wrappers_step_same.
  - unfold bind at 1, body_eqs_array_reshape, bind at 1, _object_from_ptr.
    destruct (objects s !! this) as [[w|]|] eqn:Hw; try done.
    unfold bind at 1.
    pose proof (reshape_spec (array w) shape_ptr s) as Hr.
    case_decide.
    + destruct Hr as (s' & a' & Hr & Hsh & Ho & _ & _ & _ & Hk & _).
      rewrite Hr. simpl.
      eapply (wrappers_step_target _ _ _ w
                (with_shape shape_ptr (with_array a' w)) Hw); simpl; try done.
      * by rewrite Ho.
      * clear -Hr. revert Hr. unfold reshape, raise, ret, bind, new_buffer.
        repeat case_match; intros ?; by simplify_eq.
      * clear -Hr. revert Hr. unfold reshape, raise, ret, bind, new_buffer.
        repeat case_match; intros ?; by simplify_eq.
    + rewrite Hr. by apply wrappers_step_same.
  - unfold bind at 1, body_eqs_array_swap_axes, bind at 1, _object_from_ptr.
    destruct (objects s !! this) as [[w|]|] eqn:Hw; try done.
    unfold bind, swapaxes, raise, ret, set_object.
    repeat case_match; simplify_eq; try (by apply wrappers_step_same);
      (eapply (wrappers_step_target _ _ _ w); simpl; done).
  - unfold bind at 1.
    destruct (objects s !! this) as [[w|]|] eqn:Hw.
    2,3: unfold body_eqs_array_create, bind, _object_from_ptr;
      by rewrite Hw.
    destruct (known_or_unbound (array w)) as [Hk|[Hn Ht]].
    + destruct (create_spec s this w shape_ptr Hw Hk)
        as (s' & o & dev & Hc & Ho & _ & _ & _ & Hcache & Hmono).
      simpl in Hc. rewrite Hc.
      eapply (wrappers_step_new _ _ _ w); simpl; try done.
    + unfold body_eqs_array_create, bind at 1, _object_from_ptr.
      rewrite Hw. unfold bind at 1. rewrite Hn, Ht.
      by apply wrappers_step_same.
  - unfold bind at 1.
    destruct (objects s !! this) as [[w|]|] eqn:Hw.
    2,3: unfold body_eqs_array_copy, bind, _object_from_ptr;
      by rewrite Hw.
    destruct (known_or_unbound (array w)) as [Hk|[Hn Ht]].
    + destruct (copy_spec s this w Hw Hk)
        as (s' & o & f & ds & dev & g & Hc & Ho & _ & _ & _ & Hcache & Hmono).
      simpl in Hc. rewrite Hc.
      eapply (wrappers_step_new _ _ _ w); simpl; try done.
    + unfold body_eqs_array_copy, bind at 1, _object_from_ptr.
      rewrite Hw. unfold bind at 1. rewrite Hn, Ht.
      by apply wrappers_step_same.
  - unfold bind at 1, body_eqs_array_destroy, bind at 1,
      _object_from_ptr at 1.
    destruct (objects s !! this) as [[w|]|] eqn:Hw; try done.
    destruct (ob_refcnt w) as [|n] eqn:Hn.
    + unfold Py_DecRef, bind, _object_from_ptr. by rewrite Hw, Hn.
    + rewrite (Py_DecRef_ok _ _ _ _ Hw Hn). simpl.
      eapply (wrappers_step_target _ _ _ w); simpl; done.
  - unfold body_eqs_array_move_samples_from, bind, _object_from_ptr.
    destruct (objects s !! this) as [[w|]|] eqn:Hw; try done.
    destruct (objects s !! input_ptr) as [[w'|]|] eqn:Hw'; try done.
    unfold getitem_rows, setitem_rows, set_object, ret.
    repeat case_match; simplify_eq; try (by apply wrappers_step_same).
    eapply (wrappers_step_target _ _ _ w); simpl; done.
Qed.

Lemma invoke_wrappers (c : invocation) (s s' : state) r :
  invoke c s = Ok s' r → wrappers_step (target c) s s'.
Proof.
  pose proof (invoke_undecorated c s) as Hi.
  pose proof (undecorated_wrappers c s) as Hf.
  destruct (undecorated c s) as [s1 r1|s1 e|]; rewrite Hi; intros H;
    simplify_eq; [done|].
  destruct Hf as (H1 & H2). split.
  - intros k o. specialize (H1 k o). by destruct k.
  - intros p w' Hp.
    destruct (H2 p w' Hp) as [?|[?|(w & ? & ? & ? & ? & Hc)]];
      [by left|by right; left|].
    right. right. exists w. repeat split; done.
Qed.

Lemma known_kind_kind (a a' : ndarray) :
  kind a' = kind a → known_kind a' = known_kind a.
Proof.
  unfold known_kind, _is_numpy_array, _is_torch_array. by intros ->.
Qed.

Lemma shapes_cached_step (t : nat) (s s' : state) :
  wrappers_step t s s' → shapes_cached s → shapes_cached s'.
Proof.
  intros [_ Hstep] Hinv p w' Hp.
  destruct (Hstep p w' Hp) as [Hold|[(w & Hw & _ & _ & Hsh)|(w & _ & _ & _ & Hsh & _)]].
  - by eapply Hinv.
  - apply Hsh. by eapply Hinv.
  - done.
Qed.

Lemma origins_cached_step (t : nat) (s s' : state) :
  wrappers_step t s s' → origins_cached s → origins_cached s'.
Proof.
  intros [Hmono Hstep] Hinv p w' Hp.
  destruct (Hstep p w' Hp)
    as [Hold|[(w & Hw & Hk & Ho & _)|(w & _ & Hkn & Hk & _ & Hc)]].
  - destruct (Hinv _ _ Hold) as [Hk Hc]. split; [done|]. by apply Hmono.
  - destruct (Hinv _ _ Hw) as [Hkn Hc]. split.
    + by rewrite (known_kind_kind _ _ Hk).
    + rewrite Hk, Ho. by apply Hmono.
  - split; [|done]. by rewrite (known_kind_kind _ _ Hk).
Qed.


Lemma run_preserves (P : state → Prop) :
  (∀ c s s' r, invoke c s = Ok s' r → P s → P s') →
  ∀ cs s s', run cs s = Some s' → P s → P s'.
Proof.
  intros Hstep. induction cs as [|c cs IH]; intros s s'; simpl.
  - by intros [= <-].
  - destruct (invoke c s) as [s1 r| |] eqn:Hc; [|done..].
    intros Hrun HP. eapply IH; [done|]. by eapply Hstep.
Qed.

Lemma ArrayWrapper__init___invariants (a : ndarray) (s : state) :
  known_kind a = true →
  ∃ s1 o,
    ArrayWrapper__init__ (PyArray a) s = Ok s1 (length (objects s)) ∧
    objects s1 = objects s ++ [Some (mk_wrapper a (shape a) o 1)] ∧
    (shapes_cached s → shapes_cached s1) ∧
    (origins_cached s → origins_cached s1).
Proof.
  intros Hk.
  destruct (ArrayWrapper__init___cached a s Hk)
    as (s0 & o & (Hb & Ho & He) & Hc & Hmono & Hinit).
  eexists _, o. split; [exact Hinit|]. simpl. split; [done|]. split.
  - intros Hinv p w Hp. simpl in Hp.
    apply lookup_app_Some in Hp as [Hp|[_ Hp]]; [by eapply Hinv|].
    by apply list_lookup_singleton_Some in Hp as [_ [= <-]].
  - intros Hinv p w Hp. simpl in Hp.
    apply lookup_app_Some in Hp as [Hp|[_ Hp]].
    + destruct (Hinv _ _ Hp) as [Hkw Hcw]. split; [done|].
      specialize (Hmono _ _ Hcw). by destruct (kind (array w)).
    + apply list_lookup_singleton_Some in Hp as [_ [= <-]]. simpl.
      split; [done|]. by destruct (kind a).
Qed.


(** X3. The shape cache never goes stale. If every wrapper caches the shape
    of its array (as in the empty heap), this is still so after any
    sequence of calls (reshapes, swaps of axes, moves of samples among
    them) and after wrapping any further array; [shape] on a live handle
    then succeeds, changes nothing, and reports the shape the array has,
    with its number of dimensions. *)
Theorem shape_reports_array_shape (cs : list invocation) (s s' : state) :
  shapes_cached s → run cs s = Some s' →
  shapes_cached s' ∧
  (∀ a, known_kind a = true →
     ∃ s1, ArrayWrapper__init__ (PyArray a) s' = Ok s1 (length (objects s')) ∧
       shapes_cached s1) ∧
  (∀ this w, objects s' !! this = Some (Some w) →
     _eqs_array_shape this s' =
     Ok s' (EQS_SUCCESS, Some (shape (array w), ndim (array w)))).
Proof.
  intros Hinv Hrun.
  assert (shapes_cached s') as Hinv'.
  { eapply (run_preserves shapes_cached); [|done..].
    intros c s0 s1 r Hc. eapply shapes_cached_step. by eapply invoke_wrappers. }
  split; [done|]. split.
  - intros a Hk.
    destruct (ArrayWrapper__init___invariants a s' Hk)
      as (s1 & o & Hinit & _ & Hsh & _).
    exists s1. split; [done|by apply Hsh].
  - intros this w Hw.
    unfold _eqs_array_shape, catch_exceptions, body_eqs_array_shape, bind,
      _object_from_ptr, ret.
    rewrite Hw, (Hinv' _ _ Hw). unfold ndim, shape. by rewrite length_fmap.
Qed.


(** ** [create] *)

Lemma contiguous_from_c_dims (sh : list nat) :
  contiguous_from (c_dims sh) = (true, Z.of_nat (size sh)).
Proof.
  induction sh as [|d sh IH]; [done|].
  cbn [c_dims contiguous_from]. rewrite IH. f_equal.
  - rewrite Z.eqb_refl. by rewrite orb_true_r.
  - cbn [size foldr]. fold (size sh). lia.
Qed.

Lemma c_contiguous_c_dims (k : backend) (b : nat) (o : Z) (sh : list nat)
    (dt : dtype) (dev : string) (g : bool) :
  c_contiguous (mk_ndarray k b o (c_dims sh) dt dev g) = true.
Proof.
  unfold c_contiguous. simpl. rewrite contiguous_from_c_dims.
  apply orb_true_r.
Qed.



(** ** Failing calls and calls that only ask *)

Lemma undecorated_raise (c : invocation) (s s' : state) (e : exception) :
  undecorated c s = Raise s' e → s' = s.
Proof.
  destruct c; simpl.
  - done.
  - unfold bind at 1, body_eqs_array_data, bind, _object_from_ptr,
      tensor_numpy, raise, ret.
    repeat case_match; intros ?; by simplify_eq.
  - unfold bind, body_eqs_array_shape, bind, _object_from_ptr, ret.
    repeat case_match; intros ?; by simplify_eq.
  - unfold bind at 1, body_eqs_array_reshape, bind at 1, _object_from_ptr.
    destruct (objects s !! this) as [[w|]|] eqn:Hw; try done.
    unfold bind at 1.
    pose proof (reshape_spec (array w) shape_ptr s) as Hr.
    case_decide.
    + destruct Hr as (s1 & a' & -> & _). done.
    + rewrite Hr. by intros [= <-].
  - unfold bind at 1, body_eqs_array_swap_axes, bind at 1, _object_from_ptr.
    destruct (objects s !! this) as [[w|]|] eqn:Hw; try done.
    unfold bind, swapaxes, raise, ret, set_object.
    repeat case_match; intros ?; by simplify_eq.
  - unfold bind at 1.
    destruct (objects s !! this) as [[w|]|] eqn:Hw.
    2,3: unfold body_eqs_array_create, bind, _object_from_ptr;
      by rewrite Hw.
    destruct (known_or_unbound (array w)) as [Hk|[Hn Ht]].
    + destruct (create_ok s this w shape_ptr Hw Hk) as (s0 & o & dev & Hc).
      simpl in Hc. by rewrite Hc.
    + unfold body_eqs_array_create, bind at 1, _object_from_ptr.
      rewrite Hw. unfold bind at 1. rewrite Hn, Ht. by intros [= <-].
  - unfold bind at 1.
    destruct (objects s !! this) as [[w|]|] eqn:Hw.
    2,3: unfold body_eqs_array_copy, bind, _object_from_ptr;
      by rewrite Hw.
    destruct (known_or_unbound (array w)) as [Hk|[Hn Ht]].
    + destruct (copy_ok s this w Hw Hk)
        as (s0 & o & f & ds & k & dev & g & Hc & _).
      simpl in Hc. by rewrite Hc.
    + unfold body_eqs_array_copy, bind at 1, _object_from_ptr.
      rewrite Hw. unfold bind at 1. rewrite Hn, Ht. by intros [= <-].
  - unfold bind at 1, body_eqs_array_destroy, bind at 1,
      _object_from_ptr at 1.
    destruct (objects s !! this) as [[w|]|] eqn:Hw; try done.
    destruct (ob_refcnt w) as [|n] eqn:Hn.
    + unfold Py_DecRef, bind, _object_from_ptr. by rewrite Hw, Hn.
    + by rewrite (Py_DecRef_ok _ _ _ _ Hw Hn).
  - unfold body_eqs_array_move_samples_from, bind, _object_from_ptr.
    destruct (objects s !! this) as [[w|]|] eqn:Hw; try done.
    destruct (objects s !! input_ptr) as [[w'|]|] eqn:Hw'; try done.
    unfold getitem_rows, setitem_rows, set_object, ret.
    repeat case_match; intros ?; by simplify_eq.
Qed.

Lemma undecorated_query (c : invocation) (s s' : state) (r : reply) :
  is_query c = true → undecorated c s = Ok s' r → s' = s.
Proof.
  destruct c; try done; intros _; simpl.
  - by intros [= <-].
  - unfold bind at 1, body_eqs_array_data, bind, _object_from_ptr,
      tensor_numpy, raise, ret.
    repeat case_match; intros ?; by simplify_eq.
  - unfold bind, body_eqs_array_shape, bind, _object_from_ptr, ret.
    repeat case_match; intros ?; by simplify_eq.
Qed.

(** X5. [origin], [shape] and [data] only ask. Whatever they are called on,
    a call that succeeds leaves the whole state as it was, and a call that
    fails leaves it as it was but for the exception it saves: no wrapper, no
    buffer, no count and no origin cache is ever changed by them. *)
Theorem queries_change_nothing (c : invocation) (s s' : state) (status : Z)
    (r : option reply) :
  is_query c = true →
  invoke c s = Ok s' (status, r) →
  (status = EQS_SUCCESS ∧ s' = s ∧ is_Some r) ∨
  (∃ e, status = error_status e ∧ status ≠ EQS_SUCCESS ∧
        s' = _save_exception e s ∧ r = None).
Proof.
  intros Hq Hc. pose proof (invoke_undecorated c s) as Hi.
  destruct (undecorated c s) as [s1 r1|s1 e|] eqn:Hu;
    rewrite Hi in Hc; simplify_eq.
  - left. split; [done|]. split; [by eapply undecorated_query|by eexists].
  - right. exists e. apply undecorated_raise in Hu as ->.
    split; [done|]. split; [apply error_status_nonzero|done].
Qed.

(** X6. A call that fails has no effect. When a callback returns a status
    other than [EQS_SUCCESS] (the destination of a [move_samples_from] not
    being a tensor), the state afterwards is the state before with the
    exception saved: every wrapper, buffer, count and cache is as it was,
    and no result was stored. *)
Theorem failed_call_changes_nothing (c : invocation) (s s' : state)
    (status : Z) (r : option reply) :
  moves_into_tensor s c = false →
  invoke c s = Ok s' (status, r) →
  status ≠ EQS_SUCCESS →
  ∃ e, status = error_status e ∧ s' = _save_exception e s ∧ r = None ∧
    buffers s' = buffers s ∧ objects s' = objects s ∧
    LAST_EXCEPTION s' = Some e.
Proof.
  intros _ Hc Hst. pose proof (invoke_undecorated c s) as Hi.
  destruct (undecorated c s) as [s1 r1|s1 e|] eqn:Hu;
    rewrite Hi in Hc; simplify_eq.
  exists e. apply undecorated_raise in Hu as ->. done.
Qed.


(** ** Axes that do not exist *)

Lemma swapaxes_spec (a : ndarray) (axis_1 axis_2 : nat) (s : state) :
  swapaxes a axis_1 axis_2 s =
  if decide (axis_1 < axis_limit a ∧ axis_2 < axis_limit a)
  then Ok s (with_dims (swap_entries axis_1 axis_2 (dims a)) a)
  else Raise s (swapaxes_error (kind a)).
Proof.
  unfold swapaxes, axis_limit, swapaxes_error.
  destruct (kind a); case_decide as H.
  - destruct H as [H1%Nat.ltb_lt H2%Nat.ltb_lt]. by rewrite H1, H2.
  - destruct (Nat.ltb_spec axis_1 (ndim a)), (Nat.ltb_spec axis_2 (ndim a));
      simpl; try done. exfalso. by apply H.
  - destruct H as [H1%Nat.ltb_lt H2%Nat.ltb_lt]. by rewrite H1, H2.
  - destruct (Nat.ltb_spec axis_1 (max 1 (ndim a))),
      (Nat.ltb_spec axis_2 (max 1 (ndim a)));
      simpl; try done. exfalso. by apply H.
Qed.

Lemma swap_entries_same {A} (i : nat) (l : list A) : swap_entries i i l = l.
Proof.
  unfold swap_entries. destruct (l !! i) eqn:Hx; [|done].
  rewrite list_insert_insert_eq. by apply list_insert_id.
Qed.



(** ** The order of the elements under [reshape] *)

Lemma size_app (l1 l2 : list nat) : size (l1 ++ l2) = size l1 * size l2.
Proof.
  induction l1 as [|x l1 IH]; simpl; [lia|]. fold (size (l1 ++ l2)).
  fold (size l1). rewrite IH. lia.
Qed.

Lemma length_unravel (sh : list nat) (k : nat) :
  length (unravel sh k) = length sh.
Proof. revert k. induction sh as [|d sh IH]; intros k; simpl; [done|]. by rewrite IH. Qed.

Lemma in_bounds_unravel (sh : list nat) (k : nat) :
  k < size sh → in_bounds (unravel sh k) sh.
Proof.
  revert k. induction sh as [|d sh IH]; intros k; simpl; [constructor|].
  fold (size sh). intros Hk.
  assert (0 < size sh) by (destruct (size sh); lia).
  constructor.
  - apply Nat.Div0.div_lt_upper_bound. lia.
  - apply IH. by apply Nat.mod_upper_bound; lia.
Qed.

Lemma ravel_unravel (sh : list nat) (k : nat) :
  k < size sh → ravel sh (unravel sh k) = k.
Proof.
  revert k. induction sh as [|d sh IH]; intros k; simpl; [lia|].
  fold (size sh). intros Hk.
  assert (0 < size sh) by (destruct (size sh); lia).
  rewrite IH by (apply Nat.mod_upper_bound; lia).
  pose proof (Nat.div_mod_eq k (size sh)). lia.
Qed.

Lemma unravel_app (g n : list nat) (k : nat) :
  k < size g * size n →
  unravel (g ++ n) k =
  unravel g (k / size n) ++ unravel n (k mod size n).
Proof.
  revert k. induction g as [|x g IH]; intros k Hk; simpl.
  - simpl in Hk. by rewrite Nat.mod_small by lia.
  - simpl in Hk. fold (size g) in Hk. fold (size (g ++ n)). fold (size g).
    rewrite size_app.
    assert (0 < size n) by (destruct (size n); lia).
    assert (0 < size g) by (destruct (size g); lia).
    rewrite IH by (apply Nat.mod_upper_bound; lia).
    rewrite (Nat.mul_comm (size g) (size n)).
    rewrite Nat.Div0.div_div. f_equal. f_equal.
    + f_equal. rewrite Nat.Div0.mod_mul_r.
      rewrite Nat.mul_comm, Nat.div_add by lia.
      rewrite (Nat.div_small (k mod size n)) by (apply Nat.mod_upper_bound; lia).
      done.
    + f_equal. rewrite Nat.Div0.mod_mul_r.
      rewrite Nat.mul_comm, Nat.Div0.mod_add.
      apply Nat.Div0.mod_mod.
Qed.

Lemma dot_unravel_0 (sh : list nat) (ds : list (nat * Z)) :
  dot (unravel sh 0) ds = 0%Z.
Proof.
  revert ds. induction sh as [|d sh IH]; intros [|[d' s] ds]; simpl; try done.
  rewrite Nat.Div0.div_0_l, Nat.Div0.mod_0_l, IH. lia.
Qed.

Lemma group_strides_snd (gn : list nat) (inner : Z) :
  (group_strides gn inner).2 = (inner * Z.of_nat (size gn))%Z.
Proof.
  induction gn as [|n gn IH]; simpl; [lia|].
  destruct (group_strides gn inner) as [r s]. simpl in *. fold (size gn).
  rewrite IH. lia.
Qed.

Lemma dot_group_strides (gn : list nat) (inner : Z) (q : nat) :
  q < size gn →
  dot (unravel gn q) (group_strides gn inner).1 = (inner * Z.of_nat q)%Z.
Proof.
  revert q. induction gn as [|n gn IH]; intros q; simpl.
  - intros Hq. assert (q = 0) as -> by lia. lia.
  - fold (size gn). intros Hq.
    assert (0 < size gn) by (destruct (size gn); lia).
    pose proof (group_strides_snd gn inner) as Hs.
    specialize (IH (q mod size gn)).
    destruct (group_strides gn inner) as [r s]. simpl in *.
    rewrite IH by (apply Nat.mod_upper_bound; lia). rewrite Hs.
    pose proof (Nat.div_mod_eq q (size gn)) as Hdm.
    set (A := q / size gn) in *. set (B := q mod size gn) in *.
    replace (Z.of_nat q) with (Z.of_nat (size gn) * Z.of_nat A + Z.of_nat B)%Z
      by lia.
    ring.
Qed.

(** In a group of old dimensions that can be merged, every stride is the
    innermost stride times the number of elements of the dimensions after
    it. *)
Lemma dot_combinable (go : list (nat * Z)) (o : nat * Z) (q : nat) :
  go ≠ [] → combinable go = true →
  (∀ d s, head go = Some (d, s) →
     s = ((List.last go o).2 * Z.of_nat (size (tail go).*1))%Z) ∧
  (q < size go.*1 →
   dot (unravel go.*1 q) go = ((List.last go o).2 * Z.of_nat q)%Z).
Proof.
  revert q. induction go as [|[d s] go IH]; intros q Hne Hc; [done|].
  destruct go as [|[d' s'] go].
  - split.
    + intros ?? [= <- <-]. simpl. lia.
    + intros _. cbn [fmap list_fmap fst unravel dot size foldr List.last snd].
      rewrite Nat.div_1_r. lia.
  - cbn [combinable] in Hc. apply andb_true_iff in Hc as [Hs Hc].
    apply Z.eqb_eq in Hs.
    assert (List.last ((d, s) :: (d', s') :: go) o =
            List.last ((d', s') :: go) o) as Hlast by done.
    rewrite Hlast.
    destruct (IH (q mod size ((d', s') :: go).*1) ltac:(done) Hc)
      as [Hhead Hdot].
    specialize (Hhead d' s' eq_refl).
    assert (s = ((List.last ((d', s') :: go) o).2 *
                 Z.of_nat (size ((d', s') :: go).*1))%Z) as Hstride.
    { rewrite Hs. rewrite Hhead at 1. cbn [tail fmap list_fmap fst size foldr].
      fold (size go.*1). lia. }
    split.
    + intros ?? [= <- <-]. exact Hstride.
    + intros Hq.
      change (((d, s) :: (d', s') :: go).*1) with (d :: ((d', s') :: go).*1) in *.
      cbn [unravel dot]. cbn [size foldr] in Hq.
      fold (size ((d', s') :: go).*1) in *.
      set (N := size ((d', s') :: go).*1) in *.
      assert (0 < N) by (destruct N; lia).
      rewrite Hdot by (apply Nat.mod_upper_bound; lia).
      rewrite Hstride.
      pose proof (Nat.div_mod_eq q N) as Hdm.
      set (A := q / N) in *. set (B := q mod N) in *.
      replace (Z.of_nat q) with (Z.of_nat N * Z.of_nat A + Z.of_nat B)%Z by lia.
      ring.
Qed.

Lemma grow_prefix (fuel np op : nat) (gn : list nat) (go : list (nat * Z))
    (news : list nat) (olds : list (nat * Z)) gn' go' news' olds' :
  grow fuel np op gn go news olds = Some (gn', go', news', olds') →
  np = size gn → op = size go.*1 →
  size gn' = size go'.*1 ∧
  ∃ x y, gn' = gn ++ x ∧ go' = go ++ y ∧ news = x ++ news' ∧ olds = y ++ olds'.
Proof.
  revert np op gn go news olds.
  induction fuel as [|fuel IH]; intros np op gn go news olds; simpl.
  - destruct (np =? op) eqn:He; [|done]. apply Nat.eqb_eq in He.
    intros [= <- <- <- <-] -> ->. split; [done|].
    exists [], []. by rewrite !app_nil_r.
  - destruct (np =? op) eqn:He.
    { apply Nat.eqb_eq in He.
      intros [= <- <- <- <-] -> ->. split; [done|].
      exists [], []. by rewrite !app_nil_r. }
    destruct (np <? op).
    + destruct news as [|n news]; [done|]. intros H Hnp Hop.
      apply IH in H as (Hsz & x & y & -> & -> & -> & ->); [| |done].
      * split; [done|]. exists (n :: x), y. by rewrite <- !app_assoc.
      * rewrite size_app, Hnp. simpl. lia.
    + destruct olds as [|o olds]; [done|]. intros H Hnp Hop.
      apply IH in H as (Hsz & x & y & -> & -> & -> & ->); [|done|].
      * split; [done|]. exists x, (o :: y). by rewrite <- !app_assoc.
      * rewrite fmap_app, size_app, Hop. simpl. lia.
Qed.

Lemma nocopy_groups_order (fuel : nat) (news : list nat)
    (olds : list (nat * Z)) (ls : Z) (ds : list (nat * Z)) (k : nat) :
  nocopy_groups fuel news olds ls = Some ds →
  size news = size olds.*1 →
  k < size news →
  dot (unravel news k) ds = dot (unravel olds.*1 k) olds.
Proof.
  assert (∀ (news : list nat) (olds : list (nat * Z)) ds0 k0,
            news = [] ∨ olds = [] →
            size news = size olds.*1 → k0 < size news →
            dot (unravel news k0) ds0 = dot (unravel olds.*1 k0) olds) as Hbase.
  { intros news0 olds0 ds0 k0 Hor Hsz Hk0.
    assert (k0 = 0) as ->.
    { destruct Hor as [->| ->]; simpl in *; lia. }
    by rewrite !dot_unravel_0. }
  revert news olds ls ds k.
  induction fuel as [|fuel IH]; intros news olds ls ds k.
  - destruct news as [|n news], olds as [|o olds]; cbn [nocopy_groups];
      try done; intros _; apply Hbase; auto.
  - destruct news as [|n news], olds as [|o olds]; cbn [nocopy_groups];
      try (intros _; apply Hbase; by auto).
    destruct (grow _ _ _ _ _ _ _) as [[[[gn go] news''] olds'']|] eqn:Hg;
      [|done].
    destruct (combinable go) eqn:Hcomb; [|done].
    destruct (nocopy_groups fuel news'' olds'' _) as [rest|] eqn:Hr; [|done].
    intros [= <-] Hsz Hk.
    apply grow_prefix in Hg as (HG & x & y & -> & -> & -> & ->);
      [|simpl; lia|simpl; lia].
    change (n :: x ++ news'') with (([n] ++ x) ++ news'') in *.
    change (o :: y ++ olds'') with (([o] ++ y) ++ olds'') in *.
    set (gn := [n] ++ x) in *. set (go := [o] ++ y) in *.
    rewrite fmap_app in *. rewrite size_app in Hsz, Hk.
    rewrite size_app in Hsz.
    assert (0 < size gn) by (destruct (size gn); lia).
    assert (0 < size news'') by (destruct (size news''); lia).
    assert (size news'' = size olds''.*1) as HN.
    { rewrite <- HG in Hsz. by apply Nat.mul_cancel_l in Hsz; [|lia]. }
    rewrite !unravel_app by (rewrite <- ?HG, <- ?HN; lia).
    rewrite !dot_app.
    2: { by rewrite length_unravel, length_fmap. }
    2: { rewrite length_unravel. rewrite <- (group_strides_fst gn (List.last go o).2) at 1.
         by rewrite length_fmap. }
    rewrite <- HN.
    rewrite dot_group_strides.
    2: { apply Nat.Div0.div_lt_upper_bound. lia. }
    destruct (dot_combinable go o (k / size news'')) as [_ Hdot]; [done|done|].
    rewrite Hdot.
    2: { rewrite <- HG. apply Nat.Div0.div_lt_upper_bound. lia. }
    f_equal. eapply IH; [done|done|]. apply Nat.mod_upper_bound. lia.
Qed.

Lemma size_cons (d : nat) (sh : list nat) : size (d :: sh) = d * size sh.
Proof. done. Qed.

Lemma size_filter_ones (ds : list (nat * Z)) :
  size (filter (fun d => d.1 ≠ 1) ds).*1 = size ds.*1.
Proof.
  induction ds as [|[d s] ds IH]; [done|].
  rewrite filter_cons. case_decide as Hd.
  - rewrite !fmap_cons, !size_cons. by rewrite IH.
  - rewrite fmap_cons, size_cons, IH. cbn [fst] in *.
    destruct (decide (d = 1)) as [->|]; [lia|done].
Qed.

Lemma dot_filter_ones (ds : list (nat * Z)) (k : nat) :
  k < size ds.*1 →
  dot (unravel (filter (fun d => d.1 ≠ 1) ds).*1 k)
    (filter (fun d => d.1 ≠ 1) ds) =
  dot (unravel ds.*1 k) ds.
Proof.
  revert k. induction ds as [|[d s] ds IH]; intros k; [done|].
  rewrite filter_cons, !fmap_cons, size_cons. cbn [fst]. intros Hk.
  assert (0 < size ds.*1) by (destruct (size ds.*1); lia).
  case_decide as Hd.
  - rewrite fmap_cons. cbn [fst unravel dot].
    rewrite size_filter_ones.
    rewrite IH by (apply Nat.mod_upper_bound; lia). done.
  - destruct (decide (d = 1)) as [->|]; [|done].
    cbn [unravel dot].
    rewrite Nat.div_small, Nat.mod_small by lia.
    rewrite IH by lia. lia.
Qed.

Lemma attempt_nocopy_reshape_order (a : ndarray) (newshape : list nat)
    (ds : list (nat * Z)) (k : nat) :
  attempt_nocopy_reshape a newshape = Some ds →
  size newshape = size (shape a) → k < size newshape →
  dot (unravel newshape k) ds = dot (unravel (shape a) k) (dims a).
Proof.
  unfold attempt_nocopy_reshape, shape. intros Hnc Hsz Hk.
  rewrite <- dot_filter_ones by lia.
  eapply nocopy_groups_order; [done| |done].
  by rewrite size_filter_ones.
Qed.

Lemma contiguous_from_snd (ds : list (nat * Z)) :
  (contiguous_from ds).2 = Z.of_nat (size ds.*1).
Proof.
  induction ds as [|[d s] ds IH]; [done|].
  cbn [contiguous_from]. rewrite fmap_cons, size_cons.
  destruct (contiguous_from ds) as [ok sd]. cbn [fst snd] in *.
  rewrite IH. lia.
Qed.

Lemma dot_contiguous (ds : list (nat * Z)) (idx : list nat) :
  (contiguous_from ds).1 = true → in_bounds idx ds.*1 →
  dot idx ds = Z.of_nat (ravel ds.*1 idx).
Proof.
  revert idx. induction ds as [|[d s] ds IH]; intros idx Hc Hidx.
  - by inversion Hidx.
  - rewrite fmap_cons in Hidx. cbn [fst] in Hidx.
    inversion Hidx as [|i ? t ? Hi Ht]; subst.
    pose proof (contiguous_from_snd ds) as Hsd.
    cbn [contiguous_from] in Hc.
    destruct (contiguous_from ds) as [ok sd]. cbn [fst snd] in *.
    apply andb_true_iff in Hc as [Hok Hs].
    rewrite fmap_cons. cbn [fst ravel dot].
    rewrite IH by done.
    apply orb_true_iff in Hs as [Hd|Hs].
    + apply Nat.eqb_eq in Hd. subst d. assert (i = 0) as -> by lia. lia.
    + apply Z.eqb_eq in Hs. subst. lia.
Qed.

Lemma c_contiguous_dot (a : ndarray) (idx : list nat) :
  c_contiguous a = true → in_bounds idx (shape a) →
  dot idx (dims a) = Z.of_nat (ravel (shape a) idx).
Proof.
  unfold c_contiguous, shape. intros Hc Hidx.
  apply orb_true_iff in Hc as [Hz|Hc]; [|by apply dot_contiguous].
  exfalso. apply existsb_exists in Hz as ([d s] & Hin & Hd).
  simpl in Hd. apply Nat.eqb_eq in Hd. subst d.
  apply list_elem_of_In in Hin.
  apply list_elem_of_lookup in Hin as [j Hj].
  assert (((dims a).*1) !! j = Some 0) as Hj' by (by rewrite list_lookup_fmap, Hj).
  destruct (Forall2_lookup_r _ _ _ _ _ Hidx Hj') as (i & _ & Hlt). lia.
Qed.

(** Whatever way [reshape] takes (the same array, new strides on the same
    storage, or a packed copy), the element at a row-major position of the
    result is the element at that position of the array. *)
Lemma reshape_order (a : ndarray) (newshape : list nat) (s s' : state)
    (a' : ndarray) (k : nat) :
  reshape a newshape s = Ok s' a' → k < size newshape →
  read s' a' (unravel newshape k) = read s a (unravel (shape a) k).
Proof.
  unfold reshape. destruct (size newshape =? size (shape a)) eqn:Hsz; [|done].
  apply Nat.eqb_eq in Hsz. simpl.
  case_bool_decide as Hsame.
  { intros [= <- <-] _. by rewrite Hsame. }
  destruct (c_contiguous a) eqn:Hc.
  { intros [= <- <-] Hk. unfold read, address. simpl. f_equal. f_equal.
    rewrite dot_c_dims by (by apply in_bounds_unravel).
    rewrite c_contiguous_dot;
      [|done|apply in_bounds_unravel; by rewrite <- Hsz].
    rewrite !ravel_unravel by (by rewrite <- ?Hsz). done. }
  destruct (attempt_nocopy_reshape a newshape) as [ds|] eqn:Hnc.
  { intros [= <- <-] Hk. unfold read, address. simpl. f_equal. f_equal.
    by apply attempt_nocopy_reshape_order. }
  unfold bind, new_buffer, ret. intros [= <- <-] Hk.
  unfold read at 1, address. simpl.
  rewrite list_lookup_middle by done. simpl. unfold packed.
  rewrite dot_c_dims by (by apply in_bounds_unravel).
  rewrite ravel_unravel by done. by rewrite Z.add_0_l, Nat2Z.id.
Qed.

Lemma read_with_objects (o : list (option ArrayWrapper)) (s : state)
    (a : ndarray) (idx : list nat) :
  read (with_objects o s) a idx = read s a idx.
Proof. done. Qed.

Lemma reshape_call (s : state) (this : nat) (w : ArrayWrapper)
    (shape_ptr : list nat) :
  objects s !! this = Some (Some w) →
  size shape_ptr = size (shape (array w)) →
  ∃ s1 a',
    reshape (array w) shape_ptr s = Ok s1 a' ∧
    _eqs_array_reshape this shape_ptr s =
      Ok (with_objects
            (<[this := Some (with_shape shape_ptr (with_array a' w))]>
               (objects s)) s1)
         (EQS_SUCCESS, Some tt) ∧
    shape a' = shape_ptr ∧
    (∃ l, buffers s1 = buffers s ++ l) ∧
    (c_contiguous (array w) = true →
     s1 = s ∧ buf a' = buf (array w) ∧ offset a' = offset (array w)).
Proof.
  intros Hw Hsz.
  pose proof (reshape_spec (array w) shape_ptr s) as Hr.
  rewrite decide_True in Hr by done.
  destruct Hr as (s1 & a' & Hr & Hsh & Ho & _ & Hb & _).
  exists s1, a'. split; [done|]. split.
  { unfold _eqs_array_reshape, catch_exceptions, body_eqs_array_reshape.
    unfold bind at 1. unfold _object_from_ptr at 1. rewrite Hw.
    unfold bind at 1. rewrite Hr. unfold set_object. by rewrite Ho. }
  split; [done|]. split; [done|].
  intros Hc. revert Hr. unfold reshape.
  rewrite (proj2 (Nat.eqb_eq _ _) Hsz). simpl. rewrite Hc.
  case_bool_decide; by intros [= <- <-].
Qed.




(** ** What [move_samples_from] refuses *)

Lemma broadcastable_last (l : nat) (mid : list nat) (w w' : nat) :
  broadcastable (l :: mid ++ [w]) (l :: mid ++ [w']) =
  (w =? w') || (w =? 1).
Proof.
  unfold broadcastable. cbn [length]. rewrite !length_app. cbn [length].
  rewrite Nat.sub_diag. cbn [strip_leading_ones].
  cbn [length]. rewrite !length_app. cbn [length].
  rewrite Nat.sub_diag, drop_0.
  cbn [zip zip_with forallb fst snd]. rewrite Nat.eqb_refl. simpl.
  induction mid as [|d mid IH]; simpl.
  - by rewrite andb_true_r.
  - by rewrite Nat.eqb_refl.
Qed.



(** ** Reference counts across calls *)

Lemma undecorated_counts (c : invocation) (s : state) (p : nat)
    (w : ArrayWrapper) :
  objects s !! p = Some (Some w) →
  match undecorated c s with
  | Ok s' _ =>
      ∃ w', objects s' !! p = Some (Some w') ∧
        ob_refcnt w' + destroys p [c] = ob_refcnt w
  | Raise s' _ => s' = s ∧ destroys p [c] = 0
  | Fault => True
  end.
Proof.
  intros Hp.
  assert (∀ s' t w0 w1,
            objects s !! t = Some (Some w0) →
            objects s' = <[t := Some w1]> (objects s) →
            ob_refcnt w1 = ob_refcnt w0 →
            ∃ w', objects s' !! p = Some (Some w') ∧
              ob_refcnt w' + 0 = ob_refcnt w) as Htarget.
  { intros s' t w0 w1 Ht Ho Hc. rewrite Ho.
    destruct (decide (p = t)) as [->|Hne].
    - rewrite list_lookup_insert_eq by (by eapply lookup_lt_Some).
      exists w1. split; [done|]. rewrite Hp in Ht. injection Ht as <-. lia.
    - rewrite list_lookup_insert_ne by done. exists w. split; [done|lia]. }
  assert (∀ s' wn,
            objects s' = objects s ++ [Some wn] →
            ∃ w', objects s' !! p = Some (Some w') ∧
              ob_refcnt w' + 0 = ob_refcnt w) as Hnew.
  { intros s' wn Ho. rewrite Ho. exists w.
    split; [by apply lookup_app_l_Some|lia]. }
  assert (∃ w', objects s !! p = Some (Some w') ∧
            ob_refcnt w' + 0 = ob_refcnt w) as Hsame.
  { exists w. split; [done|lia]. }
  pose proof (undecorated_raise c s) as Hraise.
  destruct c; simpl in *.
  - done.
  - destruct (bind (body_eqs_array_data this) _ s) as [s' r|s' e|] eqn:Hc;
      [|split; [by eapply Hraise|done]|done].
    rewrite (undecorated_query (call_data this) s s' r eq_refl Hc). done.
  - destruct (bind (body_eqs_array_shape this) _ s) as [s' r|s' e|] eqn:Hc;
      [|split; [by eapply Hraise|done]|done].
    rewrite (undecorated_query (call_shape this) s s' r eq_refl Hc). done.
  - destruct (bind (body_eqs_array_reshape this shape_ptr) _ s)
      as [s' r|s' e|] eqn:Hc; [|split; [by eapply Hraise|done]|done].
    revert Hc.
    unfold bind at 1, body_eqs_array_reshape, bind at 1, _object_from_ptr.
    destruct (objects s !! this) as [[w0|]|] eqn:Hw; try done.
    unfold bind at 1.
    pose proof (reshape_spec (array w0) shape_ptr s) as Hr.
    case_decide; [|by rewrite Hr].
    destruct Hr as (s1 & a' & -> & _ & Ho & _). simpl.
    intros [= <- <-]. eapply (Htarget _ this w0); simpl; [done|by rewrite Ho|done].
  - destruct (bind (body_eqs_array_swap_axes this axis_1 axis_2) _ s)
      as [s' r|s' e|] eqn:Hc; [|split; [by eapply Hraise|done]|done].
    revert Hc.
    unfold bind at 1, body_eqs_array_swap_axes, bind at 1, _object_from_ptr.
    destruct (objects s !! this) as [[w0|]|] eqn:Hw; try done.
    unfold bind at 1. rewrite swapaxes_spec. case_decide; [|done].
    unfold set_object. simpl. intros [= <- <-].
    eapply (Htarget _ this w0); simpl; done.
  - destruct (bind (body_eqs_array_create this shape_ptr) _ s)
      as [s' r|s' e|] eqn:Hc; [|split; [by eapply Hraise|done]|done].
    revert Hc. unfold bind at 1.
    destruct (objects s !! this) as [[w0|]|] eqn:Hw.
    2,3: unfold body_eqs_array_create, bind, _object_from_ptr;
      by rewrite Hw.
    destruct (known_or_unbound (array w0)) as [Hk|[Hn Ht]].
    + destruct (create_spec s this w0 shape_ptr Hw Hk)
        as (s1 & o & dev & Hcr & Ho & _).
      simpl in Hcr, Ho. rewrite Hcr. intros [= <- <-]. by eapply Hnew.
    + unfold body_eqs_array_create, bind at 1, _object_from_ptr.
      rewrite Hw. unfold bind at 1. by rewrite Hn, Ht.
  - destruct (bind (body_eqs_array_copy this) _ s)
      as [s' r|s' e|] eqn:Hc; [|split; [by eapply Hraise|done]|done].
    revert Hc. unfold bind at 1.
    destruct (objects s !! this) as [[w0|]|] eqn:Hw.
    2,3: unfold body_eqs_array_copy, bind, _object_from_ptr;
      by rewrite Hw.
    destruct (known_or_unbound (array w0)) as [Hk|[Hn Ht]].
    + destruct (copy_spec s this w0 Hw Hk)
        as (s1 & o & f & ds & dev & g & Hcp & Ho & _).
      simpl in Hcp, Ho. rewrite Hcp. intros [= <- <-]. by eapply Hnew.
    + unfold body_eqs_array_copy, bind at 1, _object_from_ptr.
      rewrite Hw. unfold bind at 1. by rewrite Hn, Ht.
  - unfold bind at 1, body_eqs_array_destroy, bind at 1,
      _object_from_ptr at 1.
    destruct (objects s !! this) as [[w0|]|] eqn:Hw; try done.
    destruct (ob_refcnt w0) as [|n] eqn:Hn.
    { unfold Py_DecRef, bind, _object_from_ptr. by rewrite Hw, Hn. }
    rewrite (Py_DecRef_ok _ _ _ _ Hw Hn). simpl.
    destruct (Nat.eqb_spec this p) as [->|Hne].
    + rewrite list_lookup_insert_eq by (by eapply lookup_lt_Some).
      eexists. split; [done|]. simpl. rewrite Hp in Hw. injection Hw as <-.
      lia.
    + rewrite list_lookup_insert_ne by done. exists w. split; [done|lia].
  - destruct (bind (body_eqs_array_move_samples_from _ _ _ _ _) _ s)
      as [s' r|s' e|] eqn:Hc; [|split; [by eapply Hraise|done]|done].
    revert Hc.
    unfold body_eqs_array_move_samples_from, bind, _object_from_ptr.
    destruct (objects s !! this) as [[w0|]|] eqn:Hw; try done.
    destruct (objects s !! input_ptr) as [[w1|]|] eqn:Hw'; try done.
    unfold getitem_rows, setitem_rows, set_object, ret.
    repeat case_match; intros ?; simplify_eq.
    eapply (Htarget _ this w0); simpl; done.
Qed.

Lemma destroys_cons (p : nat) (c : invocation) (cs : list invocation) :
  destroys p (c :: cs) = destroys p [c] + destroys p cs.
Proof. destruct c; simpl; lia. Qed.

(** X16. Only [destroy] changes a reference count, and no callback removes
    a wrapper from the store (freeing is left to the collector). After any
    sequence of calls that the bridge survives, a wrapper that was live is
    still there, and its count is the count it had minus the number of
    [destroy] calls made on its handle in the sequence: no other callback,
    on this handle or on another, touches the count. *)
Theorem counts_follow_destroys (cs : list invocation) (s s' : state)
    (p : nat) (w : ArrayWrapper) :
  run cs s = Some s' →
  objects s !! p = Some (Some w) →
  ∃ w', objects s' !! p = Some (Some w') ∧
    ob_refcnt w' + destroys p cs = ob_refcnt w.
Proof.
  revert s w. induction cs as [|c cs IH]; intros s w; simpl run.
  - intros [= <-] Hp. exists w. split; [done|]. simpl. lia.
  - pose proof (invoke_undecorated c s) as Hi.
    intros Hrun Hp.
    pose proof (undecorated_counts c s p w Hp) as Hstep.
    destruct (undecorated c s) as [s1 r|s1 e|]; rewrite Hi in Hrun;
      [| |done].
    + destruct Hstep as (w1 & Hw1 & Hc1).
      destruct (IH _ _ Hrun Hw1) as (w' & Hw' & Hc').
      exists w'. split; [done|]. rewrite destroys_cons. lia.
    + destruct Hstep as [-> Hd].
      destruct (IH (_save_exception e s) w Hrun Hp) as (w' & Hw' & Hc').
      exists w'. split; [done|]. rewrite destroys_cons. lia.
Qed.


(** ** [data] on the arrays the bridge makes *)

Lemma data_ok (s : state) (p : nat) (w : ArrayWrapper) :
  objects s !! p = Some (Some w) →
  known_kind (array w) = true →
  (kind (array w) = Torch →
   device (array w) = "cpu" ∧ requires_grad (array w) = false) →
  c_contiguous (array w) = true →
  dtype_of (array w) = float64 →
  _eqs_array_data p s =
  Ok s (EQS_SUCCESS, Some (buf (array w), offset (array w))).
Proof.
  intros Hp Hk Ht Hc Hd.
  unfold _eqs_array_data, catch_exceptions, body_eqs_array_data.
  unfold bind at 1. unfold _object_from_ptr at 1. rewrite Hp.
  unfold bind, known_kind in *.
  unfold _is_numpy_array, _is_torch_array in *.
  destruct (kind (array w)) eqn:Hkind; simpl in *.
  - unfold ret. rewrite Hc, Hd. done.
  - destruct HAS_TORCH; simpl in *; [|done].
    destruct (Ht eq_refl) as [Hdev Hg].
    unfold tensor_numpy. rewrite Hdev, Hg. simpl.
    unfold ret. simpl. unfold c_contiguous in *. simpl in *.
    rewrite Hc, Hd. done.
Qed.

Lemma copy_numpy (s : state) (this : nat) (w : ArrayWrapper) :
  objects s !! this = Some (Some w) → kind (array w) = Numpy →
  ∃ s' o,
    let a' := mk_ndarray Numpy (length (buffers s)) 0
                (c_dims (shape (array w))) (dtype_of (array w)) "cpu" false in
    let w' := mk_wrapper a' (shape a') o 1 in
    body_eqs_array_copy this s = Ok s' (_eqs_array (length (objects s)) w') ∧
    objects s' = objects s ++ [Some w'].
Proof.
  intros Hw Hkind. unfold body_eqs_array_copy.
  unfold bind at 1. unfold _object_from_ptr at 1. rewrite Hw.
  unfold bind at 1.
  assert (_is_numpy_array (array w) = true) as ->
    by (unfold _is_numpy_array; by rewrite bool_decide_eq_true_2).
  rewrite ndarray_copy_ok.
  match goal with |- context [bind (ArrayWrapper__init__ (PyArray ?a)) _ ?s1] =>
    destruct (fresh_handle_cached a s1)
      as (s' & o & Hfresh & Ho & _) end.
  { done. }
  exists s', o. simpl in *. by rewrite Hfresh.
Qed.


End Bridge.

Arguments Ok {elt A} s a.
Arguments Raise {elt A} s e.
Arguments Fault {elt A}.
Arguments buffers {elt} s.
Arguments objects {elt} s.
Arguments LAST_EXCEPTION {elt} s.
Arguments _save_exception {elt} e s.
Arguments reachable {elt} s p.
Arguments collectible {elt} s p.
Arguments gc_collect {elt} s.
Arguments heap_ok {elt} s.
Arguments handles_live {elt} s c.
Arguments valid_arguments {elt} s w c.

(** ** The tests of the repository, and others *)

Lemma python_error_nonzero : ∀ e, python_error e ≠ EQS_SUCCESS.
Proof. intros e. unfold python_error, EQS_SUCCESS. lia. Qed.



(** [data] on the int32 view: the exception is caught and reported. *)
Lemma callbacks_never_raise_test :
  (∀ e, python_error e ≠ EQS_SUCCESS) ∧
  invoke Z 0%Z no_cast true python_error (call_data 1) (other_arrays Z 0%Z) =
  Ok (_save_exception
        (ValueError "can not get data pointer for non contiguous array")
        (other_arrays Z 0%Z))
     ((-1)%Z, None).
Proof.
  split; [exact python_error_nonzero|].
  destruct (callbacks_never_raise Z 0%Z no_cast true python_error
              python_error_nonzero (call_data 1) (other_arrays Z 0%Z))
    as (_ & H & _).
  exact (proj1 H).
Defined.




(** A second handle for the first array of the tests raises its count from
    one to two; a handle for a copy has a count of one of its own. *)
Lemma into_eqs_array_counts_test :
  (objects (test_arrays Z 4%Z 2%Z) !! 0 =
     Some (wrapped (full 0 [2; 3; 8] float64) 1) ∧
   known_kind true (full 0 [2; 3; 8] float64) = true) ∧
  ∃ s1 w1,
    into_eqs_array Z 0 (test_arrays Z 4%Z 2%Z) =
      Ok s1 (_eqs_array 0 (mk_wrapper (full 0 [2; 3; 8] float64) [2; 3; 8] 0 1)) ∧
    objects s1 !! 0 = Some (Some w1) ∧ ob_refcnt w1 = 2 ∧
    ∃ s2 h2 w2,
      _eqs_array_copy Z 0%Z true python_error 0 s1 =
        Ok s2 (EQS_SUCCESS, Some h2) ∧
      eqs_ptr h2 ≠ 0 ∧
      objects s2 !! eqs_ptr h2 = Some (Some w2) ∧ ob_refcnt w2 = 1 ∧
      objects s2 !! 0 = Some (Some w1).
Proof.
  split; [split; reflexivity|].
  destruct (into_eqs_array_counts Z 0%Z true python_error
              (test_arrays Z 4%Z 2%Z) 0 _ eq_refl eq_refl)
    as (s1 & w1 & Hinto & Hobj & _ & Hcnt & _ & _ & _ &
        s2 & h2 & w2 & s3 & Hcopy & Hne & Hw2 & Hcnt2 & Hw1 & _).
  exists s1, w1. split; [exact Hinto|].
  split; [rewrite Hobj; reflexivity|]. split; [exact Hcnt|].
  exists s2, h2, w2. repeat split; assumption.
Defined.

(** C6 as first stated fails: on the wrapper of [test_create], which no
    Python name holds any more, a second call of [into_eqs_array] returns
    the very handle of the first, and the one count behind it is two. *)
Lemma into_eqs_array_again_counterexample :
  ∃ s1 s2 h w2,
    into_eqs_array Z 0 (test_create_array Z 0%Z) = Ok s1 h ∧
    into_eqs_array Z 0 s1 = Ok s2 h ∧
    objects s2 !! eqs_ptr h = Some (Some w2) ∧
    ob_refcnt w2 = 2 ∧ ob_refcnt w2 ≠ 1.
Proof.
  eexists _, _, _, _. split; [reflexivity|]. split; [reflexivity|].
  split; [reflexivity|]. split; [reflexivity|]. discriminate.
Qed.

(** [test_create]: with the handle outstanding the wrapper is reachable and
    survives a collection; once the handle is destroyed it is collected. *)
Lemma destroy_is_refcount_balanced_test :
  (objects (test_create_array Z 0%Z) !! 0 =
     Some (wrapped (full 0 [2; 3] float64) 0) ∧ 1 ≤ 1 ∧ 0 ≤ 1) ∧
  (∃ s1,
     calls Z 1 (into_eqs_array Z 0) (test_create_array Z 0%Z) =
       Ok s1 [_eqs_array 0 (mk_wrapper (full 0 [2; 3] float64) [2; 3] 0 0)] ∧
     reachable s1 0 ∧ objects (gc_collect s1) !! 0 = objects s1 !! 0) ∧
  (∃ s1 s2,
     calls Z 1 (into_eqs_array Z 0) (test_create_array Z 0%Z) =
       Ok s1 [_eqs_array 0 (mk_wrapper (full 0 [2; 3] float64) [2; 3] 0 0)] ∧
     calls Z 1 (_eqs_array_destroy Z python_error 0) s1 =
       Ok s2 [(EQS_SUCCESS, Some tt)] ∧
     collectible s2 0 ∧ objects (gc_collect s2) !! 0 = Some None).
Proof.
  split; [split; [reflexivity|split; lia]|].
  split.
  - destruct (destroy_is_refcount_balanced Z python_error
                (test_create_array Z 0%Z) 0 _ 1 0 eq_refl
                ltac:(lia) ltac:(lia))
      as (s1 & s2 & Hinto & Hdestroy & _ & Hlt & _).
    injection Hdestroy as <-.
    destruct (Hlt ltac:(lia)) as [Hreach Hgc].
    exists s1. split; [exact Hinto|]. split; assumption.
  - destruct (destroy_is_refcount_balanced Z python_error
                (test_create_array Z 0%Z) 0 _ 1 1 eq_refl
                ltac:(lia) ltac:(lia))
      as (s1 & s2 & Hinto & Hdestroy & _ & _ & Heq).
    destruct (Heq eq_refl eq_refl) as [Hcoll Hgc].
    exists s1, s2. repeat split; assumption.
Defined.

(** [test_swap_axes]: axes 1 and 3 of a (2, 3, 18, 23) array. *)
Lemma swap_axes_involution_test :
  (objects (test_swap_array Z 0%Z) !! 0 =
     Some (wrapped (full 0 [2; 3; 18; 23] float64) 1) ∧
   1 < ndim (full 0 [2; 3; 18; 23] float64) ∧
   3 < ndim (full 0 [2; 3; 18; 23] float64)) ∧
  ∃ s1 w1,
    _eqs_array_swap_axes Z python_error 0 1 3 (test_swap_array Z 0%Z) =
      Ok s1 (EQS_SUCCESS, Some tt) ∧
    objects s1 !! 0 = Some (Some w1) ∧
    _shape w1 = [2; 23; 18; 3] ∧
    size (_shape w1) = 2 * 3 * 18 * 23 ∧
    _eqs_array_swap_axes Z python_error 0 1 3 s1 =
      Ok (test_swap_array Z 0%Z) (EQS_SUCCESS, Some tt).
Proof.
  assert (1 < ndim (full 0 [2; 3; 18; 23] float64)) as H1
    by (unfold ndim, full; simpl; lia).
  assert (3 < ndim (full 0 [2; 3; 18; 23] float64)) as H3
    by (unfold ndim, full; simpl; lia).
  split; [split; [reflexivity|split; assumption]|].
  destruct (swap_axes_involution Z 0%Z python_error (test_swap_array Z 0%Z)
              0 _ 1 3 eq_refl eq_refl H1 H3)
    as (s1 & w1 & Hcall & Hw1 & Hshape & _ & Hsize & _ & _ & Hback).
  exists s1, w1. split; [exact Hcall|]. split; [exact Hw1|].
  split; [rewrite Hshape; reflexivity|].
  split; [rewrite Hsize; reflexivity|exact Hback].
Defined.

Lemma heap_ok_test_arrays : heap_ok (test_arrays Z 4%Z 2%Z).
Proof.
  intros p w. destruct p as [|[|p]]; simpl; intros H.
  - injection H as <-. simpl. lia.
  - injection H as <-. simpl. lia.
  - destruct p; discriminate H.
Qed.

(** [test_copy]: the copy of the first array of the tests is a new handle
    with a count of one and the same elements; filling rows of the source
    afterwards does not reach the copy. *)
Lemma copy_is_independent_test :
  (objects (test_arrays Z 4%Z 2%Z) !! 0 =
     Some (wrapped (full 0 [2; 3; 8] float64) 1) ∧
   heap_ok (test_arrays Z 4%Z 2%Z) ∧
   known_kind true (full 0 [2; 3; 8] float64) = true) ∧
  ∃ s' h w',
    _eqs_array_copy Z 0%Z true python_error 0 (test_arrays Z 4%Z 2%Z) =
      Ok s' (EQS_SUCCESS, Some h) ∧
    eqs_ptr h = 2 ∧ objects s' !! 2 = Some (Some w') ∧
    ob_refcnt w' = 1 ∧ _shape w' = [2; 3; 8] ∧ buf (array w') = 2 ∧
    (∀ idx, in_bounds idx [2; 3; 8] → read Z 0%Z s' (array w') idx = 4%Z) ∧
    (∀ s'',
       run Z 0%Z no_cast true python_error
         [call_move_samples_from 0 1 [mk_sample_mapping 0 1] 3 7] s' =
         Some s'' →
       ∀ idx, in_bounds idx [2; 3; 8] →
         read Z 0%Z s'' (array w') idx = 4%Z).
Proof.
  split; [split; [reflexivity|split; [exact heap_ok_test_arrays|reflexivity]]|].
  destruct (copy_is_independent Z 0%Z no_cast true python_error
              (test_arrays Z 4%Z 2%Z) 0 _ eq_refl eq_refl
              heap_ok_test_arrays eq_refl)
    as (s' & h & w' & Hcopy & Hptr & Hw' & _ & Hcnt & Hshape & _ & _ & _ &
        Hbuf & Hvalues & _ & Hothers & _).
  exists s', h, w'. split; [exact Hcopy|]. split; [exact Hptr|].
  split; [rewrite Hptr in Hw'; exact Hw'|]. split; [exact Hcnt|].
  split; [exact Hshape|]. split; [exact Hbuf|]. split.
  - intros idx Hidx. rewrite (Hvalues idx Hidx). reflexivity.
  - intros s'' Hrun idx Hidx.
    assert (Forall (fun c => target c ≠ eqs_ptr h)
              [call_move_samples_from 0 1 [mk_sample_mapping 0 1] 3 7])
      as Hcs.
    { constructor; [|constructor]. rewrite Hptr. simpl. lia. }
    destruct (Hothers _ s'' Hcs Hrun) as [_ Hsame].
    rewrite (Hsame idx), (Hvalues idx Hidx). reflexivity.
Defined.


(** ** Examples for the further properties *)

Lemma shapes_cached_test_arrays : shapes_cached Z (test_arrays Z 4%Z 2%Z).
Proof.
  intros p w. destruct p as [|[|p]]; simpl; intros H.
  - by injection H as <-.
  - by injection H as <-.
  - destruct p; discriminate H.
Qed.

Lemma origins_cached_test_arrays :
  origins_cached Z true (test_arrays Z 4%Z 2%Z).
Proof.
  intros p w. destruct p as [|[|p]]; simpl; intros H.
  - by injection H as <-.
  - by injection H as <-.
  - destruct p; discriminate H.
Qed.


(** After a swap of axes and a reshape (which has to copy), [shape] reports
    the shape the array has. *)
Lemma shape_reports_array_shape_test :
  ∃ s' w,
    (shapes_cached Z (test_arrays Z 4%Z 2%Z) ∧
     run Z 0%Z no_cast true python_error
       [call_swap_axes 0 1 2; call_reshape 0 [6; 8]] (test_arrays Z 4%Z 2%Z) =
     Some s') ∧
    shapes_cached Z s' ∧
    objects s' !! 0 = Some (Some w) ∧ shape (array w) = [6; 8] ∧
    buf (array w) = 2 ∧
    _eqs_array_shape Z python_error 0 s' =
    Ok s' (EQS_SUCCESS, Some ([6; 8], 2)).
Proof.
  eexists _, _. split; [split; [exact shapes_cached_test_arrays|reflexivity]|].
  destruct (shape_reports_array_shape Z 0%Z no_cast true python_error
              [call_swap_axes 0 1 2; call_reshape 0 [6; 8]]
              (test_arrays Z 4%Z 2%Z) _
              shapes_cached_test_arrays eq_refl)
    as (Hinv & _ & Hshape).
  split; [exact Hinv|]. split; [reflexivity|]. split; [reflexivity|].
  split; [reflexivity|].
  exact (Hshape 0 _ eq_refl).
Defined.


(** [shape] on the first array of the tests returns the state it was
    given. *)
Lemma queries_change_nothing_test :
  ((∀ e, python_error e ≠ EQS_SUCCESS) ∧
   is_query (call_shape 0) = true ∧
   invoke Z 0%Z no_cast true python_error (call_shape 0)
     (test_arrays Z 4%Z 2%Z) =
   Ok (test_arrays Z 4%Z 2%Z)
      (EQS_SUCCESS, Some (reply_shape ([2; 3; 8], 3)))) ∧
  ((EQS_SUCCESS = EQS_SUCCESS ∧ test_arrays Z 4%Z 2%Z = test_arrays Z 4%Z 2%Z ∧
    is_Some (Some (reply_shape ([2; 3; 8], 3)))) ∨
   (∃ e, EQS_SUCCESS = python_error e ∧ EQS_SUCCESS ≠ EQS_SUCCESS ∧
      test_arrays Z 4%Z 2%Z = _save_exception e (test_arrays Z 4%Z 2%Z) ∧
      Some (reply_shape ([2; 3; 8], 3)) = None)).
Proof.
  split; [split; [exact python_error_nonzero|split; reflexivity]|].
  exact (queries_change_nothing Z 0%Z no_cast true python_error
           python_error_nonzero (call_shape 0) (test_arrays Z 4%Z 2%Z)
           (test_arrays Z 4%Z 2%Z) EQS_SUCCESS
           (Some (reply_shape ([2; 3; 8], 3))) eq_refl eq_refl).
Defined.

(** A reshape of 48 elements into 5 fails and leaves the wrappers as they
    were. *)
Lemma failed_call_changes_nothing_test :
  (moves_into_tensor Z (test_arrays Z 4%Z 2%Z) (call_reshape 0 [5]) = false ∧
   invoke Z 0%Z no_cast true python_error (call_reshape 0 [5])
     (test_arrays Z 4%Z 2%Z) =
   Ok (_save_exception
         (ValueError "cannot reshape array into the requested shape")
         (test_arrays Z 4%Z 2%Z))
      ((-1)%Z, None) ∧
   (-1)%Z ≠ EQS_SUCCESS) ∧
  ∃ e, (-1)%Z = python_error e ∧
    objects (_save_exception
               (ValueError "cannot reshape array into the requested shape")
               (test_arrays Z 4%Z 2%Z)) =
    objects (test_arrays Z 4%Z 2%Z) ∧
    LAST_EXCEPTION
      (_save_exception
         (ValueError "cannot reshape array into the requested shape")
         (test_arrays Z 4%Z 2%Z)) = Some e.
Proof.
  assert ((-1)%Z ≠ EQS_SUCCESS) as Hne by (unfold EQS_SUCCESS; lia).
  split; [split; [reflexivity|split; [reflexivity|exact Hne]]|].
  destruct (failed_call_changes_nothing Z 0%Z no_cast true python_error
              (call_reshape 0 [5]) (test_arrays Z 4%Z 2%Z)
              (_save_exception
                 (ValueError "cannot reshape array into the requested shape")
                 (test_arrays Z 4%Z 2%Z))
              (-1)%Z None eq_refl eq_refl Hne)
    as (e & Hst & _ & _ & _ & Ho & Hl).
  exists e. split; [exact Hst|]. split; [exact Ho|exact Hl].
Defined.






(** A reshape, a copy of the other array and one [destroy]: the count of
    the first wrapper of [test_move_samples_from] goes from one to zero. *)
Lemma counts_follow_destroys_test :
  ∃ s',
    (run Z 0%Z no_cast true python_error
       [call_reshape 0 [6; 8]; call_copy 1; call_destroy 0]
       (test_arrays Z 4%Z 2%Z) = Some s' ∧
     objects (test_arrays Z 4%Z 2%Z) !! 0 =
       Some (wrapped (full 0 [2; 3; 8] float64) 1)) ∧
    ∃ w', objects s' !! 0 = Some (Some w') ∧ ob_refcnt w' + 1 = 1.
Proof.
  eexists. split; [split; reflexivity|].
  exact (counts_follow_destroys Z 0%Z no_cast true python_error
           [call_reshape 0 [6; 8]; call_copy 1; call_destroy 0]
           (test_arrays Z 4%Z 2%Z) _
           0 (mk_wrapper (full 0 [2; 3; 8] float64) [2; 3; 8] 0 1)
           eq_refl eq_refl).
Defined.

(** * [operations/split.py] *)

Import Split.

Section SplitFacts.

Context `{Package}.

Lemma check_elements_spec (l : list (value Labels TensorBlock TensorMap)) :
  check_elements l = Return tt ↔ ∃ groups, l = LabelsObj <$> groups.
Proof.
  induction l as [|v l IH]; simpl.
  - split; [by exists []|done].
  - destruct v; simpl; try (split; [done|intros [[|g gs] Hg]; done]).
    rewrite IH. split.
    + intros [gs ->]. by exists (l0 :: gs).
    + intros [[|g gs] Hg]; [done|]. injection Hg as _ ->. by exists gs.
Qed.

Lemma check_equivalent_spec (ref_names : list string) (gs : list Labels) :
  check_equivalent ref_names (LabelsObj <$> gs) = Return tt ↔
  Forall (fun g => names g = ref_names) gs.
Proof.
  induction gs as [|g gs IH]; simpl.
  - split; [constructor|done].
  - case_bool_decide as Hn; simpl.
    + rewrite IH. split; [by constructor|by inversion 1].
    + split; [done|]. by inversion 1.
Qed.

Lemma subseteq_cons_iff (r : string) (rs ns : list string) :
  r :: rs ⊆ ns ↔ r ∈ ns ∧ rs ⊆ ns.
Proof.
  split.
  - intros Hsub. split.
    + apply Hsub. apply list_elem_of_here.
    + intros x Hx. apply Hsub. by apply list_elem_of_further.
  - intros [Hr Hrs] x Hx. apply elem_of_cons in Hx as [->|Hx]; auto.
Qed.

Lemma check_contained_spec (axis : string) (ns : list string) (i : nat)
    (ref_names : list string) :
  check_contained axis ns i ref_names = Return tt ↔ ref_names ⊆ ns.
Proof.
  revert i. induction ref_names as [|r rs IH]; intros i; simpl.
  - split; [|done]. intros _ x Hx. by apply not_elem_of_nil in Hx.
  - rewrite subseteq_cons_iff. case_bool_decide as Hr; simpl.
    + rewrite IH. tauto.
    + split; [done|]. tauto.
Qed.

Lemma axis_cases (a : string) :
  a ∈ ["samples"; "properties"] ↔ a = "samples" ∨ a = "properties".
Proof.
  rewrite !elem_of_cons. split; [|tauto].
  intros [?|[?|Hn]]; auto. by apply not_elem_of_nil in Hn.
Qed.

Lemma _check_args_spec
    (tensor axis grouped_idxs : value Labels TensorBlock TensorMap) :
  _check_args tensor axis grouped_idxs = Return tt ↔
  ∃ a groups, axis = Str a ∧ grouped_idxs = List (LabelsObj <$> groups) ∧
    well_formed tensor a groups.
Proof.
  unfold _check_args, well_formed. split.
  - destruct axis as [a| | | | |]; try done.
    case_bool_decide as Ha; [|done]. simpl.
    destruct grouped_idxs as [|l| | | |]; try done.
    destruct l as [|first rest].
    { intros _. exists a, []. split; [done|]. split; [done|].
      split; [by apply axis_cases|done]. }
    destruct (check_elements (first :: rest)) as [[]|e] eqn:Hel; [|done].
    apply check_elements_spec in Hel as [[|g gs] Hgs]; [done|].
    injection Hgs as -> ->. simpl.
    destruct (check_equivalent _ _) as [[]|e] eqn:Heq; [|done].
    apply check_equivalent_spec in Heq. simpl.
    intros Hrest. exists a, (g :: gs). split; [done|]. split; [done|].
    split; [by apply axis_cases|]. split; [done|].
    unfold first_block, axis_labels.
    destruct tensor as [| | |b|t|]; simpl in Hrest;
      try (by destruct (String.eqb a "samples")).
    + exists b. split; [done|].
      destruct (String.eqb a "samples"); simpl in Hrest;
        by apply check_contained_spec in Hrest.
    + destruct (block t 0) as [e|b]; [done|]. simpl in Hrest.
      exists b. split; [done|].
      destruct (String.eqb a "samples"); simpl in Hrest;
        by apply check_contained_spec in Hrest.
  - intros (a & groups & -> & -> & Ha & Hg).
    rewrite bool_decide_eq_true_2 by (by apply axis_cases). simpl.
    destruct groups as [|g gs]; [done|].
    destruct Hg as (Hsame & b & Hb & Hsub).
    change (LabelsObj <$> g :: gs) with
      (LabelsObj g :: (LabelsObj <$> gs) : list (value Labels TensorBlock TensorMap)).
    rewrite (proj2 (check_elements_spec (LabelsObj g :: (LabelsObj <$> gs)))).
    2: { by exists (g :: gs). }
    simpl. rewrite (proj2 (check_equivalent_spec _ _) Hsame). simpl.
    unfold first_block in Hb. unfold axis_labels in Hsub.
    destruct tensor as [| | |b'|t|]; try done.
    + injection Hb as ->. simpl.
      destruct (String.eqb a "samples"); simpl;
        by apply check_contained_spec.
    + destruct (block t 0) as [e|b']; [done|]. injection Hb as ->. simpl.
      destruct (String.eqb a "samples"); simpl;
        by apply check_contained_spec.
Qed.

Lemma slice_step (b : TensorBlock) (a : string) (g : Labels) :
  (if eq_str (Str a) "samples"
   then native (_slice_block b (Some (LabelsObj g)) None)
   else native (_slice_block b None (Some (LabelsObj g)))) =
  native (slice_along a b g).
Proof. unfold slice_along. simpl. by destruct (String.eqb a "samples"). Qed.

Lemma split_loop_spec (b : TensorBlock) (a : string) (groups : list Labels)
    (acc res : list TensorBlock) :
  split_loop b (Str a) (LabelsObj <$> groups) acc = Return res ↔
  ∃ new_blocks, res = acc ++ new_blocks ∧
    Forall2 (fun g nb => slice_along a b g = inr nb) groups new_blocks.
Proof.
  revert acc. induction groups as [|g gs IH]; intros acc.
  - simpl. split.
    + intros [= <-]. exists []. by rewrite app_nil_r.
    + intros (nbs & -> & Hnbs). apply Forall2_nil_inv_l in Hnbs as ->.
      by rewrite app_nil_r.
  - rewrite fmap_cons. cbn [split_loop]. rewrite slice_step.
    destruct (slice_along a b g) as [e|nb] eqn:Hs; simpl.
    + split; [done|]. intros (nbs & _ & Hnbs).
      apply Forall2_cons_inv_l in Hnbs as (nb & ? & Hnb & _). congruence.
    + rewrite IH. split.
      * intros (nbs & -> & Hnbs). exists (nb :: nbs).
        rewrite <- app_assoc. split; [done|]. by constructor.
      * intros (nbs & -> & Hnbs).
        apply Forall2_cons_inv_l in Hnbs as (nb' & nbs' & Hnb & ? & ->).
        assert (nb' = nb) as -> by congruence.
        exists nbs'. by rewrite <- app_assoc.
Qed.

Lemma _split_block_spec (b : TensorBlock) (a : string) (groups : list Labels)
    (new_blocks : list TensorBlock) :
  _split_block b (Str a) (List (LabelsObj <$> groups)) = Return new_blocks ↔
  Forall2 (fun g nb => slice_along a b g = inr nb) groups new_blocks.
Proof.
  unfold _split_block. simpl. rewrite split_loop_spec. split.
  - by intros (nbs & -> & Hnbs).
  - intros Hnbs. by exists new_blocks.
Qed.

Lemma append_blocks_spec (i : nat) (new_blocks : list TensorBlock)
    (all : list (list TensorBlock)) :
  i + length new_blocks ≤ length all →
  ∃ all',
    append_blocks i new_blocks all = Return all' ∧
    length all' = length all ∧
    ∀ j, all' !! j =
         match (if decide (i ≤ j) then new_blocks !! (j - i) else None) with
         | Some nb => (fun l => l ++ [nb]) <$> all !! j
         | None => all !! j
         end.
Proof.
  revert i all. induction new_blocks as [|nb rest IH]; intros i all Hlen.
  - exists all. split; [done|]. split; [done|].
    intros j. by destruct (decide (i ≤ j)).
  - simpl in *.
    destruct (lookup_lt_is_Some_2 all i ltac:(lia)) as [blocks Hb].
    rewrite Hb.
    destruct (IH (S i) (<[i := blocks ++ [nb]]> all)) as (all' & -> & Hl & Hj).
    { rewrite length_insert. lia. }
    exists all'. split; [done|]. rewrite Hl, length_insert. split; [done|].
    intros j. rewrite Hj.
    destruct (decide (j = i)) as [->|Hne].
    + rewrite decide_False by lia. rewrite decide_True by lia.
      rewrite Nat.sub_diag. simpl.
      rewrite list_lookup_insert_eq by lia. by rewrite Hb.
    + rewrite list_lookup_insert_ne by done.
      destruct (decide (S i ≤ j)).
      * rewrite decide_True by lia.
        replace (j - i) with (S (j - S i)) by lia. done.
      * by rewrite decide_False by lia.
Qed.

Lemma split_keys_spec (t : TensorMap) (a : string) (groups : list Labels)
    (ks : list LabelsEntry) (all all' : list (list TensorBlock)) :
  length all = length groups →
  split_keys t (Str a) (List (LabelsObj <$> groups)) ks all = Return all' →
  length all' = length all ∧
  ∀ i g blocks, groups !! i = Some g → all !! i = Some blocks →
    ∃ added, all' !! i = Some (blocks ++ added) ∧
      Forall2 (sliced t a g) ks added.
Proof.
  revert all. induction ks as [|key ks IH]; intros all Hlen; simpl.
  - intros [= <-]. split; [done|]. intros i g blocks _ Hb.
    exists []. rewrite app_nil_r. split; [done|constructor].
  - destruct (getitem t key) as [e|b] eqn:Hget; [done|]. simpl.
    destruct (_split_block b (Str a) (List (LabelsObj <$> groups)))
      as [nbs|e] eqn:Hsp; [|done].
    apply _split_block_spec in Hsp. simpl.
    pose proof Hsp as Hn. apply Forall2_length in Hn.
    destruct (append_blocks_spec 0 nbs all ltac:(lia)) as (all1 & -> & Hl1 & Hj).
    simpl. intros Hrest.
    apply IH in Hrest as [Hl Hall]; [|lia].
    split; [lia|]. intros i g blocks Hg Hb.
    destruct (Forall2_lookup_l _ _ _ _ _ Hsp Hg) as (nb & Hnb & Hslice).
    specialize (Hj i). rewrite decide_True, Nat.sub_0_r, Hnb, Hb in Hj by lia.
    destruct (Hall i g _ Hg Hj) as (added & Ha & Hadded).
    exists (nb :: added). rewrite <- app_assoc in Ha. split; [done|].
    constructor; [|done]. by exists b.
Qed.

Lemma split_keys_returns (t : TensorMap) (a : string) (groups : list Labels)
    (ks : list LabelsEntry) (all : list (list TensorBlock)) :
  length all = length groups →
  (∀ key, key ∈ ks → ∃ b, getitem t key = inr b ∧
     ∀ g, g ∈ groups → ∃ nb, slice_along a b g = inr nb) →
  ∃ all', split_keys t (Str a) (List (LabelsObj <$> groups)) ks all =
          Return all'.
Proof.
  revert all. induction ks as [|key ks IH]; intros all Hlen Hok; simpl.
  - by eexists.
  - destruct (Hok key) as (b & -> & Hslices); [apply list_elem_of_here|].
    simpl.
    assert (∃ nbs, Forall2 (fun g nb => slice_along a b g = inr nb) groups nbs)
      as [nbs Hnbs].
    { clear -Hslices. induction groups as [|g gs IHg].
      - exists []. constructor.
      - destruct (Hslices g) as [nb Hnb]; [apply list_elem_of_here|].
        destruct IHg as [nbs Hnbs].
        { intros g' Hg'. apply Hslices. by apply list_elem_of_further. }
        exists (nb :: nbs). by constructor. }
    rewrite (proj2 (_split_block_spec _ _ _ _) Hnbs). simpl.
    pose proof Hnbs as Hn. apply Forall2_length in Hn.
    destruct (append_blocks_spec 0 nbs all ltac:(lia)) as (all1 & -> & Hl1 & _).
    simpl. apply IH; [lia|].
    intros key' Hkey'. apply Hok. by apply list_elem_of_further.
Qed.

Lemma build_tensors_spec (ks : Labels) (range : list nat)
    (all : list (list TensorBlock)) (tensors : list TensorMap) :
  build_tensors ks range all = Return tensors ↔
  Forall2 (fun i new_tensor => ∃ blocks,
             all !! i = Some blocks ∧
             TensorMap_init ks blocks = inr new_tensor) range tensors.
Proof.
  revert tensors. induction range as [|i range IH]; intros tensors; simpl.
  - split; [intros [= <-]; constructor|].
    intros Hn. by apply Forall2_nil_inv_l in Hn as ->.
  - destruct (all !! i) as [blocks|] eqn:Hb.
    2: { split; [done|]. intros Hn.
         apply Forall2_cons_inv_l in Hn as (? & ? & (? & ? & _) & _).
         congruence. }
    destruct (TensorMap_init ks blocks) as [e|tm] eqn:Hinit; simpl.
    { split; [done|]. intros Hn.
      apply Forall2_cons_inv_l in Hn as (? & ? & (? & ? & Hi) & _).
      congruence. }
    destruct (build_tensors ks range all) as [ts|e] eqn:Hrest; simpl.
    + split.
      * intros [= <-]. constructor; [by exists blocks|]. by apply IH.
      * intros Hn.
        apply Forall2_cons_inv_l in Hn
          as (tm' & ts' & (? & ? & Hi) & Hts & ->).
        apply IH in Hts. congruence.
    + split; [done|]. intros Hn.
      apply Forall2_cons_inv_l in Hn as (tm' & ts' & _ & Hts & ->).
      by apply IH in Hts.
Qed.

Lemma sliced_functional (t : TensorMap) (a : string) (g : Labels)
    (ks : list LabelsEntry) (l1 l2 : list TensorBlock) :
  Forall2 (sliced t a g) ks l1 → Forall2 (sliced t a g) ks l2 → l1 = l2.
Proof.
  intros H1. revert l2. induction H1 as [|key nb ks l1 Hs _ IH]; intros l2 H2.
  - by apply Forall2_nil_inv_l in H2.
  - apply Forall2_cons_inv_l in H2 as (nb' & l2' & Hs' & H2 & ->).
    destruct Hs as (b & Hb & Hnb), Hs' as (b' & Hb' & Hnb').
    f_equal; [congruence|by apply IH].
Qed.

Lemma split_spec (t : TensorMap)
    (axis grouped_idxs : value Labels TensorBlock TensorMap)
    (tensors : list TensorMap) :
  split (TensorObj t) axis grouped_idxs = Return tensors ↔
  ∃ a groups,
    axis = Str a ∧ grouped_idxs = List (LabelsObj <$> groups) ∧
    well_formed (TensorObj t) a groups ∧
    (∀ key, key ∈ entries (keys t) → ∃ b, getitem t key = inr b) ∧
    Forall2 (fun g new_tensor => ∃ blocks,
               Forall2 (sliced t a g) (entries (keys t)) blocks ∧
               TensorMap_init (keys t) blocks = inr new_tensor)
      groups tensors.
Proof.
  unfold split. split.
  - destruct (_check_args (TensorObj t) axis grouped_idxs) as [[]|e] eqn:Hc;
      [|done].
    apply _check_args_spec in Hc as (a & groups & -> & -> & Hwf).
    simpl. rewrite length_fmap.
    destruct (split_keys _ _ _ _ _) as [all'|e] eqn:Hk; [|done]. simpl.
    intros Hb. apply build_tensors_spec in Hb.
    pose proof (split_keys_spec _ _ _ _ _ _ (length_replicate _ _) Hk)
      as [Hl Hall].
    exists a, groups. split; [done|]. split; [done|]. split; [done|]. split.
    { clear -Hk. revert Hk. generalize (replicate (length groups) (@nil TensorBlock)).
      induction (entries (keys t)) as [|key ks IH]; intros all Hk key' Hin.
      - by apply not_elem_of_nil in Hin.
      - simpl in Hk. destruct (getitem t key) as [e|b] eqn:Hget; [done|].
        simpl in Hk.
        destruct (_split_block _ _ _) as [nbs|e]; [|done]. simpl in Hk.
        destruct (append_blocks _ _ _) as [all1|e]; [|done]. simpl in Hk.
        apply elem_of_cons in Hin as [->|Hin]; [by exists b|].
        by eapply IH. }
    apply Forall2_same_length_lookup. split.
    { apply Forall2_length in Hb. rewrite length_seq in Hb. done. }
    intros i g tm Hg Htm.
    assert (seq 0 (length groups) !! i = Some i) as Hi.
    { apply lookup_seq. split; [done|]. by eapply lookup_lt_Some. }
    destruct (Forall2_lookup_l _ _ _ _ _ Hb Hi)
      as (tm' & Htm' & blocks & Hbl & Hinit).
    assert (tm' = tm) as -> by congruence.
    destruct (Hall i g [] Hg) as (added & Ha & Hadded).
    { apply lookup_replicate_2. by eapply lookup_lt_Some. }
    simpl in Ha. exists blocks. split; [|done]. congruence.
  - intros (a & groups & -> & -> & Hwf & Hget & Hspec).
    rewrite (proj2 (_check_args_spec _ _ _)) by (by exists a, groups).
    simpl. rewrite length_fmap.
    destruct (split_keys_returns t a groups (entries (keys t))
                (replicate (length groups) [])) as [all' Hk].
    { apply length_replicate. }
    { intros key Hkey. destruct (Hget key Hkey) as [b Hb].
      exists b. split; [done|]. intros g Hg.
      apply list_elem_of_lookup in Hg as [i Hg].
      destruct (Forall2_lookup_l _ _ _ _ _ Hspec Hg)
        as (tm & _ & blocks & Hblocks & _).
      apply list_elem_of_lookup in Hkey as [j Hkey].
      destruct (Forall2_lookup_l _ _ _ _ _ Hblocks Hkey)
        as (nb & _ & b' & Hb' & Hnb).
      exists nb. congruence. }
    rewrite Hk. simpl. apply build_tensors_spec.
    pose proof (split_keys_spec _ _ _ _ _ _ (length_replicate _ _) Hk)
      as [Hl Hall].
    apply Forall2_same_length_lookup. split.
    { rewrite length_seq. by eapply Forall2_length. }
    intros i i' tm Hi Htm.
    apply lookup_seq in Hi as [-> Hlt]. simpl.
    destruct (lookup_lt_is_Some_2 groups i Hlt) as [g Hg].
    destruct (Forall2_lookup_l _ _ _ _ _ Hspec Hg)
      as (tm' & Htm' & blocks & Hblocks & Hinit).
    assert (tm' = tm) as -> by congruence.
    destruct (Hall i g [] Hg) as (added & Ha & Hadded).
    { by apply lookup_replicate_2. }
    simpl in Ha. exists added. split; [done|].
    by rewrite (sliced_functional _ _ _ _ _ _ Hadded Hblocks).
Qed.

Lemma split_block_spec (b : TensorBlock)
    (axis grouped_idxs : value Labels TensorBlock TensorMap)
    (new_blocks : list TensorBlock) :
  split_block (BlockObj b) axis grouped_idxs = Return new_blocks ↔
  ∃ a groups,
    axis = Str a ∧ grouped_idxs = List (LabelsObj <$> groups) ∧
    well_formed (BlockObj b) a groups ∧
    Forall2 (fun g nb => slice_along a b g = inr nb) groups new_blocks.
Proof.
  unfold split_block. split.
  - destruct (_check_args (BlockObj b) axis grouped_idxs) as [[]|e] eqn:Hc;
      [|done].
    apply _check_args_spec in Hc as (a & groups & -> & -> & Hwf).
    simpl. intros Hs. apply _split_block_spec in Hs. by exists a, groups.
  - intros (a & groups & -> & -> & Hwf & Hs).
    rewrite (proj2 (_check_args_spec _ _ _)) by (by exists a, groups).
    simpl. by apply _split_block_spec.
Qed.

(** X11. What [_check_args] lets through. Called on a tensor map or a
    block, it returns exactly when the axis is the string "samples" or
    "properties", and [grouped_idxs] is a list of [Labels] that is either
    empty, or whose members all have the names of the first, each of these
    names being one of the names of the block (the first block of a tensor
    map) along that axis. With an axis and groups of the right types it never
    raises a [TypeError]: what it raises is a [ValueError], or the error of
    [tensor.block(0)]. *)
Theorem check_args_accepts
    (tensor axis grouped_idxs : value Labels TensorBlock TensorMap) :
  (_check_args tensor axis grouped_idxs = Return tt ↔
   ∃ a groups, axis = Str a ∧ grouped_idxs = List (LabelsObj <$> groups) ∧
     well_formed tensor a groups) ∧
  (∀ a groups e,
     axis = Str a → grouped_idxs = List (LabelsObj <$> groups) →
     (∃ t, tensor = TensorObj t) ∨ (∃ b, tensor = BlockObj b) →
     _check_args tensor axis grouped_idxs = Raises e →
     (∃ msg, e = Builtin (ValueError msg)) ∨
     (∃ t err, tensor = TensorObj t ∧ block t 0 = inl err ∧ e = Native err)).
Proof.
  split; [apply _check_args_spec|].
  intros a groups e -> -> Htensor. unfold _check_args.
  case_bool_decide as Ha; simpl; [|intros [= <-]; eauto].
  destruct groups as [|g gs]; [done|].
  change (LabelsObj <$> g :: gs) with
    (LabelsObj g :: (LabelsObj <$> gs) : list (value Labels TensorBlock TensorMap)).
  rewrite (proj2 (check_elements_spec (LabelsObj g :: (LabelsObj <$> gs))))
    by (by exists (g :: gs)).
  simpl.
  assert (∀ ns i rs e0, check_contained a ns i rs = Raises e0 →
            ∃ msg, e0 = Builtin (ValueError msg)) as Hcont.
  { intros ns i rs e0. revert i. induction rs as [|r rs IH]; intros i; [done|].
    simpl. case_bool_decide; simpl; [apply IH|]. intros [= <-]. eauto. }
  assert (∀ rs e0, check_equivalent (names g) (LabelsObj <$> rs) = Raises e0 →
            ∃ msg, e0 = Builtin (ValueError msg)) as Heq.
  { intros rs e0. induction rs as [|r rs IH]; [done|].
    simpl. case_bool_decide; simpl; [apply IH|]. intros [= <-]. eauto. }
  destruct (check_equivalent (names g) (LabelsObj <$> gs)) as [[]|e0] eqn:Hce.
  2: { simpl. intros [= <-]. left. by eapply Heq. }
  simpl. destruct Htensor as [[t ->]|[b ->]]; simpl.
  - destruct (block t 0) as [err|b] eqn:Hb; simpl.
    + intros [= <-]. right. by exists t, err.
    + destruct (String.eqb a "samples"); simpl; intros He; left;
        by eapply Hcont.
  - destruct (String.eqb a "samples"); simpl; intros He; left;
      by eapply Hcont.
Qed.

(** X12. [split_block] gives one block per group. Called on a block, it
    returns a list of blocks exactly when [_check_args] accepts the
    arguments and every slice succeeds, and the list then holds, group
    after group, the slice of the block by that group along the axis (so it
    is as long as [grouped_idxs]). Called on anything else it raises the
    [TypeError] of its first check, whatever the other arguments. *)
Theorem split_block_slices
    (block_ axis grouped_idxs : value Labels TensorBlock TensorMap) :
  (∀ b new_blocks, block_ = BlockObj b →
     (split_block block_ axis grouped_idxs = Return new_blocks ↔
      ∃ a groups,
        axis = Str a ∧ grouped_idxs = List (LabelsObj <$> groups) ∧
        well_formed block_ a groups ∧
        length new_blocks = length groups ∧
        ∀ i g, groups !! i = Some g →
          ∃ nb, new_blocks !! i = Some nb ∧ slice_along a b g = inr nb)) ∧
  ((∀ b, block_ ≠ BlockObj b) →
   split_block block_ axis grouped_idxs =
   Raises (Builtin (TypeError
     "``block`` should be an equistore ``TensorBlock``"))).
Proof.
  split.
  - intros b new_blocks ->. rewrite split_block_spec.
    split; intros (a & groups & -> & -> & Hwf & Hs); exists a, groups;
      (split; [done|]); (split; [done|]); (split; [done|]).
    + split; [symmetry; by eapply Forall2_length|].
      intros i g Hg.
      destruct (Forall2_lookup_l _ _ _ _ _ Hs Hg) as (nb & Hnb & Hslice).
      by exists nb.
    + destruct Hs as [Hlen Hs]. apply Forall2_same_length_lookup.
      split; [done|]. intros i g nb Hg Hnb.
      destruct (Hs i g Hg) as (nb' & Hnb' & Hslice). congruence.
  - intros Hnot. destruct block_; try done. by destruct (Hnot b).
Qed.

(** X13. [split] regroups the blocks. Called on a tensor map, it returns a
    list of tensor maps exactly when [_check_args] accepts the arguments,
    the block of every key can be fetched, every slice succeeds and every
    new tensor map can be built; the list then holds one tensor map per
    group, in order, built from the keys of the input and from one block
    per key of the input, in order: the slice, by that group along the
    axis, of the block the input has for that key. Called on anything else
    it raises the [TypeError] of its first check. *)
Theorem split_regroups
    (tensor axis grouped_idxs : value Labels TensorBlock TensorMap) :
  (∀ t tensors, tensor = TensorObj t →
     (split tensor axis grouped_idxs = Return tensors ↔
      ∃ a groups,
        axis = Str a ∧ grouped_idxs = List (LabelsObj <$> groups) ∧
        well_formed tensor a groups ∧
        (∀ key, key ∈ entries (keys t) → ∃ b, getitem t key = inr b) ∧
        length tensors = length groups ∧
        ∀ i g, groups !! i = Some g →
          ∃ new_tensor blocks,
            tensors !! i = Some new_tensor ∧
            TensorMap_init (keys t) blocks = inr new_tensor ∧
            length blocks = length (entries (keys t)) ∧
            ∀ j key, entries (keys t) !! j = Some key →
              ∃ b nb, getitem t key = inr b ∧ blocks !! j = Some nb ∧
                slice_along a b g = inr nb)) ∧
  ((∀ t, tensor ≠ TensorObj t) →
   split tensor axis grouped_idxs =
   Raises (Builtin (TypeError
     "``tensor`` should be an equistore ``TensorMap``"))).
Proof.
  split.
  - intros t tensors ->. rewrite split_spec.
    split; intros (a & groups & -> & -> & Hwf & Hget & Hs); exists a, groups;
      (split; [done|]); (split; [done|]); (split; [done|]);
      (split; [done|]).
    + split; [symmetry; by eapply Forall2_length|].
      intros i g Hg.
      destruct (Forall2_lookup_l _ _ _ _ _ Hs Hg)
        as (tm & Htm & blocks & Hblocks & Hinit).
      exists tm, blocks. split; [done|]. split; [done|].
      split; [symmetry; by eapply Forall2_length|].
      intros j key Hkey.
      destruct (Forall2_lookup_l _ _ _ _ _ Hblocks Hkey)
        as (nb & Hnb & b & Hb & Hslice).
      by exists b, nb.
    + destruct Hs as [Hlen Hs]. apply Forall2_same_length_lookup.
      split; [done|]. intros i g tm Hg Htm.
      destruct (Hs i g Hg) as (tm' & blocks & Htm' & Hinit & Hbl & Hblocks).
      assert (tm' = tm) as -> by congruence.
      exists blocks. split; [|done].
      apply Forall2_same_length_lookup. split; [done|].
      intros j key nb Hkey Hnb.
      destruct (Hblocks j key Hkey) as (b & nb' & Hb & Hnb' & Hslice).
      exists b. split; [done|]. congruence.
  - intros Hnot. destruct tensor; try done. by destruct (Hnot t).
Qed.

(** X14. Without groups there is nothing to check against the blocks. For
    an empty [grouped_idxs] and either axis, [split_block] returns the
    empty list for every block, whatever its names; [split] returns the
    empty list as soon as the block of every key can be fetched, also for a
    tensor map without any block, and never builds a tensor map; any other
    axis is refused with the [ValueError] of [_check_args]. *)
Theorem split_without_groups (a : string) (b : TensorBlock) (t : TensorMap) :
  (a = "samples" ∨ a = "properties" →
   split_block (BlockObj b) (Str a) (List []) = Return [] ∧
   ((∀ key, key ∈ entries (keys t) → ∃ b', getitem t key = inr b') →
    split (TensorObj t) (Str a) (List []) = Return [])) ∧
  (¬ (a = "samples" ∨ a = "properties") →
   split_block (BlockObj b) (Str a) (List []) =
     Raises (Builtin (ValueError
       "must pass ``axis`` as either 'samples' or 'properties'")) ∧
   split (TensorObj t) (Str a) (List []) =
     Raises (Builtin (ValueError
       "must pass ``axis`` as either 'samples' or 'properties'"))).
Proof.
  split.
  - intros Ha. split.
    + apply split_block_spec. exists a, []. repeat split; done.
    + intros Hget. apply split_spec. exists a, [].
      split; [done|]. split; [done|]. split; [by split|].
      split; [done|constructor].
  - intros Ha. unfold split_block, split, _check_args.
    rewrite bool_decide_eq_false_2 by (by rewrite axis_cases). done.
Qed.

End SplitFacts.

(** ** Examples for [split.py] *)

(** The call of the docstring of [split]: three groups of indices named
    "structure" along the samples are accepted. A group named "n" and "l"
    along the properties is not: the first block has no property "l". *)
Lemma check_args_accepts_test :
  _check_args (H := example_package) (TensorObj example_tensor)
    (Str "samples")
    (List [LabelsObj ["structure"]; LabelsObj ["structure"];
           LabelsObj ["structure"]]) = Return tt ∧
  ¬ well_formed (H := example_package) (TensorObj example_tensor)
      "properties" [["n"; "l"]].
Proof.
  split.
  - apply (proj1 (check_args_accepts (H := example_package)
                    (TensorObj example_tensor) (Str "samples")
                    (List [LabelsObj ["structure"]; LabelsObj ["structure"];
                           LabelsObj ["structure"]]))).
    exists "samples", [["structure"]; ["structure"]; ["structure"]].
    split; [reflexivity|]. split; [reflexivity|].
    split; [by left|]. split; [by repeat constructor|].
    exists (["structure"; "center"], ["n"]). split; [reflexivity|].
    intros x Hx. apply list_elem_of_singleton in Hx as ->.
    apply list_elem_of_here.
  - intros Hwf.
    assert (_check_args (H := example_package) (TensorObj example_tensor)
              (Str "properties") (List [LabelsObj ["n"; "l"]]) = Return tt)
      as Hc.
    { apply (proj1 (check_args_accepts (H := example_package) _ _ _)).
      by exists "properties", [["n"; "l"]]. }
    discriminate Hc.
Defined.

(** A block split along its properties into two groups gives two blocks. *)
Lemma split_block_slices_test :
  ∃ new_blocks,
    split_block (H := example_package)
      (BlockObj (["structure"; "center"], ["n"])) (Str "properties")
      (List [LabelsObj ["n"]; LabelsObj ["n"]]) = Return new_blocks ∧
    length new_blocks = 2.
Proof.
  eexists. split; [reflexivity|].
  destruct (proj1 (proj1 (split_block_slices (H := example_package)
                            (BlockObj (["structure"; "center"], ["n"]))
                            (Str "properties")
                            (List [LabelsObj ["n"]; LabelsObj ["n"]]))
                     _ _ eq_refl) eq_refl)
    as (a & groups & _ & Hg & _ & Hlen & _).
  injection Hg as Hg. apply (f_equal length) in Hg.
  rewrite length_fmap in Hg. exact (eq_trans Hlen (eq_sym Hg)).
Defined.

(** The tensor map of two blocks split into three groups gives three tensor
    maps of two blocks each. *)
Lemma split_regroups_test :
  ∃ tensors,
    split (H := example_package) (TensorObj example_tensor) (Str "samples")
      (List [LabelsObj ["structure"]; LabelsObj ["structure"];
             LabelsObj ["structure"]]) = Return tensors ∧
    length tensors = 3 ∧
    ∀ new_tensor, new_tensor ∈ tensors → length new_tensor = 2.
Proof.
  eexists. split; [reflexivity|].
  destruct (proj1 (proj1 (split_regroups (H := example_package)
                            (TensorObj example_tensor) (Str "samples")
                            (List [LabelsObj ["structure"];
                                   LabelsObj ["structure"];
                                   LabelsObj ["structure"]]))
                     _ _ eq_refl) eq_refl)
    as (a & groups & _ & Hg & _ & _ & Hlen & Hall).
  injection Hg as Hg. apply (f_equal length) in Hg.
  rewrite length_fmap in Hg. simpl in Hg.
  split; [exact (eq_trans Hlen (eq_sym Hg))|].
  intros new_tensor Hin. apply list_elem_of_lookup in Hin as [i Hi].
  assert (i < length groups) as Hlt.
  { pose proof (lookup_lt_Some _ _ _ Hi) as Hlt. change (i < 3) in Hlt.
    exact (eq_ind 3 (lt i) Hlt _ Hg). }
  destruct (lookup_lt_is_Some_2 groups i Hlt) as [g Hgi].
  destruct (Hall i g Hgi) as (tm & blocks & Htm & Hinit & Hbl & _).
  pose proof (eq_trans (eq_sym Htm) Hi) as Heq. injection Heq as ->.
  injection Hinit as <-. exact Hbl.
Defined.

(** Without groups, also a tensor map without blocks is split: into
    nothing. *)
Lemma split_without_groups_test :
  ("samples" = "samples" ∨ "samples" = "properties") ∧
  split_block (H := example_package) (BlockObj ([], [])) (Str "samples")
    (List []) = Return [] ∧
  split (H := example_package) (TensorObj []) (Str "samples") (List []) =
    Return [].
Proof.
  assert ("samples" = "samples" ∨ "samples" = "properties") as Ha by (by left).
  split; [exact Ha|].
  destruct (proj1 (split_without_groups (H := example_package) "samples"
                     ([], []) []) Ha) as [Hb Ht].
  split; [exact Hb|]. apply Ht.
  intros key Hkey. by apply not_elem_of_nil in Hkey.
Defined.
